(** * chessbench UI: live-match synchronisation core

    A shallow embedding of the TypeScript sources of the chessbench UI
    ([ui/src/App.tsx], [ui/src/mock.ts], [ui/src/sse.ts]) and the
    properties of its position model, match simulator, stream client and
    session state machine.

    Conventions of the embedding.
    - JavaScript strings are [string]; the development covers ASCII text
      (the characters of FEN, PGN and UCI), so a character is an [ascii].
    - [null] and [undefined] are [None]; a [Square] is [option string].
    - Arrays are lists, read with stdpp's lookup and written with insert.
    - JavaScript numbers are doubles.  Indices and counts are [nat].
      Clock values are the integral doubles, as [Z]: an arithmetic
      operation on them rounds its result to the nearest double
      ([round_double]), which changes nothing on integers of magnitude
      up to 2^53; the theorems about clock values say for which values
      they hold.
    - In-place mutation is explicit state passing: a function that mutates
      its argument returns the argument's new value.
    - Timers and event sources of the host are an explicit world: a
      virtual clock, the table of pending timeouts, the table of event
      sources. *)

From Stdlib Require Import ZArith Lia Bool Ascii String.
From Stdlib Require Import DecimalString DecimalNat DecimalFacts.
From stdpp Require Import base list strings.

Open Scope string_scope.
Open Scope list_scope.

(* ================================================================== *)
(** * Text primitives *)
(* ================================================================== *)

Definition code (c : ascii) : nat := nat_of_ascii c.

(** [char >= '0' && char <= '9'], the class [\d] of a regular expression. *)
Definition is_digit (c : ascii) : bool :=
  (48 <=? code c)%nat && (code c <=? 57)%nat.

(** [char >= '1' && char <= '8'] (App.tsx, parseFen). *)
Definition is_digit_1_8 (c : ascii) : bool :=
  (49 <=? code c)%nat && (code c <=? 56)%nat.

(** [Number(char)] for a decimal digit. *)
Definition digit_value (c : ascii) : nat := code c - 48.

(** The class [\s] on ASCII text: tab, line feed, vertical tab, form feed,
    carriage return, space. *)
Definition is_space (c : ascii) : bool :=
  ((9 <=? code c)%nat && (code c <=? 13)%nat) || (code c =? 32)%nat.

(** [String(n)] for a non-negative integer. *)
Definition String_of_nat (n : nat) : string :=
  NilEmpty.string_of_uint (Nat.to_uint n).

(** [s.split(sep)] for a one-character separator: never the empty list. *)
Fixpoint split_on (sep : ascii) (s : string) : list string :=
  match s with
  | "" => [""]
  | String c rest =>
      if Ascii.eqb c sep then "" :: split_on sep rest
      else match split_on sep rest with
           | h :: t => String c h :: t
           | [] => [String c ""]
           end
  end.

(** [parts.join(sep)]. *)
Definition join (sep : string) (parts : list string) : string :=
  String.concat sep parts.

Fixpoint contains (c : ascii) (s : string) : bool :=
  match s with
  | "" => false
  | String d rest => Ascii.eqb d c || contains c rest
  end.

(** [s.replace(/\{[^}]*\}/g, '')] with [open = "{"], [close = "}"], and
    the same for parentheses.  A match starts at an [open] that has a
    [close] somewhere after it and runs to the first such [close]; an
    [open] with no [close] after it is kept.  [inside] tells that the
    scan is within a match. *)
Fixpoint strip_delimited (open close : ascii) (inside : bool) (s : string)
  : string :=
  match s with
  | "" => ""
  | String c rest =>
      if inside then
        strip_delimited open close (negb (Ascii.eqb c close)) rest
      else if Ascii.eqb c open && contains close rest then
        strip_delimited open close true rest
      else String c (strip_delimited open close false rest)
  end.

(** [s.split(/\s+/)]: [in_sep] tells that the scan is within a run of
    white space that has already produced its cut. *)
Fixpoint split_ws (in_sep : bool) (s : string) : list string :=
  match s with
  | "" => [""]
  | String c rest =>
      if is_space c then
        if in_sep then split_ws true rest else "" :: split_ws true rest
      else match split_ws false rest with
           | h :: t => String c h :: t
           | [] => [String c ""]
           end
  end.

(** [Boolean(s)] for a string: the empty string is falsy. *)
Definition truthy_string (s : string) : bool :=
  match s with "" => false | _ => true end.

Fixpoint all_dots (s : string) : bool :=
  match s with
  | "" => true
  | String c rest => Ascii.eqb c "." && all_dots rest
  end.

(** The tail [\d*\.+$] of the move-number pattern. *)
Fixpoint digits_then_dots (s : string) : bool :=
  match s with
  | "" => false
  | String c rest =>
      if is_digit c then digits_then_dots rest
      else Ascii.eqb c "." && all_dots rest
  end.

(** [/^\d+\.+$/.test(token)]. *)
Definition is_move_number (token : string) : bool :=
  match token with
  | "" => false
  | String c rest => is_digit c && digits_then_dots rest
  end.

Fixpoint map_string (f : ascii -> ascii) (s : string) : string :=
  match s with
  | "" => ""
  | String c rest => String (f c) (map_string f rest)
  end.

Definition upper_char (c : ascii) : ascii :=
  if (97 <=? code c)%nat && (code c <=? 122)%nat
  then ascii_of_nat (code c - 32) else c.

Definition lower_char (c : ascii) : ascii :=
  if (65 <=? code c)%nat && (code c <=? 90)%nat
  then ascii_of_nat (code c + 32) else c.

Definition toUpperCase : string -> string := map_string upper_char.
Definition toLowerCase : string -> string := map_string lower_char.

(** [s.slice(i, j)] for [0 <= i <= j]: the characters from index [i] up
    to index [j], as many as the string has. *)
Definition slice (i j : nat) (s : string) : string :=
  String.substring i (j - i) s.

(** [s[i]]: [None] is [undefined]. *)
Definition char_at (i : nat) (s : string) : option ascii := String.get i s.

(* ================================================================== *)
(** * Numbers *)
(* ================================================================== *)

(** The integers that are doubles are those of magnitude up to 2^53 and,
    beyond that, those with 53 significant bits.  [round_double z] is the
    double nearest to the integer [z], with a tie going to the even
    significand: the rounding every arithmetic operation on doubles ends
    with.  (The rounding does not overflow: the doubles end below
    2^1024, see [is_double], and no operation of the sources takes two
    of them beyond that.) *)
Definition round_double (z : Z) : Z :=
  let a := Z.abs z in
  if (a <=? 2 ^ 53)%Z then z
  else
    let k := (Z.log2 a - 52)%Z in
    let q := (a / 2 ^ k)%Z in
    let r := (a mod 2 ^ k)%Z in
    let half := (2 ^ (k - 1))%Z in
    let m := if (r <? half)%Z then q
             else if (half <? r)%Z then (q + 1)%Z
             else if Z.even q then q else (q + 1)%Z in
    (Z.sgn z * (m * 2 ^ k))%Z.

(** The integers a number of the program can be: the integral doubles,
    which end below 2^1024. *)
Definition is_double (z : Z) : bool :=
  (round_double z =? z)%Z && (Z.abs z <? 2 ^ 1024)%Z.

(** [x - y] on integral doubles. *)
Definition Number_sub (x y : Z) : Z := round_double (x - y).

(** [Number.isSafeInteger(z)]: an integer of magnitude at most
    2^53 - 1. *)
Definition is_safe_integer (z : Z) : bool :=
  (- (2 ^ 53 - 1) <=? z)%Z && (z <=? 2 ^ 53 - 1)%Z.

(** The fraction [n / d] (with [0 <= n], [0 < d]) rounded to the nearest
    integer, a tie going to the even one. *)
Definition round_half_even (n d : Z) : Z :=
  let q := (n / d)%Z in
  let r := (n mod d)%Z in
  if (2 * r <? d)%Z then q
  else if (d <? 2 * r)%Z then (q + 1)%Z
  else if Z.even q then q else (q + 1)%Z.

(** A double that need not be integral: [mantissa * 2 ^ exponent]. *)
Record Dyadic : Type := mkDyadic {
  mantissa : Z;
  exponent : Z
}.

(** [x / y] on integral doubles, for [y] other than zero: the quotient
    rounded to 53 significant bits.  [e] is the exponent of the leading
    bit of the exact quotient.  (Quotients below the normal range of the
    doubles are not modelled.) *)
Definition Number_div (x y : Z) : Dyadic :=
  let a := Z.abs x in
  let b := Z.abs y in
  if (a =? 0)%Z then mkDyadic 0 0
  else
    let e := if (b <=? a)%Z then Z.log2 (a / b)
             else (- Z.log2_up ((b + a - 1) / a))%Z in
    let k := (e - 52)%Z in
    let m := if (0 <=? k)%Z then round_half_even a (b * 2 ^ k)
             else round_half_even (a * 2 ^ (- k)) b in
    mkDyadic (Z.sgn x * Z.sgn y * m) k.

(** [Math.floor(d)]. *)
Definition Math_floor (d : Dyadic) : Z :=
  if (0 <=? exponent d)%Z then (mantissa d * 2 ^ exponent d)%Z
  else (mantissa d / 2 ^ (- exponent d))%Z.

(* ================================================================== *)
(** * Position model of the renderer (App.tsx) *)
(* ================================================================== *)

(** [type Square = string | null]. *)
Abbreviation Square := (option string).
Abbreviation Grid := (list (list (option string))).

(** How a call completes.  [MalformedPositionError] is the error the
    specification names for the placement parser; no statement of the
    sources raises it. *)
Inductive JsError : Type :=
  | TypeError
  | SyntaxError
  | MalformedPositionError.

Inductive Completion (A : Type) : Type :=
  | Normal (a : A)
  | Throw (e : JsError).
Arguments Normal {A} a.
Arguments Throw {A} e.

(** The body of the [rank => ...] callback of parseFen: one pass over the
    characters of a rank, pushing onto [row]. *)
Fixpoint parseRank (rank : string) : list Square :=
  match rank with
  | "" => []
  | String c rest =>
      (if is_digit_1_8 c then replicate (digit_value c) None
       else [Some (String c "")]) ++ parseRank rest
  end.

(** [const [placement] = fen.split(' ')]. *)
Definition placement_of (fen : string) : string :=
  hd "" (split_on " " fen).

Definition parseFen (fen : string) : Grid :=
  map parseRank (split_on "/" (placement_of fen)).

(** parseFen has no [throw] and calls nothing that can fail on a string:
    every call completes normally. *)
Definition parseFen_completion (fen : string) : Completion Grid :=
  Normal (parseFen fen).

Record MoveRow : Type := mkRow {
  moveNumber : nat;
  white : string;
  black : string
}.

(** The token filter of parsePgnMoves: the loop body [continue]s on a move
    number and on a result token, and pushes every other token. *)
Definition is_result_token (token : string) : bool :=
  String.eqb token "1-0" || String.eqb token "0-1"
  || String.eqb token "1/2-1/2" || String.eqb token "*".

Definition keep_token (token : string) : bool :=
  negb (is_move_number token) && negb (is_result_token token).

Definition pgn_tokens (pgn : string) : list string :=
  List.filter truthy_string
    (split_ws false
       (strip_delimited "(" ")" false
          (strip_delimited "{" "}" false pgn))).

(** The second loop: [i] advances by two, [n] is [Math.floor(i / 2) + 1];
    a missing [moves[i + 1]] reads as [''] through [??]. *)
Fixpoint pair_rows (n : nat) (moves : list string) : list MoveRow :=
  match moves with
  | [] => []
  | [w] => [mkRow n w ""]
  | w :: b :: rest => mkRow n w b :: pair_rows (S n) rest
  end.

Definition parsePgnMoves (pgn : string) : list MoveRow :=
  pair_rows 1 (List.filter keep_token (pgn_tokens pgn)).

(* ================================================================== *)
(** * Board projector and placement serializer of the simulator (mock.ts) *)
(* ================================================================== *)

(** [type BoardSquare = string | null]; [Board] is [BoardSquare[][]]. *)
Abbreviation Board := (list (list (option string))).

Definition startFen : string :=
  "rnbqkbnr/pppppppp/8/8/8/8/PPPPPPPP/RNBQKBNR w KQkq - 0 1".

Definition createStartBoard : Board :=
  [ [Some "r"; Some "n"; Some "b"; Some "q"; Some "k"; Some "b"; Some "n"; Some "r"];
    [Some "p"; Some "p"; Some "p"; Some "p"; Some "p"; Some "p"; Some "p"; Some "p"];
    [None; None; None; None; None; None; None; None];
    [None; None; None; None; None; None; None; None];
    [None; None; None; None; None; None; None; None];
    [None; None; None; None; None; None; None; None];
    [Some "P"; Some "P"; Some "P"; Some "P"; Some "P"; Some "P"; Some "P"; Some "P"];
    [Some "R"; Some "N"; Some "B"; Some "Q"; Some "K"; Some "B"; Some "N"; Some "R"] ].

(** [files.indexOf(square[0])]: [-1] when the character is no file letter
    or is missing. *)
Definition file_index (c : option ascii) : Z :=
  match c with
  | Some "a"%char => 0 | Some "b"%char => 1 | Some "c"%char => 2
  | Some "d"%char => 3 | Some "e"%char => 4 | Some "f"%char => 5
  | Some "g"%char => 6 | Some "h"%char => 7
  | _ => -1
  end%Z.

(** [Number(square[1])]: [None] is [NaN].  A digit converts to its value,
    a white-space character to 0, anything else and [undefined] to NaN. *)
Definition Number_of_char (c : option ascii) : option Z :=
  match c with
  | Some d =>
      if is_digit d then Some (Z.of_nat (digit_value d))
      else if is_space d then Some 0%Z
      else None
  | None => None
  end.

Record Coords : Type := mkCoords {
  row : option Z;   (* [8 - rank]; [None] is NaN *)
  col : Z
}.

Definition squareToCoords (square : string) : Coords :=
  let file := file_index (char_at 0 square) in
  let rank := Number_of_char (char_at 1 square) in
  mkCoords (option_map (fun r => 8 - r)%Z rank) file.

(** [board[r]] for a number [r]: [None] is [undefined]. *)
Definition row_at (board : Board) (r : option Z) : option (list Square) :=
  match r with
  | Some z => if (0 <=? z)%Z then board !! Z.to_nat z else None
  | None => None
  end.

(** [rank[c]]: reading off the end gives [undefined].  A rank is
    modelled by its elements alone: it carries no property under the key
    [-1], so a read at [-1] is the read of a rank on which no earlier
    call has written at [-1] (see [write_cell]), and no theorem rests on
    such a read. *)
Definition cell_at (rank : list Square) (c : Z) : Square :=
  if (0 <=? c)%Z then default None (rank !! Z.to_nat c) else None.

(** [rank[c] = v]: inside the array the cell is replaced; past its end
    the array grows (the cells in between are holes, read as
    [undefined]); at [-1] the write makes a property and no cell. *)
Definition write_cell (rank : list Square) (c : Z) (v : Square)
  : list Square :=
  if (c <? 0)%Z then rank
  else if (Z.to_nat c <? length rank)%nat then <[Z.to_nat c := v]> rank
  else rank ++ replicate (Z.to_nat c - length rank) None ++ [v].

(** [board[r][c] = v] with [board[r]] defined. *)
Definition write_board (board : Board) (r : nat) (c : Z) (v : Square)
  : Board :=
  match board !! r with
  | Some rank => <[r := write_cell rank c v]> board
  | None => board
  end.

(** The four castling guards of applyUciMove.  They exclude one another
    (each fixes [from] and [to]), so the four [if] statements in a row
    are one choice: the board row, the rook's column and the column the
    rook lands on. *)
Definition castling_rook (piece from to : string) : option (nat * Z * Z) :=
  if String.eqb piece "K" && String.eqb from "e1" && String.eqb to "g1"
  then Some (7%nat, 7%Z, 5%Z)
  else if String.eqb piece "K" && String.eqb from "e1" && String.eqb to "c1"
  then Some (7%nat, 0%Z, 3%Z)
  else if String.eqb piece "k" && String.eqb from "e8" && String.eqb to "g8"
  then Some (0%nat, 7%Z, 5%Z)
  else if String.eqb piece "k" && String.eqb from "e8" && String.eqb to "c8"
  then Some (0%nat, 0%Z, 3%Z)
  else None.

(** [board[r][dst] = board[r][src]; board[r][src] = null]. *)
Definition move_rook (board : Board) (r : nat) (src dst : Z)
  : Completion Board :=
  match board !! r with
  | None => Throw TypeError
  | Some rank =>
      let b1 := write_board board r dst (cell_at rank src) in
      Normal (write_board b1 r src None)
  end.

(** [movedPiece]: the promotion letter in the mover's case, or the piece. *)
Definition moved_piece (piece : string) (promotion : option ascii) : string :=
  match promotion with
  | Some p =>
      if String.eqb piece (toUpperCase piece)
      then toUpperCase (String p "") else toLowerCase (String p "")
  | None => piece
  end.

(** applyUciMove mutates [board]; the result is the board after the call
    and how the call completed.  A [TypeError] comes from indexing
    [undefined] when a row number is outside the board; the writes made
    before it stay.  [if (!piece) return] leaves the board as it is for
    [null], for [undefined] (a column off the row) and for the empty
    string. *)
Definition applyUciMove (board : Board) (uci : string)
  : Board * Completion unit :=
  let from := slice 0 2 uci in
  let to := slice 2 4 uci in
  let promotion := if (4 <? String.length uci)%nat then char_at 4 uci else None in
  let fromC := squareToCoords from in
  let toC := squareToCoords to in
  match row_at board (row fromC) with
  | None => (board, Throw TypeError)
  | Some fromRank =>
      match cell_at fromRank (col fromC) with
      | None => (board, Normal ())
      | Some piece =>
          if negb (truthy_string piece) then (board, Normal ())
          else
            let fromRow := Z.to_nat (default 0%Z (row fromC)) in
            let b1 := write_board board fromRow (col fromC) None in
            let castled :=
              match castling_rook piece from to with
              | Some (r, src, dst) => move_rook b1 r src dst
              | None => Normal b1
              end in
            match castled with
            | Throw e => (b1, Throw e)
            | Normal b2 =>
                match row_at b2 (row toC) with
                | None => (b2, Throw TypeError)
                | Some _ =>
                    let toRow := Z.to_nat (default 0%Z (row toC)) in
                    (write_board b2 toRow (col toC)
                       (Some (moved_piece piece promotion)),
                     Normal ())
                end
            end
      end
  end.

(** The [forEach] callback of boardToPlacement, threading the two
    variables [empties] and [line] through the squares of a rank, and the
    flush after the loop.  [!square] holds of [null] and of the empty
    string. *)
Fixpoint rank_loop (rank : list Square) (empties : nat) (line : string)
  : string :=
  match rank with
  | [] => if (0 <? empties)%nat then line +:+ String_of_nat empties else line
  | sq :: rest =>
      match sq with
      | Some s =>
          if truthy_string s then
            rank_loop rest 0
              ((if (0 <? empties)%nat then line +:+ String_of_nat empties
                else line) +:+ s)
          else rank_loop rest (S empties) line
      | None => rank_loop rest (S empties) line
      end
  end.

Definition rank_line (rank : list Square) : string := rank_loop rank 0 "".

Definition boardToPlacement (board : Board) : string :=
  join "/" (map rank_line board).

(* ================================================================== *)
(** * The event vocabulary (sse.ts) *)
(* ================================================================== *)

(** A call of one of the callbacks of [StreamHandlers], with the payload
    the callback receives. *)
Inductive StreamEvent : Type :=
  | OnOpen
  | OnMatchStarted (match_id start_fen : string)
  | OnClock (white_ms black_ms : Z)
  | OnMove (ply : nat) (uci san fen pgn : string)
  | OnResult (result reason : string)
  | OnError.

Definition is_result_event (e : StreamEvent) : bool :=
  match e with OnResult _ _ => true | _ => false end.

(* ================================================================== *)
(** * Match simulator (mock.ts, createMockStream) *)
(* ================================================================== *)

(** The script: [(uci, san)] pairs. *)
Definition mockMoves : list (string * string) :=
  [ ("e2e4", "e4"); ("c7c5", "c5"); ("g1f3", "Nf3"); ("d7d6", "d6");
    ("d2d4", "d4"); ("c5d4", "cxd4"); ("f3d4", "Nxd4"); ("g8f6", "Nf6");
    ("b1c3", "Nc3"); ("a7a6", "a6"); ("f1e2", "Be2"); ("e7e6", "e6");
    ("e1g1", "O-O"); ("f8e7", "Be7"); ("f2f4", "f4"); ("e8g8", "O-O");
    ("c1e3", "Be3"); ("d8c7", "Qc7"); ("a2a4", "a4"); ("b8c6", "Nc6") ].

Inductive Side : Type := W | B.

Definition side_letter (s : Side) : string :=
  match s with W => "w" | B => "b" end.

Definition flip_side (s : Side) : Side :=
  match s with W => B | B => W end.

(** The variables a simulator instance closes over.  [clockTimer] and
    [moveTimer] tell whether the interval is still registered with the
    host (not yet cleared). *)
Record Sim : Type := mkSim {
  moveIndex : nat;
  whiteMs : Z;
  blackMs : Z;
  closed : bool;
  sideToMove : Side;
  board : Board;
  pgnMoves : list string;
  clockTimer : bool;
  moveTimer : bool
}.

(** [pgnMoves[pgnMoves.length - 1] += suffix]; on an empty array the
    write goes to the property [-1] and the array has no element to
    change. *)
Fixpoint append_to_last (l : list string) (suffix : string) : list string :=
  match l with
  | [] => []
  | [x] => [x +:+ suffix]
  | x :: rest => x :: append_to_last rest suffix
  end.

(** createMockStream up to its [return]: the initial variables, and the
    two callbacks called synchronously. *)
Definition createMockStream (initialMs : Z) : Sim * list StreamEvent :=
  (mkSim 0 initialMs initialMs false W createStartBoard [] true true,
   [OnOpen; OnMatchStarted "mock" startFen]).

(** The callback of the 200 ms interval. *)
Definition clock_callback (s : Sim) : Sim * list StreamEvent :=
  if closed s then (s, [])
  else
    let w := Z.max 0 (Number_sub (whiteMs s) 200) in
    let b := Z.max 0 (Number_sub (blackMs s) 200) in
    (mkSim (moveIndex s) w b (closed s) (sideToMove s) (board s)
       (pgnMoves s) (clockTimer s) (moveTimer s),
     [OnClock w b]).

(** The callback of the 1200 ms interval.  When applyUciMove throws, the
    callback is left at that point: the board keeps the writes made, no
    event is emitted and [moveIndex] stays. *)
Definition move_callback (s : Sim) : Sim * list StreamEvent :=
  if closed s then (s, [])
  else
    match mockMoves !! moveIndex s with
    | None =>
        (mkSim (moveIndex s) (whiteMs s) (blackMs s) true (sideToMove s)
           (board s) (pgnMoves s) false false,
         [OnResult "1-0" "checkmate"])
    | Some (uci, san) =>
        match applyUciMove (board s) uci with
        | (b, Throw _) =>
            (mkSim (moveIndex s) (whiteMs s) (blackMs s) (closed s)
               (sideToMove s) b (pgnMoves s) (clockTimer s) (moveTimer s),
             [])
        | (b, Normal _) =>
            let pgnMoves' : list string :=
              if (moveIndex s mod 2 =? 0)%nat
              then (pgnMoves s ++
                    [String_of_nat (moveIndex s / 2 + 1) +:+ ". " +:+ san])%list
              else append_to_last (pgnMoves s) (" " +:+ san) in
            let side := flip_side (sideToMove s) in
            let placement := boardToPlacement b in
            let fen := placement +:+ " " +:+ side_letter side +:+ " - - 0 1" in
            (mkSim (moveIndex s + 1) (whiteMs s) (blackMs s) (closed s)
               side b pgnMoves' (clockTimer s) (moveTimer s),
             [OnMove (moveIndex s + 1) uci san fen (join " " pgnMoves')])
        end
    end.

(** The [close] method of the returned handle. *)
Definition close_sim (s : Sim) : Sim :=
  mkSim (moveIndex s) (whiteMs s) (blackMs s) true (sideToMove s)
    (board s) (pgnMoves s) false false.

(** What can happen to an instance: one of its intervals comes due, or
    its owner calls [close].  The host runs the callback of an interval
    only while the interval is registered. *)
Inductive Tick : Type :=
  | ClockTimerFires
  | MoveTimerFires
  | CloseCalled.

Definition sim_step (s : Sim) (t : Tick) : Sim * list StreamEvent :=
  match t with
  | ClockTimerFires => if clockTimer s then clock_callback s else (s, [])
  | MoveTimerFires => if moveTimer s then move_callback s else (s, [])
  | CloseCalled => (close_sim s, [])
  end.

(** A run: the instance after the ticks of a schedule, and the events
    emitted on the way, in order. *)
Fixpoint sim_run (s : Sim) (schedule : list Tick) : Sim * list StreamEvent :=
  match schedule with
  | [] => (s, [])
  | t :: rest =>
      let '(s1, out1) := sim_step s t in
      let '(s2, out2) := sim_run s1 rest in
      (s2, out1 ++ out2)
  end.

(** Everything an instance made with [initialMs] emits under a schedule,
    from its construction on. *)
Definition sim_trace (initialMs : Z) (schedule : list Tick)
  : list StreamEvent :=
  let '(s0, out0) := createMockStream initialMs in
  out0 ++ snd (sim_run s0 schedule).

(** The schedules the two intervals produce on a host whose timers fire
    on time, up to time [200 * n] ms: the clock interval at every
    multiple of 200, the move interval at every multiple of 1200.  When
    both are due the host may run either first: [clock_first k] tells
    whether the clock interval runs first at time [200 * k]. *)
Fixpoint timed_schedule_from (clock_first : nat -> bool) (k n : nat)
  : list Tick :=
  match n with
  | 0 => []
  | S n' =>
      (if (k mod 6 =? 0)%nat
       then if clock_first k then [ClockTimerFires; MoveTimerFires]
            else [MoveTimerFires; ClockTimerFires]
       else [ClockTimerFires]) ++ timed_schedule_from clock_first (S k) n'
  end.

Definition timed_schedule (clock_first : nat -> bool) (n : nat) : list Tick :=
  timed_schedule_from clock_first 1 n.

Definition clock_values (trace : list StreamEvent) : list (Z * Z) :=
  omap (fun e => match e with OnClock w b => Some (w, b) | _ => None end) trace.

Definition move_codes (trace : list StreamEvent) : list (nat * string * string) :=
  omap (fun e => match e with
                 | OnMove ply uci san _ _ => Some (ply, uci, san)
                 | _ => None
                 end) trace.

Definition count_results (trace : list StreamEvent) : nat :=
  length (List.filter is_result_event trace).

Definition count_ticks (t : Tick) (schedule : list Tick) : nat :=
  length (List.filter (fun u => match t, u with
                                | ClockTimerFires, ClockTimerFires => true
                                | MoveTimerFires, MoveTimerFires => true
                                | CloseCalled, CloseCalled => true
                                | _, _ => false
                                end) schedule).

(* ================================================================== *)
(** * Stream client (sse.ts, createMatchStream) *)
(* ================================================================== *)

Module Sse.

(** A wire message: the event name and the text of its body. *)
Record MessageEvent : Type := mkMessage {
  event_name : string;
  data : string
}.

(** The four event names a listener is added for. *)
Inductive EventKind : Type :=
  | match_started
  | clock
  | move
  | result.

Definition kind_of_name (name : string) : option EventKind :=
  if String.eqb name "match_started" then Some match_started
  else if String.eqb name "clock" then Some clock
  else if String.eqb name "move" then Some move
  else if String.eqb name "result" then Some result
  else None.

(** Which of the optional callbacks the caller passed. *)
Record StreamHandlers : Type := mkHandlers {
  has_onOpen : bool;
  has_onMatchStarted : bool;
  has_onClock : bool;
  has_onMove : bool;
  has_onResult : bool;
  has_onError : bool
}.

Definition has_handler (h : StreamHandlers) (k : EventKind) : bool :=
  match k with
  | match_started => has_onMatchStarted h
  | clock => has_onClock h
  | move => has_onMove h
  | result => has_onResult h
  end.

(** What the source signals to the client. *)
Inductive SourceSignal : Type :=
  | SigOpen
  | SigMessage (ev : MessageEvent)
  | SigError.

(** What reaches the client: a signal of its source, or [close()] on the
    handle. *)
Inductive ClientInput : Type :=
  | FromSource (sig : SourceSignal)
  | HandleClose.

Section StreamClient.

(** The values of JSON and [JSON.parse]: [None] when the text is not
    valid JSON (the call throws a SyntaxError). *)
Context {Json : Type} (JSON_parse : string -> option Json).

(** A call the client makes on a callback of the caller. *)
Inductive HandlerCall : Type :=
  | CallOpen
  | CallEvent (k : EventKind) (body : Json)
  | CallError.

(** [parseEvent]: [JSON.parse(event.data) as T]; the cast checks
    nothing. *)
Definition parseEvent (ev : MessageEvent) : Completion Json :=
  match JSON_parse (data ev) with
  | Some v => Normal v
  | None => Throw SyntaxError
  end.

(** The listener added for kind [k]:
    [handlers.onK?.(parseEvent(event))].  Without the callback the
    argument is not evaluated; with it, the argument is evaluated
    before the call, and a throw leaves the listener without the
    call. *)
Definition listener (h : StreamHandlers) (k : EventKind)
    (ev : MessageEvent) : Completion (list HandlerCall) :=
  if has_handler h k then
    match parseEvent ev with
    | Normal v => Normal [CallEvent k v]
    | Throw e => Throw e
    end
  else Normal [].

(** The listener the source runs for a signal: [onopen], [onerror], the
    listener of the message's name, or none. *)
Definition dispatch (h : StreamHandlers) (sig : SourceSignal)
  : Completion (list HandlerCall) :=
  match sig with
  | SigOpen => Normal (if has_onOpen h then [CallOpen] else [])
  | SigError => Normal (if has_onError h then [CallError] else [])
  | SigMessage ev =>
      match kind_of_name (event_name ev) with
      | Some k => listener h k ev
      | None => Normal []
      end
  end.

(** The client as the host sees it: whether the source is closed, the
    calls made on the caller's callbacks so far, and the exceptions
    that left a listener. *)
Record Client : Type := mkClient {
  source_closed : bool;
  calls : list HandlerCall;
  reported : list JsError
}.

Definition createMatchStream : Client := mkClient false [] [].

(** One turn of the host's event loop.  A closed source fires nothing.
    An exception that leaves a listener is reported by the host (the
    DOM's event dispatch reports it and goes on); the source stays
    open and the next event is dispatched as usual. *)
Definition client_step (h : StreamHandlers) (c : Client) (i : ClientInput)
  : Client :=
  match i with
  | HandleClose => mkClient true (calls c) (reported c)
  | FromSource sig =>
      if source_closed c then c
      else match dispatch h sig with
           | Normal cs => mkClient false (calls c ++ cs) (reported c)
           | Throw e => mkClient false (calls c) (reported c ++ [e])
           end
  end.

Definition client_run (h : StreamHandlers) (c : Client)
    (inputs : list ClientInput) : Client :=
  fold_left (client_step h) inputs c.

End StreamClient.

Arguments HandlerCall : clear implicits.
Arguments Client : clear implicits.

End Sse.

(* ================================================================== *)
(** * Session state machine (App.tsx, component App) *)
(* ================================================================== *)

Module App.

Inductive MatchStatus : Type :=
  | idle
  | loading
  | connecting
  | running
  | finished
  | error
  | reconnecting.

(** The state variables of the component ([useState]). *)
Record View : Type := mkView {
  matchId : option string;
  fen : string;
  pgn : string;
  clocks : option (Z * Z);
  result : option (string * string);
  status : MatchStatus;
  errorText : option string;
  lastMoveUci : option string
}.

(** The three refs ([useRef]): handles into the host's tables. *)
Record Refs : Type := mkRefs {
  streamRef : option nat;
  reconnectTimerRef : option positive;
  mockStreamRef : option nat
}.

(** An [EventSource] the component has made. *)
Record EventSource : Type := mkSource {
  es_matchId : string;
  es_closed : bool
}.

(** A pending [setTimeout]: its id (the host hands out ids greater than
    zero), the time it comes due, and its callback, which in this
    component is always [() => openStream(id)]. *)
Record Timeout : Type := mkTimeout {
  t_id : positive;
  t_due : Z;
  t_matchId : string
}.

(** The host: a clock in ms, the pending timeouts, every event source and
    every simulator instance made so far (a handle is an index). *)
Record Host : Type := mkHost {
  now : Z;
  next_timer : positive;
  timeouts : list Timeout;
  sources : list EventSource;
  mocks : list Sim
}.

Record World : Type := mkWorld {
  view : View;
  refs : Refs;
  host : Host
}.

Definition initial_view : View :=
  mkView None startFen "" None None idle None None.

Definition initial_world : World :=
  mkWorld initial_view (mkRefs None None None) (mkHost 0 1 [] [] []).

(** ** State setters *)

Definition setStatus (f : MatchStatus -> MatchStatus) (w : World) : World :=
  let v := view w in
  mkWorld (mkView (matchId v) (fen v) (pgn v) (clocks v) (result v)
             (f (status v)) (errorText v) (lastMoveUci v))
    (refs w) (host w).

Definition setMatchId (x : option string) (w : World) : World :=
  let v := view w in
  mkWorld (mkView x (fen v) (pgn v) (clocks v) (result v) (status v)
             (errorText v) (lastMoveUci v))
    (refs w) (host w).

Definition setFen (x : string) (w : World) : World :=
  let v := view w in
  mkWorld (mkView (matchId v) x (pgn v) (clocks v) (result v) (status v)
             (errorText v) (lastMoveUci v))
    (refs w) (host w).

Definition setPgn (x : string) (w : World) : World :=
  let v := view w in
  mkWorld (mkView (matchId v) (fen v) x (clocks v) (result v) (status v)
             (errorText v) (lastMoveUci v))
    (refs w) (host w).

Definition setClocks (x : option (Z * Z)) (w : World) : World :=
  let v := view w in
  mkWorld (mkView (matchId v) (fen v) (pgn v) x (result v) (status v)
             (errorText v) (lastMoveUci v))
    (refs w) (host w).

Definition setResult (x : option (string * string)) (w : World) : World :=
  let v := view w in
  mkWorld (mkView (matchId v) (fen v) (pgn v) (clocks v) x (status v)
             (errorText v) (lastMoveUci v))
    (refs w) (host w).

Definition setError (x : option string) (w : World) : World :=
  let v := view w in
  mkWorld (mkView (matchId v) (fen v) (pgn v) (clocks v) (result v)
             (status v) x (lastMoveUci v))
    (refs w) (host w).

Definition setLastMoveUci (x : option string) (w : World) : World :=
  let v := view w in
  mkWorld (mkView (matchId v) (fen v) (pgn v) (clocks v) (result v)
             (status v) (errorText v) x)
    (refs w) (host w).

(** ** Host operations *)

(** [window.clearTimeout(t)]. *)
Definition clearTimeout (t : positive) (h : Host) : Host :=
  mkHost (now h) (next_timer h)
    (List.filter (fun e => negb (Pos.eqb (t_id e) t)) (timeouts h))
    (sources h) (mocks h).

(** [window.setTimeout(() => openStream(id), delay)]: the new id and the
    host with the timeout pending. *)
Definition setTimeout (id : string) (delay : Z) (h : Host)
  : positive * Host :=
  (next_timer h,
   mkHost (now h) (Pos.succ (next_timer h))
     (timeouts h ++ [mkTimeout (next_timer h) (now h + delay) id])
     (sources h) (mocks h)).

(** [source.close()] on the source with handle [k]. *)
Definition close_source (k : nat) (h : Host) : Host :=
  mkHost (now h) (next_timer h) (timeouts h)
    (match sources h !! k with
     | Some src => <[k := mkSource (es_matchId src) true]> (sources h)
     | None => sources h
     end)
    (mocks h).

(** [close()] on the simulator with handle [k]. *)
Definition close_mock (k : nat) (h : Host) : Host :=
  mkHost (now h) (next_timer h) (timeouts h) (sources h)
    (match mocks h !! k with
     | Some s => <[k := close_sim s]> (mocks h)
     | None => mocks h
     end).

(** [new EventSource(...)] for match [id]: its handle and the host. *)
Definition new_source (id : string) (h : Host) : nat * Host :=
  (length (sources h),
   mkHost (now h) (next_timer h) (timeouts h)
     (sources h ++ [mkSource id false]) (mocks h)).

(** ** The callbacks of the component *)

Definition closeStream (w : World) : World :=
  let h1 :=
    match reconnectTimerRef (refs w) with
    | Some t => clearTimeout t (host w)
    | None => host w
    end in
  let h2 :=
    match streamRef (refs w) with
    | Some k => close_source k h1
    | None => h1
    end in
  let h3 :=
    match mockStreamRef (refs w) with
    | Some k => close_mock k h2
    | None => h2
    end in
  mkWorld (view w) (mkRefs None None None) h3.

(** [data.start_fen || startFen]. *)
Definition start_fen_or_default (start_fen : string) : string :=
  if truthy_string start_fen then start_fen else startFen.

(** [openStream(id)] up to the construction of the source. *)
Definition openStream (id : string) (w : World) : World :=
  let w1 := closeStream w in
  let '(k, h) := new_source id (host w1) in
  mkWorld (view w1)
    (mkRefs (Some k) (reconnectTimerRef (refs w1)) (mockStreamRef (refs w1)))
    h.

(** The callbacks [openStream(id)] passes to createMatchStream. *)
Definition stream_handlers (id : string) (e : StreamEvent) (w : World)
  : World :=
  match e with
  | OnOpen =>
      setStatus (fun current =>
                   match current with reconnecting => running | _ => current end) w
  | OnMatchStarted _ start_fen =>
      setResult None
        (setPgn ""
           (setFen (start_fen_or_default start_fen)
              (setStatus (fun _ => running) w)))
  | OnClock white_ms black_ms => setClocks (Some (white_ms, black_ms)) w
  | OnMove _ uci _ fen' pgn' =>
      setLastMoveUci (Some uci) (setPgn pgn' (setFen fen' w))
  | OnResult r reason =>
      closeStream (setStatus (fun _ => finished) (setResult (Some (r, reason)) w))
  | OnError =>
      let w1 := closeStream (setStatus (fun _ => reconnecting) w) in
      let '(t, h) := setTimeout id 1500 (host w1) in
      mkWorld (view w1)
        (mkRefs (streamRef (refs w1)) (Some t) (mockStreamRef (refs w1)))
        h
  end.

(** The callbacks handleStart passes to createMockStream; there is no
    [onError] among them. *)
Definition mock_handlers (e : StreamEvent) (w : World) : World :=
  match e with
  | OnOpen => setStatus (fun _ => running) w
  | OnMatchStarted _ start_fen =>
      setResult None
        (setPgn ""
           (setFen (start_fen_or_default start_fen)
              (setStatus (fun _ => running) w)))
  | OnClock white_ms black_ms => setClocks (Some (white_ms, black_ms)) w
  | OnMove _ uci _ fen' pgn' =>
      setLastMoveUci (Some uci) (setPgn pgn' (setFen fen' w))
  | OnResult r reason =>
      closeStream (setStatus (fun _ => finished) (setResult (Some (r, reason)) w))
  | OnError => w
  end.

Definition resetMatch (w : World) : World :=
  setError None
    (setStatus (fun _ => idle)
       (setLastMoveUci None
          (setResult None
             (setClocks None
                (setPgn ""
                   (setFen startFen
                      (setMatchId None (closeStream w)))))))).

(** handleStart up to the request for a match: the two precondition
    checks, then the switch to [connecting]. *)
Definition handleStart (whiteEngineId blackEngineId : string)
    (initialMs : Z) (w : World) : World :=
  if negb (truthy_string whiteEngineId) || negb (truthy_string blackEngineId)
  then setError (Some "Select both engines to start a match.") w
  else if (initialMs <=? 0)%Z
  then setError (Some "Time control must be greater than 0 seconds.") w
  else setResult None
         (setPgn "" (closeStream (setStatus (fun _ => connecting)
                                    (setError None w)))).

(** The [then] callback of createMatch: [setMatchId; openStream]. *)
Definition match_created (id : string) (w : World) : World :=
  openStream id (setMatchId (Some id) w).

(** The [catch] callback of either request. *)
Definition request_failed (message : string) (w : World) : World :=
  setError (Some message) (setStatus (fun _ => error) w).

(** The [then] callback of createMockMatch: the simulator is made, its
    two first callbacks run at once, then the handle is stored. *)
Definition mock_match_created (id : string) (initialMs : Z) (w : World)
  : World :=
  let w1 := setMatchId (Some id) w in
  let '(s, out) := createMockStream initialMs in
  let w2 := fold_left (fun acc e => mock_handlers e acc) out w1 in
  let h := host w2 in
  mkWorld (view w2)
    (mkRefs (streamRef (refs w2)) (reconnectTimerRef (refs w2))
       (Some (length (mocks h))))
    (mkHost (now h) (next_timer h) (timeouts h) (sources h) (mocks h ++ [s])).

(** ** What the host does to the component *)

(** The source with handle [k] calls a callback: a closed source calls
    nothing; an open one calls the callbacks it was made with, those of
    [openStream(es_matchId)]. *)
Definition source_calls (k : nat) (e : StreamEvent) (w : World) : World :=
  match sources (host w) !! k with
  | Some src => if es_closed src then w else stream_handlers (es_matchId src) e w
  | None => w
  end.

(** An interval of the simulator with handle [k] comes due: the instance
    steps, and the events it emits reach the component's callbacks. *)
Definition mock_ticks (k : nat) (t : Tick) (w : World) : World :=
  match mocks (host w) !! k with
  | Some s =>
      let '(s', out) := sim_step s t in
      let h := host w in
      let w1 := mkWorld (view w) (refs w)
                  (mkHost (now h) (next_timer h) (timeouts h) (sources h)
                     (<[k := s']> (mocks h))) in
      fold_left (fun acc e => mock_handlers e acc) out w1
  | None => w
  end.

(** The first pending timeout that is due. *)
Definition next_due (h : Host) : option Timeout :=
  List.find (fun e => (t_due e <=? now h)%Z) (timeouts h).

(** Run the due timeouts, one at a time: each is taken off the table and
    its callback [openStream(id)] runs.  The callback sets no timeout, so
    the table shrinks at every turn and its length is fuel enough. *)
Fixpoint run_due (fuel : nat) (w : World) : World :=
  match fuel with
  | 0 => w
  | S fuel' =>
      match next_due (host w) with
      | None => w
      | Some e =>
          run_due fuel'
            (openStream (t_matchId e)
               (mkWorld (view w) (refs w) (clearTimeout (t_id e) (host w))))
      end
  end.

(** [dt] ms pass. *)
Definition advance (dt : Z) (w : World) : World :=
  let h := host w in
  let w1 := mkWorld (view w) (refs w)
              (mkHost (now h + dt) (next_timer h) (timeouts h) (sources h)
                 (mocks h)) in
  run_due (length (timeouts h)) w1.

(** The inputs of the session machine, and a run over them. *)
Inductive Input : Type :=
  | Start (whiteEngineId blackEngineId : string) (initialMs : Z)
  | MatchCreated (id : string)
  | MockMatchCreated (id : string) (initialMs : Z)
  | RequestFailed (message : string)
  | SourceCalls (k : nat) (e : StreamEvent)
  | MockTicks (k : nat) (t : Tick)
  | Advance (dt : Z)
  | Stop.

Definition step (w : World) (i : Input) : World :=
  match i with
  | Start we be ms => handleStart we be ms w
  | MatchCreated id => match_created id w
  | MockMatchCreated id ms => mock_match_created id ms w
  | RequestFailed m => request_failed m w
  | SourceCalls k e => source_calls k e w
  | MockTicks k t => mock_ticks k t w
  | Advance dt => if (0 <=? dt)%Z then advance dt w else w
  | Stop => resetMatch w
  end.

Definition run (w : World) (inputs : list Input) : World :=
  fold_left step inputs w.

End App.

(* ================================================================== *)
(** * Vocabulary of the properties *)
(* ================================================================== *)

(** ** Placement text *)

Fixpoint string_forall (p : ascii -> bool) (s : string) : bool :=
  match s with
  | "" => true
  | String c rest => p c && string_forall p rest
  end.

(** The twelve piece letters the renderer has an image for ([pieceSrc]). *)
Definition is_piece_letter (c : ascii) : bool :=
  contains c "prnbqkPRNBQK".

(** The squares a rank text stands for: a digit 1-8 counts for its
    value, any other character for one square. *)
Fixpoint rank_sum (rank : string) : nat :=
  match rank with
  | "" => 0
  | String c rest =>
      (if is_digit_1_8 c then digit_value c else 1) + rank_sum rest
  end.

(** A valid rank: piece letters and digits 1-8 only, summing to 8. *)
Definition valid_rank (rank : string) : bool :=
  string_forall (fun c => is_digit_1_8 c || is_piece_letter c) rank
  && (rank_sum rank =? 8)%nat.

(** A valid placement: 8 valid ranks separated by [/]. *)
Definition valid_placement (text : string) : bool :=
  let ranks := split_on "/" text in
  (length ranks =? 8)%nat && forallb valid_rank ranks.

(** A character of a valid placement: the separator, a digit 1-8 or a
    piece letter. *)
Definition placement_char (c : ascii) : bool :=
  Ascii.eqb c "/" || (is_digit_1_8 c || is_piece_letter c).

(** The expansion of a rank in the specification's words: each digit 1-8
    becomes that many empty squares, any other character a piece code. *)
Definition expand_char (c : ascii) : list Square :=
  if is_digit_1_8 c then replicate (digit_value c) None
  else [Some (String c "")].

Definition expand_rank (rank : string) : list Square :=
  flat_map expand_char (list_ascii_of_string rank).

(** The piece codes of a row and of a grid, in reading order. *)
Definition row_pieces (r : list Square) : list string := omap id r.

Definition grid_pieces (g : Grid) : list string :=
  concat (map row_pieces g).

(** The characters of a text that are kept by [p], as one-character
    strings, in order. *)
Fixpoint chars_where (p : ascii -> bool) (s : string) : list string :=
  match s with
  | "" => []
  | String c rest =>
      if p c then String c "" :: chars_where p rest else chars_where p rest
  end.

(** The non-digit characters of a placement text, the rank separator
    apart. *)
Definition non_digit_chars (text : string) : list string :=
  chars_where (fun c => negb (is_digit c) && negb (Ascii.eqb c "/")) text.

(** ** Boards *)

Definition is_8x8 (b : Board) : bool :=
  (length b =? 8)%nat && forallb (fun r => (length r =? 8)%nat) b.

(** Every occupied cell holds one character, and [p] accepts it. *)
Definition cell_ok (p : ascii -> bool) (sq : Square) : bool :=
  match sq with
  | None => true
  | Some (String c "") => p c
  | Some _ => false
  end.

Definition cells_ok (p : ascii -> bool) (b : Board) : bool :=
  forallb (forallb (cell_ok p)) b.

(** The characters the round-trip claim allows in a cell: any but the
    digits 1-8 and the rank separator. *)
Definition claimed_piece_char (c : ascii) : bool :=
  negb (is_digit_1_8 c) && negb (Ascii.eqb c "/").

(** The characters that survive the round trip: the field separator of
    a FEN, the space, is excluded too. *)
Definition placement_safe_char (c : ascii) : bool :=
  claimed_piece_char c && negb (Ascii.eqb c " ").

(** ** Move-list text *)

Definition is_letter (c : ascii) : bool :=
  ((65 <=? code c)%nat && (code c <=? 90)%nat)
  || ((97 <=? code c)%nat && (code c <=? 122)%nat).

(** A character of a move token: no white space and none of the four
    annotation delimiters. *)
Definition is_plain_char (c : ascii) : bool :=
  negb (is_space c) && negb (contains c "{}()").

(** A move in display notation, as [e4], [Nxd4], [O-O] or [e8=Q+]: it
    starts with a letter and goes on with plain characters. *)
Definition is_san_token (t : string) : bool :=
  match t with
  | "" => false
  | String c rest => is_letter c && string_forall is_plain_char rest
  end.

Definition is_result_mark (r : string) : bool :=
  existsb (String.eqb r) ["1-0"; "0-1"; "1/2-1/2"; "*"].

Fixpoint dots (k : nat) : string :=
  match k with
  | 0 => ""
  | S k' => String "." (dots k')
  end.

(** The items of a move-list text: a move, a move number ([n] followed
    by [S more_dots] dots, as [3.] or [3...]), a terminal result, a
    comment in braces, a variation in parentheses. *)
Inductive PgnItem : Type :=
  | San (t : string)
  | MoveNo (n more_dots : nat)
  | ResultMark (r : string)
  | Comment (text : string)
  | Variation (text : string).

Definition render_item (i : PgnItem) : string :=
  match i with
  | San t => t
  | MoveNo n k => String_of_nat n +:+ String "." (dots k)
  | ResultMark r => r
  | Comment text => String "{" (text +:+ "}")
  | Variation text => String "(" (text +:+ ")")
  end.

(** A well-formed item: a comment ends at its first closing brace, a
    variation at its first closing parenthesis and holds no opening
    brace. *)
Definition item_ok (i : PgnItem) : bool :=
  match i with
  | San t => is_san_token t
  | MoveNo _ _ => true
  | ResultMark r => is_result_mark r
  | Comment text => negb (contains "}" text)
  | Variation text => negb (contains ")" text) && negb (contains "{" text)
  end.

(** The text of a list of items: the items separated by single spaces. *)
Definition move_list_text (items : list PgnItem) : string :=
  join " " (map render_item items).

(** The moves among the items, in order. *)
Definition sans_of (items : list PgnItem) : list string :=
  omap (fun i => match i with San t => Some t | _ => None end) items.

(** Numbered move pairs: [1. w b 2. w b ...], the last pair possibly
    without its black move. *)
Fixpoint numbered_pairs (n : nat) (sans : list string) : list PgnItem :=
  match sans with
  | [] => []
  | [w] => [MoveNo n 0; San w]
  | w :: b :: rest => MoveNo n 0 :: San w :: San b :: numbered_pairs (S n) rest
  end.

(** An item after the comments are stripped, and after the variations
    are stripped too. *)
Definition without_comment (i : PgnItem) : string :=
  match i with
  | Comment _ => ""
  | _ => render_item i
  end.

Definition without_annotation (i : PgnItem) : string :=
  match i with
  | Comment _ | Variation _ => ""
  | _ => render_item i
  end.

(** The rows in the specification's words: the moves paired two by two
    in order, the rows numbered 1, 2, ...; the row numbered [i + 1] has
    the move at position [2 i] in its white slot and the move at
    position [2 i + 1] in its black slot, or an empty black slot when
    there is no such move. *)
Definition paired_rows (moves : list string) : list MoveRow :=
  map (fun i => mkRow (S i) (nth (2 * i) moves "") (nth (2 * i + 1) moves ""))
    (seq 0 ((length moves + 1) / 2)).

(** ** Squares and move codes *)

(** A square name: a file letter [a]-[h], then a rank digit [1]-[8]. *)
Definition is_square (sq : string) : bool :=
  match sq with
  | String f (String k "") => contains f "abcdefgh" && contains k "12345678"
  | _ => false
  end.

(** The convention of the specification: row 0 is the top rank, rank 8,
    and row 7 is rank 1; the files [a]-[h] are the columns 0-7. *)
Definition square_index (sq : string) : option (nat * nat) :=
  match sq with
  | String f (String k "") =>
      if is_square sq then Some (56 - code k, code f - 97) else None
  | _ => None
  end.

(** The cell in row [r], column [c] of a board. *)
Definition cell (b : Board) (r c : nat) : Square :=
  match b !! r with
  | Some rank => default None (rank !! c)
  | None => None
  end.

(** What stands on a named square. *)
Definition piece_at (b : Board) (sq : string) : Square :=
  match square_index sq with
  | Some (r, c) => cell b r c
  | None => None
  end.

Definition uci_from (uci : string) : string := slice 0 2 uci.
Definition uci_to (uci : string) : string := slice 2 4 uci.
Definition uci_promotion (uci : string) : option ascii := char_at 4 uci.

(** A move code: a from square, a to square, and possibly a fifth
    character. *)
Definition is_uci (uci : string) : bool :=
  ((String.length uci =? 4)%nat || (String.length uci =? 5)%nat)
  && is_square (uci_from uci) && is_square (uci_to uci).

(** The four castling king moves in the specification's words: the
    king's code, its from and to squares, and the corner rook's from and
    to squares. *)
Definition castling_moves : list (string * string * string * (string * string)) :=
  [ ("K", "e1", "g1", ("h1", "f1"));
    ("K", "e1", "c1", ("a1", "d1"));
    ("k", "e8", "g8", ("h8", "f8"));
    ("k", "e8", "c8", ("a8", "d8")) ].

(** The rook move that goes with a move of [piece], if it is one of the
    four. *)
Definition castling_of (piece from to : string) : option (string * string) :=
  option_map snd
    (List.find (fun '(p, f, t, _) =>
                  String.eqb piece p && String.eqb from f && String.eqb to t)
       castling_moves).

(** The board a move gives, square by square: the moved
    piece (or its promotion) on [to], nothing on [from], the rook move
    [rook] if any, every other square as before. *)
Definition projected (b : Board) (from to : string) (placed : string)
    (rook : option (string * string)) (sq : string) : Square :=
  if String.eqb sq to then Some placed
  else if String.eqb sq from then None
  else match rook with
       | Some (rook_from, rook_to) =>
           if String.eqb sq rook_to then piece_at b rook_from
           else if String.eqb sq rook_from then None
           else piece_at b sq
       | None => piece_at b sq
       end.

(** The piece a move puts on its to square: with a fifth character, that
    letter in upper case if the moved piece is in upper case, in lower
    case otherwise. *)
Definition placed_piece (piece : string) (promotion : option ascii) : string :=
  match promotion with
  | Some p =>
      if String.eqb piece (toUpperCase piece)
      then toUpperCase (String p "") else toLowerCase (String p "")
  | None => piece
  end.

(** The dimensions of a board, as a proposition. *)
Definition board_8x8 (b : Board) : Prop :=
  length b = 8 /\ Forall (fun r => length r = 8) b.

(** A board with the named square overwritten. *)
Definition put (b : Board) (sq : string) (v : Square) : Board :=
  match square_index sq with
  | Some (r, c) => write_board b r (Z.of_nat c) v
  | None => b
  end.

(** ** Simulator runs *)

(** What the script's Move events carry: the plies 1, 2, ... with the
    script's codes, in script order. *)
Definition script_codes : list (nat * string * string) :=
  imap (fun i m => (S i, fst m, snd m)) mockMoves.

(** An instance that is running with [k] moves played, and one that is
    closed with both intervals cleared. *)
Definition sim_live (s : Sim) (k : nat) : Prop :=
  closed s = false /\ clockTimer s = true /\ moveTimer s = true
  /\ moveIndex s = k /\ k <= 20 /\ board_8x8 (board s).

Definition sim_dead (s : Sim) : Prop :=
  closed s = true /\ clockTimer s = false /\ moveTimer s = false.

(** The clock value [k] 200 ms ticks after [initialMs], clamped at 0. *)
Definition clock_after (initialMs : Z) (k : nat) : Z :=
  Z.max 0 (initialMs - 200 * Z.of_nat k).

(** ** Stream client runs *)

(** Two clients a caller cannot tell apart: the same calls made, the
    source open or closed alike.  They may differ in the exceptions the
    host has reported. *)
Definition same_view {Json : Type} (c c' : Sse.Client Json) : Prop :=
  Sse.source_closed c = Sse.source_closed c' /\ Sse.calls c = Sse.calls c'.

(** A JSON reader for the examples: it knows the body [42]. *)
Definition example_parse (body : string) : option Z :=
  if String.eqb body "42" then Some 42%Z else None.

(** ** Session runs *)

(** Every pending timeout is the one [reconnectTimerRef] holds: the
    component sets a timeout only in [onError], and stores its id. *)
Definition timers_tracked (w : App.World) : Prop :=
  Forall (fun e => App.reconnectTimerRef (App.refs w) = Some (App.t_id e))
    (App.timeouts (App.host w)).

(* ================================================================== *)
(** * Display helpers of the renderer (App.tsx) *)
(* ================================================================== *)

(** [const files = ['a', ..., 'h']]. *)
Definition files : list string := ["a"; "b"; "c"; "d"; "e"; "f"; "g"; "h"].

(** [String(z)] for an integer. *)
Definition String_of_Z (z : Z) : string :=
  match z with
  | Z0 => "0"
  | Zpos p => String_of_nat (Pos.to_nat p)
  | Zneg p => "-" +:+ String_of_nat (Pos.to_nat p)
  end.

(** A value inside a template literal: [undefined] prints as the word. *)
Definition template_string (o : option string) : string :=
  default "undefined" o.

(** [coordsToSquare(fileIndex, rankIndex)]: the two arguments are the
    indices of the [map] callbacks, so never negative. *)
Definition coordsToSquare (fileIndex rankIndex : nat) : string :=
  template_string (files !! fileIndex)
  +:+ String_of_Z (8 - Z.of_nat rankIndex).

(** [uciToSquares(uci)]: [null] for [null], for the empty string and for
    fewer than four characters. *)
Definition uciToSquares (uci : option string) : option (string * string) :=
  match uci with
  | None => None
  | Some u =>
      if negb (truthy_string u) || (String.length u <? 4)%nat then None
      else Some (slice 0 2 u, slice 2 4 u)
  end.

(** The tests of ChessboardWithHighlight for the cell of [rankIndex] and
    [fileIndex]: [lastMove?.from === squareId] is false without a last
    move. *)
Definition isFrom (lastMoveUci : option string) (fileIndex rankIndex : nat)
  : bool :=
  match uciToSquares lastMoveUci with
  | Some (from, _) => String.eqb from (coordsToSquare fileIndex rankIndex)
  | None => false
  end.

Definition isTo (lastMoveUci : option string) (fileIndex rankIndex : nat)
  : bool :=
  match uciToSquares lastMoveUci with
  | Some (_, to) => String.eqb to (coordsToSquare fileIndex rankIndex)
  | None => false
  end.

(** [(rankIndex + fileIndex) % 2 === 1]. *)
Definition isDark (rankIndex fileIndex : nat) : bool :=
  ((rankIndex + fileIndex) mod 2 =? 1)%nat.

Fixpoint repeat_char (c : ascii) (n : nat) : string :=
  match n with
  | 0 => ""
  | S n' => String c (repeat_char c n')
  end.

(** [s.padStart(target, fill)] for a one-character [fill]. *)
Definition padStart (target : nat) (fill : ascii) (s : string) : string :=
  repeat_char fill (target - String.length s) +:+ s.

(** [formatClock(ms)] for an integral [ms].  The two divisions are
    divisions of doubles, rounded before [Math.floor] is taken; the
    remainder [%] of two integral doubles is exact.  The minutes are
    written in decimal, as the host writes an integral number below
    10^21. *)
Definition formatClock (ms : Z) : string :=
  let totalSeconds := Z.max 0 (Math_floor (Number_div ms 1000)) in
  let minutes := Math_floor (Number_div totalSeconds 60) in
  let seconds := (totalSeconds mod 60)%Z in
  String_of_nat (Z.to_nat minutes) +:+ ":"
  +:+ padStart 2 "0" (String_of_nat (Z.to_nat seconds)).

(** The decimal digit character of a number below ten. *)
Definition digit_char (n : nat) : ascii := ascii_of_nat (48 + n).

(** ** Rows of the move list *)

(** The moves a row shows: its white move, and its black move when the
    slot is not empty. *)
Definition row_moves (r : MoveRow) : list string :=
  white r :: (if truthy_string (black r) then [black r] else []).

(** What can stand in a slot of a row: a non-empty token without white
    space that is neither a move number nor a result. *)
Definition is_move_entry (t : string) : bool :=
  truthy_string t && keep_token t
  && string_forall (fun c => negb (is_space c)) t.

(** A text holds a complete annotation: an opening delimiter with a
    closing one somewhere after it. *)
Fixpoint has_block (open close : ascii) (s : string) : bool :=
  match s with
  | "" => false
  | String x rest =>
      (Ascii.eqb x open && contains close rest) || has_block open close rest
  end.

(** The entries of the rows: every white slot and every black slot. *)
Definition row_entries (rows : list MoveRow) : list string :=
  flat_map (fun r => [white r; black r]) rows.

(** ** Pieces on a board *)

(** [!!square]: the cell holds a piece. *)
Definition is_occupied (sq : Square) : bool :=
  match sq with
  | Some s => truthy_string s
  | None => false
  end.

(** The number of pieces on a board. *)
Definition piece_count (b : Board) : nat :=
  length (List.filter is_occupied (concat b)).

(** The rank character of a square can index the board:
    [Number(square[1])] is one of 1, ..., 8. *)
Definition rank_char_ok (sq : string) : bool :=
  match char_at 1 sq with
  | Some k => contains k "12345678"
  | None => false
  end.

(* ================================================================== *)
(** * The script of the simulator, move by move (mock.ts) *)
(* ================================================================== *)

(** The name of the square in row [r] and column [c], in the
    specification's convention (row 0 is rank 8, column 0 is file a). *)
Definition square_name (r c : nat) : string :=
  String (ascii_of_nat (97 + c)) (String (ascii_of_nat (56 - r)) "").

(** The 8x8 board that holds [f sq] on every square [sq]. *)
Definition board_of (f : string -> Square) : Board :=
  map (fun r => map (fun c => f (square_name r c)) (seq 0 8)) (seq 0 8).

(** A move in the specification's words: the board that holds, on every
    square, what the specification's projection [projected] says, for
    the piece found on the from square. *)
Definition relocated (b : Board) (uci : string) : Board :=
  match piece_at b (uci_from uci) with
  | Some piece =>
      board_of (projected b (uci_from uci) (uci_to uci)
                  (placed_piece piece (uci_promotion uci))
                  (castling_of piece (uci_from uci) (uci_to uci)))
  | None => b
  end.

(** The board after the first [k] moves of the script, in the
    specification's words: each move relocated, from the start board. *)
Definition script_board (k : nat) : Board :=
  fold_left relocated (map fst (take k mockMoves)) createStartBoard.

(** The SAN texts of the first [k] moves of the script. *)
Definition script_sans (k : nat) : list string := map snd (take k mockMoves).

(** The letter of the side to move after [ply] half-moves. *)
Definition side_after (ply : nat) : string :=
  if Nat.even ply then "w" else "b".

(** An instance on which only the move interval has fired, [k] times,
    and what it emits when the interval fires once more. *)
Definition script_state (k : nat) : Sim :=
  fst (sim_run (fst (createMockStream 0)) (replicate k MoveTimerFires)).

Definition script_event (k : nat) : list StreamEvent :=
  snd (sim_step (script_state k) MoveTimerFires).

(** Two instances the move callback cannot tell apart: they agree on
    every variable but the two clocks. *)
Definition same_script (s s0 : Sim) : Prop :=
  moveIndex s = moveIndex s0 /\ closed s = closed s0
  /\ sideToMove s = sideToMove s0 /\ board s = board s0
  /\ pgnMoves s = pgnMoves s0 /\ clockTimer s = clockTimer s0
  /\ moveTimer s = moveTimer s0.

#[global] Instance MoveRow_eq_dec : EqDecision MoveRow.
Proof. solve_decision. Defined.

(** A Move event tells the script's story: its ply is one of 1-20, its
    codes are those of the script, its position text is the placement of
    the specification's board after [ply] script moves with the side to
    move, the renderer's parser reads that board back from it, and the
    renderer's move-list parser reads its move list as the rows the
    specification pairs the first [ply] SAN texts into. *)
Definition move_event_ok (e : StreamEvent) : bool :=
  match e with
  | OnMove ply uci san fen pgn =>
      (1 <=? ply)%nat && (ply <=? 20)%nat
      && bool_decide (mockMoves !! (ply - 1) = Some (uci, san))
      && bool_decide (fen = boardToPlacement (script_board ply) +:+ " "
                            +:+ side_after ply +:+ " - - 0 1")
      && bool_decide (parseFen fen = script_board ply)
      && bool_decide (parsePgnMoves pgn = paired_rows (script_sans ply))
  | _ => true
  end.

(* ================================================================== *)
(** * Invariants of the session (App.tsx) *)
(* ================================================================== *)

(** Every source made so far is closed, except the one [streamRef]
    holds. *)
Definition sources_tracked (w : App.World) : Prop :=
  forall (k : nat) (src : App.EventSource),
    App.sources (App.host w) !! k = Some src ->
    (App.es_closed src = false <-> App.streamRef (App.refs w) = Some k).

(** At most one retry is pending; while it is, no source is current, and
    the retry is due within the next 1500 ms. *)
Definition retry_ok (w : App.World) : Prop :=
  match App.timeouts (App.host w) with
  | [] => True
  | [e] =>
      App.streamRef (App.refs w) = None
      /\ (App.now (App.host w) < App.t_due e <= App.now (App.host w) + 1500)%Z
  | _ => False
  end.

Definition session_ok (w : App.World) : Prop :=
  timers_tracked w /\ sources_tracked w /\ retry_ok w.

(** The inputs that are not the user's doing and not the answer to a
    request: a source calls back, or time passes. *)
Definition is_passive (i : App.Input) : bool :=
  match i with
  | App.SourceCalls _ _ | App.Advance _ => true
  | _ => false
  end.

(** A session nothing passive can wake: no timeout pending, every source
    closed. *)
Definition quiet (w : App.World) : Prop :=
  App.timeouts (App.host w) = []
  /\ Forall (fun src => App.es_closed src = true) (App.sources (App.host w)).

(** ** Simulators of the session *)

(** Every simulator made so far is closed with its intervals cleared,
    except the one [mockStreamRef] holds. *)
Definition mocks_tracked (w : App.World) : Prop :=
  forall (k : nat) (s : Sim),
    App.mocks (App.host w) !! k = Some s ->
    sim_dead s \/ App.mockStreamRef (App.refs w) = Some k.

(** handleStart goes on to ask for a match: both engines are selected
    and the time control is positive. *)
Definition start_accepted (whiteEngineId blackEngineId : string)
    (initialMs : Z) : bool :=
  truthy_string whiteEngineId && truthy_string blackEngineId
  && (0 <? initialMs)%Z.

(** createMockMatch answers at once (it is [Promise.resolve] of a fresh
    id): the callback that makes the simulator runs right after the
    handleStart that asked, before any other callback, with the time
    control of that call.  The lists of inputs in which every
    MockMatchCreated comes so. *)
Fixpoint mock_answers_at_once (inputs : list App.Input) : bool :=
  match inputs with
  | [] => true
  | App.Start whiteEngineId blackEngineId initialMs :: rest =>
      match rest with
      | App.MockMatchCreated _ initialMs' :: rest' =>
          start_accepted whiteEngineId blackEngineId initialMs
          && (initialMs =? initialMs')%Z
          && mock_answers_at_once rest'
      | _ => mock_answers_at_once rest
      end
  | App.MockMatchCreated _ _ :: _ => false
  | _ :: rest => mock_answers_at_once rest
  end.

(** What happens without the user and without an answer to a request: a
    source calls back, an interval of a simulator fires, or time
    passes. *)
Definition is_background (i : App.Input) : bool :=
  match i with
  | App.SourceCalls _ _ | App.MockTicks _ _ | App.Advance _ => true
  | _ => false
  end.

(** A session nothing in the background can wake: no timeout pending,
    every source closed, every simulator closed with its intervals
    cleared. *)
Definition silent (w : App.World) : Prop :=
  quiet w /\ Forall sim_dead (App.mocks (App.host w)).

(** ** Updates and failures *)

(** The two events that only bring news of the game. *)
Definition is_update (e : StreamEvent) : bool :=
  match e with
  | OnClock _ _ | OnMove _ _ _ _ _ => true
  | _ => false
  end.

(** What the Move events of a trace bring to the state variables: the
    code, the position text and the move list. *)
Definition move_views (trace : list StreamEvent)
  : list (string * string * string) :=
  omap (fun e => match e with
                 | OnMove _ uci _ fen pgn => Some (uci, fen, pgn)
                 | _ => None
                 end) trace.

(** The state variables that show the last Clock and the last Move of a
    trace, and are otherwise those of [v]. *)
Definition updated_view (v : App.View) (trace : list StreamEvent) : App.View :=
  App.mkView (App.matchId v)
    (match last (move_views trace) with
     | Some (_, fen, _) => fen
     | None => App.fen v
     end)
    (match last (move_views trace) with
     | Some (_, _, pgn) => pgn
     | None => App.pgn v
     end)
    (match last (clock_values trace) with
     | Some c => Some c
     | None => App.clocks v
     end)
    (App.result v) (App.status v) (App.errorText v)
    (match last (move_views trace) with
     | Some (uci, _, _) => Some uci
     | None => App.lastMoveUci v
     end).

(** The current source fails, and 1500 ms pass. *)
Definition current_fails (w : App.World) : App.World :=
  match App.streamRef (App.refs w) with
  | Some k => App.step w (App.SourceCalls k OnError)
  | None => w
  end.

Definition failure_cycle (w : App.World) : App.World :=
  App.step (current_fails w) (App.Advance 1500).

(** ** The simulated session *)

(** What a callback of the simulated session does to the state
    variables. *)
Definition mock_view (e : StreamEvent) (v : App.View) : App.View :=
  App.view (App.mock_handlers e
              (App.mkWorld v (App.mkRefs None None None)
                 (App.mkHost 0 1 [] [] []))).

(** The firings of the clock interval that come before the firing of
    the move interval that follows [n] others: with [n = 20], before the
    firing that finds the script exhausted. *)
Fixpoint clock_ticks_before (n : nat) (schedule : list Tick) : nat :=
  match schedule with
  | [] => 0
  | ClockTimerFires :: rest => S (clock_ticks_before n rest)
  | MoveTimerFires :: rest =>
      match n with
      | 0 => 0
      | S n' => clock_ticks_before n' rest
      end
  | CloseCalled :: rest => clock_ticks_before n rest
  end.

(** ** Calls of the stream client, by kind *)

Definition kind_eqb (k k' : Sse.EventKind) : bool :=
  match k, k' with
  | Sse.match_started, Sse.match_started
  | Sse.clock, Sse.clock
  | Sse.move, Sse.move
  | Sse.result, Sse.result => true
  | _, _ => false
  end.

(** The call is one on the callback of messages of kind [k]. *)
Definition call_of_kind {Json : Type} (k : Sse.EventKind)
    (c : Sse.HandlerCall Json) : bool :=
  match c with
  | Sse.CallEvent k' _ => kind_eqb k k'
  | _ => false
  end.

(* ================================================================== *)
(** * Text lemmas *)
(* ================================================================== *)

Lemma append_nil_l (s : string) : "" +:+ s = s.
Proof. reflexivity. Qed.

Lemma append_cons (c : ascii) (a b : string) :
  String c a +:+ b = String c (a +:+ b).
Proof. reflexivity. Qed.

Lemma append_nil_r (s : string) : s +:+ "" = s.
Proof.
  induction s as [|c s IH]; [reflexivity|].
  now rewrite append_cons, IH.
Qed.

Lemma append_assoc (a b c : string) : (a +:+ b) +:+ c = a +:+ (b +:+ c).
Proof.
  induction a as [|x a IH]; [reflexivity|].
  now rewrite !append_cons, IH.
Qed.

Lemma contains_app (c : ascii) (a b : string) :
  contains c (a +:+ b) = contains c a || contains c b.
Proof.
  induction a as [|x a IH]; [reflexivity|].
  rewrite append_cons. simpl. rewrite IH. now rewrite orb_assoc.
Qed.

Lemma split_on_not_nil (sep : ascii) (s : string) : split_on sep s <> [].
Proof.
  induction s as [|c s IH]; simpl; [discriminate|].
  destruct (Ascii.eqb c sep); [discriminate|].
  destruct (split_on sep s); [contradiction | discriminate].
Qed.

Lemma split_on_absent (sep : ascii) (s : string) :
  contains sep s = false -> split_on sep s = [s].
Proof.
  induction s as [|c s IH]; simpl; [reflexivity|].
  intros H. apply orb_false_iff in H as [Hc Hs].
  rewrite Hc, (IH Hs). reflexivity.
Qed.

(** Splitting a text made of a separator-free head, a separator and a
    tail. *)
Lemma split_on_app (sep : ascii) (a b : string) :
  contains sep a = false ->
  split_on sep (a +:+ String sep b) = a :: split_on sep b.
Proof.
  induction a as [|c a IH]; intros H.
  - rewrite append_nil_l. simpl. now rewrite Ascii.eqb_refl.
  - rewrite append_cons. simpl in *.
    apply orb_false_iff in H as [Hc Ha].
    rewrite Hc, (IH Ha). reflexivity.
Qed.

Lemma hd_split_on_app (sep : ascii) (a b : string) :
  contains sep a = false ->
  hd "" (split_on sep (a +:+ String sep b)) = a.
Proof. intros H. now rewrite split_on_app. Qed.

Lemma join_cons (sep x : string) (l : list string) :
  l <> [] -> join sep (x :: l) = x +:+ sep +:+ join sep l.
Proof. destruct l; [contradiction | reflexivity]. Qed.

Lemma contains_join (c : ascii) (sep : string) (l : list string) :
  contains c sep = false ->
  Forall (fun s => contains c s = false) l ->
  contains c (join sep l) = false.
Proof.
  intros Hsep. induction 1 as [|x l Hx Hl IH]; [reflexivity|].
  destruct l as [|y l]; [exact Hx|].
  rewrite join_cons by discriminate.
  rewrite !contains_app, Hx, Hsep, IH. reflexivity.
Qed.

(** [split] undoes [join] on parts that are free of the separator. *)
Lemma split_on_join (sep : ascii) (l : list string) :
  l <> [] ->
  Forall (fun s => contains sep s = false) l ->
  split_on sep (join (String sep "") l) = l.
Proof.
  intros Hne H. induction H as [|x l Hx Hl IH]; [contradiction|].
  destruct l as [|y l].
  - simpl. now apply split_on_absent.
  - rewrite join_cons by discriminate.
    rewrite append_cons, append_nil_l.
    rewrite split_on_app by exact Hx.
    f_equal. apply IH. discriminate.
Qed.

(* ================================================================== *)
(** * Placement parser *)
(* ================================================================== *)

Lemma parseRank_length (rank : string) :
  length (parseRank rank) = rank_sum rank.
Proof.
  induction rank as [|c rank IH]; [reflexivity|].
  cbn [parseRank rank_sum]. rewrite length_app, IH.
  destruct (is_digit_1_8 c); [now rewrite length_replicate | reflexivity].
Qed.

Lemma parseRank_expand (rank : string) : parseRank rank = expand_rank rank.
Proof.
  unfold expand_rank.
  induction rank as [|c rank IH]; simpl; [reflexivity|].
  now rewrite IH.
Qed.

Lemma parseRank_app (a b : string) :
  parseRank (a +:+ b) = parseRank a ++ parseRank b.
Proof.
  induction a as [|c a IH]; [reflexivity|].
  rewrite append_cons. simpl. now rewrite IH, app_assoc.
Qed.

Lemma row_pieces_app (a b : list Square) :
  row_pieces (a ++ b) = row_pieces a ++ row_pieces b.
Proof. unfold row_pieces. apply omap_app. Qed.

Lemma row_pieces_replicate (n : nat) : row_pieces (replicate n None) = [].
Proof. induction n; simpl; [reflexivity | exact IHn]. Qed.

Lemma parseRank_pieces (rank : string) :
  row_pieces (parseRank rank)
  = chars_where (fun c => negb (is_digit_1_8 c)) rank.
Proof.
  induction rank as [|c rank IH]; simpl; [reflexivity|].
  rewrite row_pieces_app, IH.
  destruct (is_digit_1_8 c); simpl.
  - now rewrite row_pieces_replicate.
  - reflexivity.
Qed.

(** The pieces of all ranks, rank after rank, are the characters of the
    whole text that are neither a digit 1-8 nor the separator. *)
Lemma pieces_of_ranks (text : string) :
  concat (map (fun r => chars_where (fun c => negb (is_digit_1_8 c)) r)
            (split_on "/" text))
  = chars_where (fun c => negb (is_digit_1_8 c) && negb (Ascii.eqb c "/")) text.
Proof.
  induction text as [|c text IH]; [reflexivity|].
  cbn [split_on].
  destruct (Ascii.eqb c "/") eqn:E.
  - apply Ascii.eqb_eq in E. subst c. simpl. exact IH.
  - pose proof (split_on_not_nil "/" text) as Hne.
    destruct (split_on "/" text) as [|h t]; [contradiction|].
    cbn [map concat chars_where] in *. rewrite E, andb_true_r.
    destruct (negb (is_digit_1_8 c)); simpl; now rewrite <- IH.
Qed.

Lemma string_forall_split (p : ascii -> bool) (sep : ascii) (text : string) :
  forallb (string_forall p) (split_on sep text) = true ->
  string_forall (fun c => Ascii.eqb c sep || p c) text = true.
Proof.
  induction text as [|c text IH]; [reflexivity|].
  cbn [split_on string_forall].
  destruct (Ascii.eqb c sep) eqn:E; simpl.
  - exact IH.
  - pose proof (split_on_not_nil sep text) as Hne.
    destruct (split_on sep text) as [|h t]; [contradiction|].
    simpl. intros H.
    apply andb_true_iff in H as [H1 H2].
    apply andb_true_iff in H1 as [Hc Hh].
    rewrite Hc. simpl. apply IH. simpl. now rewrite Hh, H2.
Qed.

Lemma string_forall_impl (p q : ascii -> bool) (s : string) :
  (forall c, p c = true -> q c = true) ->
  string_forall p s = true -> string_forall q s = true.
Proof.
  intros Hpq. induction s as [|c s IH]; simpl; [reflexivity|].
  intros H. apply andb_true_iff in H as [Hc Hs].
  now rewrite (Hpq c Hc), (IH Hs).
Qed.

Lemma string_forall_contains (p : ascii -> bool) (c : ascii) (s : string) :
  p c = false -> string_forall p s = true -> contains c s = false.
Proof.
  intros Hc. induction s as [|d s IH]; simpl; [reflexivity|].
  intros H. apply andb_true_iff in H as [Hd Hs].
  rewrite (IH Hs), orb_false_r.
  apply Ascii.eqb_neq. intros ->. congruence.
Qed.

Lemma chars_where_ext (p q : ascii -> bool) (r : ascii -> bool) (s : string) :
  (forall c, r c = true -> p c = q c) ->
  string_forall r s = true -> chars_where p s = chars_where q s.
Proof.
  intros Hpq. induction s as [|c s IH]; simpl; [reflexivity|].
  intros H. apply andb_true_iff in H as [Hc Hs].
  now rewrite (Hpq c Hc), (IH Hs).
Qed.

Lemma placement_of_no_space (text : string) :
  contains " " text = false -> placement_of text = text.
Proof. intros H. unfold placement_of. now rewrite split_on_absent. Qed.

Lemma is_piece_letter_cases (c : ascii) :
  is_piece_letter c = true ->
  is_digit c = false /\ is_digit_1_8 c = false
  /\ Ascii.eqb c "/" = false /\ Ascii.eqb c " " = false.
Proof.
  unfold is_piece_letter. cbn [contains]. intros H.
  repeat (apply orb_true_iff in H as [H|H];
          [apply Ascii.eqb_eq in H; subst c; repeat split; reflexivity|]).
  discriminate.
Qed.

Lemma is_digit_1_8_cases (c : ascii) :
  is_digit_1_8 c = true ->
  is_digit c = true /\ Ascii.eqb c "/" = false /\ Ascii.eqb c " " = false.
Proof.
  unfold is_digit_1_8, is_digit, code. intros H.
  apply andb_true_iff in H as [H1 H2].
  apply Nat.leb_le in H1. apply Nat.leb_le in H2.
  repeat split.
  - apply andb_true_iff. split; apply Nat.leb_le; lia.
  - apply Ascii.eqb_neq. intros ->. vm_compute in H1. lia.
  - apply Ascii.eqb_neq. intros ->. vm_compute in H1. lia.
Qed.

Lemma valid_placement_chars (text : string) :
  valid_placement text = true -> string_forall placement_char text = true.
Proof.
  unfold valid_placement. intros H.
  apply andb_true_iff in H as [_ H].
  apply (string_forall_split
           (fun c => is_digit_1_8 c || is_piece_letter c) "/").
  rewrite forallb_forall in *. intros r Hr.
  specialize (H r Hr). unfold valid_rank in H.
  now apply andb_true_iff in H as [H _].
Qed.

Lemma valid_placement_no_space (text : string) :
  valid_placement text = true -> contains " " text = false.
Proof.
  intros H. apply valid_placement_chars in H.
  revert H. apply string_forall_contains. reflexivity.
Qed.

(** C8.  For every valid 8-rank placement text, parseFen returns a grid
    of exactly 8 rows of exactly 8 cells; every rank is expanded
    character by character, a digit 1-8 into that many empty squares and
    any other character into a piece code; and the piece codes of the
    grid, in reading order, are exactly the non-digit characters of the
    text (the rank separators apart), in order. *)
Theorem parseFen_valid_placement (text : string) :
  valid_placement text = true ->
  length (parseFen text) = 8
  /\ Forall (fun r => length r = 8) (parseFen text)
  /\ parseFen text = map expand_rank (split_on "/" text)
  /\ grid_pieces (parseFen text) = non_digit_chars text.
Proof.
  intros Hv.
  pose proof (valid_placement_no_space text Hv) as Hsp.
  pose proof (valid_placement_chars text Hv) as Hch.
  unfold parseFen. rewrite (placement_of_no_space text Hsp).
  unfold valid_placement in Hv.
  apply andb_true_iff in Hv as [Hlen Hranks].
  apply Nat.eqb_eq in Hlen.
  repeat split.
  - now rewrite length_map.
  - apply Forall_forall. intros r Hr.
    apply list_elem_of_In, in_map_iff in Hr as [rank [<- Hin]].
    rewrite forallb_forall in Hranks. specialize (Hranks rank Hin).
    unfold valid_rank in Hranks.
    apply andb_true_iff in Hranks as [_ Hsum].
    apply Nat.eqb_eq in Hsum. now rewrite parseRank_length.
  - apply map_ext. intros r. apply parseRank_expand.
  - unfold grid_pieces, non_digit_chars.
    rewrite map_map.
    rewrite (map_ext _ (fun r => chars_where (fun c => negb (is_digit_1_8 c)) r))
      by (intros r; apply parseRank_pieces).
    rewrite pieces_of_ranks.
    apply (chars_where_ext _ _ placement_char); [|exact Hch].
    intros c Hc. unfold placement_char in Hc.
    apply orb_true_iff in Hc as [Hc|Hc].
    { rewrite Hc. simpl. now rewrite !andb_false_r. }
    apply orb_true_iff in Hc as [Hc|Hc].
    + destruct (is_digit_1_8_cases c Hc) as (Hd & _). now rewrite Hc, Hd.
    + destruct (is_piece_letter_cases c Hc) as (Hd & Hd' & _).
      now rewrite Hd, Hd'.
Qed.

Lemma parseFen_valid_placement_witness :
  valid_placement "rnbqkbnr/pp1ppppp/8/2p5/4P3/5N2/PPPP1PPP/RNBQKB1R" = true
  /\ length (parseFen "rnbqkbnr/pp1ppppp/8/2p5/4P3/5N2/PPPP1PPP/RNBQKB1R") = 8
  /\ Forall (fun r => length r = 8)
       (parseFen "rnbqkbnr/pp1ppppp/8/2p5/4P3/5N2/PPPP1PPP/RNBQKB1R")
  /\ parseFen "rnbqkbnr/pp1ppppp/8/2p5/4P3/5N2/PPPP1PPP/RNBQKB1R"
     = map expand_rank
         (split_on "/" "rnbqkbnr/pp1ppppp/8/2p5/4P3/5N2/PPPP1PPP/RNBQKB1R")
  /\ grid_pieces (parseFen "rnbqkbnr/pp1ppppp/8/2p5/4P3/5N2/PPPP1PPP/RNBQKB1R")
     = non_digit_chars "rnbqkbnr/pp1ppppp/8/2p5/4P3/5N2/PPPP1PPP/RNBQKB1R".
Proof.
  split; [reflexivity|].
  apply (parseFen_valid_placement
           "rnbqkbnr/pp1ppppp/8/2p5/4P3/5N2/PPPP1PPP/RNBQKB1R").
  reflexivity.
Defined.

(** C2, as stated, fails: a placement whose first rank sums to 7, and one
    whose first rank holds the unrecognised character [x], are both
    parsed to a grid; no MalformedPositionError is raised. *)
Lemma parseFen_accepts_malformed :
  (valid_placement "7/8/8/8/8/8/8/8" = false
   /\ parseFen_completion "7/8/8/8/8/8/8/8" <> Throw MalformedPositionError
   /\ parseFen_completion "7/8/8/8/8/8/8/8"
      = Normal (replicate 7 None :: replicate 7 (replicate 8 None)))
  /\ (valid_placement "x7/8/8/8/8/8/8/8" = false
      /\ parseFen_completion "x7/8/8/8/8/8/8/8" <> Throw MalformedPositionError
      /\ parseFen_completion "x7/8/8/8/8/8/8/8"
         = Normal ((Some "x" :: replicate 7 None)
                     :: replicate 7 (replicate 8 None))).
Proof.
  split; (split; [reflexivity | split; [discriminate | reflexivity]]).
Qed.

(** C2, amended.  parseFen validates nothing and never fails: for every
    text it completes normally with one row per [/]-separated rank of
    the text's first space-separated field; a row is the expansion of
    its rank, a digit 1-8 giving that many empty squares and any other
    character one square holding that character, so a row has as many
    cells as its rank sums to, 8 or not. *)
Theorem parseFen_never_fails (fen : string) :
  exists grid,
    parseFen_completion fen = Normal grid
    /\ Forall2 (fun r rank => r = expand_rank rank /\ length r = rank_sum rank)
         grid (split_on "/" (placement_of fen)).
Proof.
  exists (parseFen fen). split; [reflexivity|].
  unfold parseFen.
  induction (split_on "/" (placement_of fen)) as [|rank ranks IH]; simpl.
  - constructor.
  - constructor; [|exact IH].
    split; [apply parseRank_expand | apply parseRank_length].
Qed.

(* ================================================================== *)
(** * Placement serializer and the round trip *)
(* ================================================================== *)

Lemma String_of_nat_1_8 (n : nat) :
  1 <= n <= 8 -> parseRank (String_of_nat n) = replicate n None.
Proof.
  intros [H1 H8].
  do 9 (destruct n as [|n]; [first [lia | reflexivity]|]). lia.
Qed.

Lemma String_of_nat_free (c : ascii) (n : nat) :
  is_digit c = false -> n <= 8 -> contains c (String_of_nat n) = false.
Proof.
  intros Hc H8.
  assert (Hd : forall d, is_digit d = true -> Ascii.eqb d c = false).
  { intros d Hd. apply Ascii.eqb_neq. intros ->. congruence. }
  do 9 (destruct n as [|n];
        [match goal with
         | |- contains _ ?t = _ =>
             let v := eval vm_compute in t in change t with v
         end;
         cbn [contains]; rewrite Hd by reflexivity; reflexivity|]).
  lia.
Qed.

Lemma replicate_shift {A : Type} (n : nat) (x : A) (l : list A) :
  replicate (S n) x ++ l = replicate n x ++ x :: l.
Proof. induction n as [|n IH]; simpl in *; [reflexivity | now f_equal]. Qed.

Lemma cell_ok_inv (p : ascii -> bool) (sq : Square) :
  cell_ok p sq = true ->
  sq = None \/ exists c, sq = Some (String c "") /\ p c = true.
Proof.
  destruct sq as [[|c [|d s]]|]; simpl; try discriminate; eauto.
Qed.

(** Parsing what the rank loop writes: the pending empties and the
    squares still to come are appended to what the line held. *)
Lemma parseRank_rank_loop (p : ascii -> bool) (rank : list Square) :
  (forall c, p c = true -> is_digit_1_8 c = false) ->
  forallb (cell_ok p) rank = true ->
  forall (empties : nat) (line : string),
    empties + length rank <= 8 ->
    parseRank (rank_loop rank empties line)
    = parseRank line ++ replicate empties None ++ rank.
Proof.
  intros Hp. induction rank as [|sq rank IH]; intros Hok empties line Hlen.
  - cbn [rank_loop length] in *. rewrite app_nil_r.
    destruct empties as [|e]; simpl.
    + now rewrite app_nil_r.
    + rewrite parseRank_app, String_of_nat_1_8 by lia. reflexivity.
  - cbn [forallb length] in *.
    apply andb_true_iff in Hok as [Hsq Hrest].
    destruct (cell_ok_inv p sq Hsq) as [-> | (c & -> & Hc)].
    + cbn [rank_loop]. rewrite IH by (auto; lia).
      f_equal. apply replicate_shift.
    + cbn [rank_loop truthy_string]. rewrite IH by (auto; simpl; lia).
      rewrite parseRank_app. cbn [replicate app parseRank].
      rewrite (Hp c Hc). cbn [app]. rewrite <- app_assoc. cbn [app].
      destruct empties as [|e]; simpl.
      * reflexivity.
      * rewrite parseRank_app, String_of_nat_1_8 by lia.
        now rewrite <- app_assoc.
Qed.

Lemma contains_rank_loop (p : ascii -> bool) (c : ascii)
    (rank : list Square) :
  p c = false -> is_digit c = false ->
  forallb (cell_ok p) rank = true ->
  forall (empties : nat) (line : string),
    empties + length rank <= 8 ->
    contains c line = false ->
    contains c (rank_loop rank empties line) = false.
Proof.
  intros Hp Hd. induction rank as [|sq rank IH]; intros Hok empties line Hlen Hline.
  - cbn [rank_loop length] in *.
    destruct (0 <? empties)%nat; [|exact Hline].
    rewrite contains_app, Hline, String_of_nat_free by (auto; lia).
    reflexivity.
  - cbn [forallb length] in *.
    apply andb_true_iff in Hok as [Hsq Hrest].
    destruct (cell_ok_inv p sq Hsq) as [-> | (d & -> & Hpd)].
    + cbn [rank_loop]. apply IH; auto. lia.
    + cbn [rank_loop truthy_string]. apply IH; auto; [simpl; lia|].
      rewrite contains_app. cbn [contains].
      replace (Ascii.eqb d c) with false
        by (symmetry; apply Ascii.eqb_neq; intros ->; congruence).
      destruct (0 <? empties)%nat.
      * rewrite contains_app, Hline, String_of_nat_free by (auto; lia).
        reflexivity.
      * now rewrite Hline.
Qed.

Lemma placement_safe_char_inv (c : ascii) :
  placement_safe_char c = true ->
  is_digit_1_8 c = false /\ c <> "/"%char /\ c <> " "%char.
Proof.
  unfold placement_safe_char, claimed_piece_char. intros H.
  apply andb_true_iff in H as [H H3].
  apply andb_true_iff in H as [H1 H2].
  apply negb_true_iff in H1, H2, H3.
  repeat split; [exact H1 | now apply Ascii.eqb_neq..].
Qed.

Lemma is_8x8_inv (b : Board) :
  is_8x8 b = true -> length b = 8 /\ Forall (fun r => length r = 8) b.
Proof.
  unfold is_8x8. intros H. apply andb_true_iff in H as [H1 H2].
  apply Nat.eqb_eq in H1. split; [exact H1|].
  apply Forall_forall. intros r Hr. rewrite forallb_forall in H2.
  apply Nat.eqb_eq, H2, list_elem_of_In, Hr.
Qed.

(** The serializer's text for a board of safe cells: its ranks parse
    back to the rows, and it holds neither the rank separator inside a
    rank nor a space. *)
Lemma boardToPlacement_lines (b : Board) :
  Forall (fun r => length r = 8) b ->
  cells_ok placement_safe_char b = true ->
  map parseRank (map rank_line b) = b
  /\ Forall (fun s => contains "/" s = false) (map rank_line b)
  /\ Forall (fun s => contains " " s = false) (map rank_line b).
Proof.
  intros Hlen Hok. unfold cells_ok in Hok.
  induction Hlen as [|r b Hr Hb IH]; [repeat split; constructor|].
  cbn [forallb] in Hok. apply andb_true_iff in Hok as [Hrow Hrest].
  destruct (IH Hrest) as (IH1 & IH2 & IH3).
  cbn [map]. repeat split.
  - f_equal; [|exact IH1]. unfold rank_line.
    rewrite (parseRank_rank_loop placement_safe_char); auto; [|lia].
    intros c Hc. now apply placement_safe_char_inv in Hc.
  - constructor; [|exact IH2]. unfold rank_line.
    apply (contains_rank_loop placement_safe_char); auto; lia.
  - constructor; [|exact IH3]. unfold rank_line.
    apply (contains_rank_loop placement_safe_char); auto; lia.
Qed.

(** C10, as stated, fails: a board whose only piece is the one-character
    code [" "] on a8 satisfies the claim's condition (a single character
    that is neither a digit 1-8 nor [/]), its placement text is
    [" 7/8/8/8/8/8/8/8"], and parseFen, which cuts a FEN at its first
    space, returns a grid of one empty row for it. *)
Lemma placement_roundtrip_space_fails :
  let b := (Some " " :: replicate 7 None) :: replicate 7 (replicate 8 None) in
  is_8x8 b = true
  /\ cells_ok claimed_piece_char b = true
  /\ boardToPlacement b = " 7/8/8/8/8/8/8/8"
  /\ parseFen (boardToPlacement b) = [[]]
  /\ parseFen (boardToPlacement b) <> b.
Proof.
  repeat split; try reflexivity. discriminate.
Qed.

(** C10, amended.  For every 8x8 board whose occupied cells hold single
    characters that are not digits 1-8, not [/] and not a space, parsing
    the placement text produced by boardToPlacement gives back exactly
    the board, also when the text is followed by a space and the other
    fields of a FEN. *)
Theorem placement_roundtrip (b : Board) :
  is_8x8 b = true ->
  cells_ok placement_safe_char b = true ->
  parseFen (boardToPlacement b) = b
  /\ forall fields : string,
       parseFen (boardToPlacement b +:+ " " +:+ fields) = b.
Proof.
  intros H8 Hok. apply is_8x8_inv in H8 as [Hrows Hcols].
  destruct (boardToPlacement_lines b Hcols Hok) as (Hparse & Hslash & Hspace).
  assert (Hne : map rank_line b <> []).
  { destruct b; [discriminate Hrows | discriminate]. }
  assert (Hsp : contains " " (boardToPlacement b) = false).
  { unfold boardToPlacement. now apply contains_join. }
  assert (Hsplit : split_on "/" (boardToPlacement b) = map rank_line b).
  { unfold boardToPlacement. now apply split_on_join. }
  split.
  - unfold parseFen. rewrite placement_of_no_space by exact Hsp.
    now rewrite Hsplit.
  - intros fields. unfold parseFen, placement_of.
    rewrite append_cons, append_nil_l, hd_split_on_app by exact Hsp.
    now rewrite Hsplit.
Qed.

Lemma placement_roundtrip_witness :
  is_8x8 createStartBoard = true
  /\ cells_ok placement_safe_char createStartBoard = true
  /\ parseFen (boardToPlacement createStartBoard) = createStartBoard
  /\ forall fields : string,
       parseFen (boardToPlacement createStartBoard +:+ " " +:+ fields)
       = createStartBoard.
Proof.
  split; [reflexivity|]. split; [reflexivity|].
  apply (placement_roundtrip createStartBoard); reflexivity.
Defined.

(* ================================================================== *)
(** * Move-list parser *)
(* ================================================================== *)

(** ** Stripping delimited annotations *)

Lemma strip_inside (open close : ascii) (m b : string) :
  contains close m = false ->
  strip_delimited open close true (m +:+ String close b)
  = strip_delimited open close false b.
Proof.
  induction m as [|x m IH]; intros H.
  - rewrite append_nil_l. cbn [strip_delimited].
    now rewrite Ascii.eqb_refl.
  - rewrite append_cons. cbn [strip_delimited contains] in *.
    apply orb_false_iff in H as [Hx Hm].
    rewrite Hx. simpl. now apply IH.
Qed.

(** A block from an opening delimiter to the first closing one goes. *)
Lemma strip_block (open close : ascii) (m b : string) :
  contains close m = false ->
  strip_delimited open close false (String open (m +:+ String close b))
  = strip_delimited open close false b.
Proof.
  intros H. cbn [strip_delimited].
  rewrite Ascii.eqb_refl, contains_app. cbn [contains].
  rewrite Ascii.eqb_refl, orb_true_r. simpl.
  now apply strip_inside.
Qed.

(** Text without an opening delimiter stays. *)
Lemma strip_plain (open close : ascii) (a b : string) :
  contains open a = false ->
  strip_delimited open close false (a +:+ b)
  = a +:+ strip_delimited open close false b.
Proof.
  induction a as [|x a IH]; intros H; [reflexivity|].
  rewrite !append_cons. cbn [strip_delimited contains] in *.
  apply orb_false_iff in H as [Hx Ha].
  rewrite Hx. simpl. now rewrite IH.
Qed.

Lemma strip_plain_all (open close : ascii) (a : string) :
  contains open a = false -> strip_delimited open close false a = a.
Proof.
  intros H. rewrite <- (append_nil_r a) at 1.
  rewrite strip_plain by exact H. apply append_nil_r.
Qed.

Lemma block_append (open close : ascii) (m k : string) :
  String open (m +:+ String close "") +:+ k
  = String open (m +:+ String close k).
Proof. now rewrite append_cons, append_assoc. Qed.

(** One pass over a text of items: every item either stays ([keep]) or
    is a block that goes. *)
Lemma strip_join (open close : ascii) (render after : PgnItem -> string)
    (items : list PgnItem) :
  open <> " "%char ->
  Forall (fun i =>
            (contains open (render i) = false /\ after i = render i)
            \/ (exists m, render i = String open (m +:+ String close "")
                          /\ contains close m = false /\ after i = ""))
         items ->
  strip_delimited open close false (join " " (map render items))
  = join " " (map after items).
Proof.
  intros Hsp H. induction H as [|i items Hi Hrest IH]; [reflexivity|].
  destruct items as [|j items].
  - cbn [map join String.concat].
    destruct Hi as [[Hplain ->] | (m & -> & Hm & ->)].
    + now apply strip_plain_all.
    + now rewrite strip_block.
  - cbn [map] in *.
    rewrite (join_cons " " (render i)), (join_cons " " (after i))
      by discriminate.
    rewrite <- IH.
    assert (Hblank : forall b, strip_delimited open close false (" " +:+ b)
                               = " " +:+ strip_delimited open close false b).
    { intros b. apply strip_plain. cbn [contains].
      rewrite orb_false_r. apply Ascii.eqb_neq. congruence. }
    destruct Hi as [[Hplain ->] | (m & -> & Hm & ->)].
    + rewrite strip_plain by exact Hplain. now rewrite Hblank.
    + rewrite block_append, strip_block by exact Hm. now rewrite Hblank.
Qed.

(** ** Cutting at white space *)

Lemma split_ws_word (a b : string) :
  string_forall (fun c => negb (is_space c)) a = true ->
  split_ws false (a +:+ String " " b) = a :: split_ws true b.
Proof.
  induction a as [|c a IH]; intros H.
  - reflexivity.
  - rewrite append_cons. cbn [split_ws string_forall] in *.
    apply andb_true_iff in H as [Hc Ha].
    apply negb_true_iff in Hc. rewrite Hc, (IH Ha). reflexivity.
Qed.

Lemma split_ws_last (in_sep : bool) (a : string) :
  string_forall (fun c => negb (is_space c)) a = true ->
  List.filter truthy_string (split_ws in_sep a) = List.filter truthy_string [a].
Proof.
  destruct a as [|c a]; [reflexivity|].
  cbn [string_forall]. intros H. apply andb_true_iff in H as [Hc Ha].
  apply negb_true_iff in Hc. cbn [split_ws]. rewrite Hc.
  assert (E : split_ws false a = [a]).
  { clear Hc. induction a as [|d a IH]; [reflexivity|].
    cbn [split_ws string_forall] in *.
    apply andb_true_iff in Ha as [Hd Ha].
    apply negb_true_iff in Hd. now rewrite Hd, (IH Ha). }
  now rewrite E.
Qed.

Lemma tokens_word (in_sep : bool) (a b : string) :
  string_forall (fun c => negb (is_space c)) a = true ->
  List.filter truthy_string (split_ws in_sep (a +:+ String " " b))
  = List.filter truthy_string [a] ++ List.filter truthy_string (split_ws true b).
Proof.
  intros H. destruct a as [|c a].
  - rewrite append_nil_l. destruct in_sep; reflexivity.
  - assert (E : split_ws in_sep (String c a +:+ String " " b)
                = split_ws false (String c a +:+ String " " b)).
    { rewrite append_cons. cbn [split_ws string_forall] in *.
      apply andb_true_iff in H as [Hc _].
      apply negb_true_iff in Hc. now rewrite Hc. }
    rewrite E, split_ws_word by exact H. reflexivity.
Qed.

(** The tokens of space-separated words are the non-empty words. *)
Lemma tokens_join (in_sep : bool) (words : list string) :
  Forall (fun a => string_forall (fun c => negb (is_space c)) a = true) words ->
  List.filter truthy_string (split_ws in_sep (join " " words))
  = List.filter truthy_string words.
Proof.
  intros H. revert in_sep.
  induction H as [|a words Ha Hrest IH]; intros in_sep.
  - destruct in_sep; reflexivity.
  - destruct words as [|a' words].
    + cbn [join String.concat]. now apply split_ws_last.
    + rewrite join_cons by discriminate.
      rewrite append_cons, append_nil_l.
      rewrite tokens_word by exact Ha.
      rewrite IH. symmetry. apply (List.filter_app _ [a]).
Qed.

(** ** The items of a move list *)

Lemma string_forall_app (p : ascii -> bool) (a b : string) :
  string_forall p (a +:+ b) = string_forall p a && string_forall p b.
Proof.
  induction a as [|c a IH]; [reflexivity|].
  rewrite append_cons. cbn [string_forall]. now rewrite IH, andb_assoc.
Qed.

Lemma string_of_uint_forall (p : ascii -> bool) (d : Decimal.uint) :
  string_forall p "0123456789" = true ->
  string_forall p (NilEmpty.string_of_uint d) = true.
Proof.
  intros H. cbn [string_forall] in H.
  repeat (apply andb_true_iff in H as [? H]).
  induction d; cbn [NilEmpty.string_of_uint string_forall];
    [reflexivity | apply andb_true_iff; split; assumption ..].
Qed.

Lemma String_of_nat_not_empty (n : nat) :
  exists c rest, String_of_nat n = String c rest.
Proof.
  unfold String_of_nat.
  assert (H : Nat.to_uint n <> Decimal.Nil).
  { rewrite <- (DecimalNat.Unsigned.of_to n) at 1.
    rewrite DecimalNat.Unsigned.to_of. apply DecimalFacts.unorm_nonnil. }
  destruct (Nat.to_uint n); [contradiction | cbn; eauto ..].
Qed.

Lemma dots_forall (p : ascii -> bool) (k : nat) :
  p "."%char = true -> string_forall p (dots k) = true.
Proof.
  intros H. induction k as [|k IH]; [reflexivity|].
  cbn [dots string_forall]. now rewrite H, IH.
Qed.

Lemma all_dots_dots (k : nat) : all_dots (dots k) = true.
Proof. induction k as [|k IH]; [reflexivity | exact IH]. Qed.

Lemma digits_then_dots_app (a : string) (k : nat) :
  string_forall is_digit a = true ->
  digits_then_dots (a +:+ String "." (dots k)) = true.
Proof.
  induction a as [|c a IH]; intros H.
  - rewrite append_nil_l. cbn [digits_then_dots].
    change (is_digit ".") with false. cbv beta iota.
    now rewrite Ascii.eqb_refl, all_dots_dots.
  - rewrite append_cons. cbn [digits_then_dots string_forall] in *.
    apply andb_true_iff in H as [Hc Ha]. rewrite Hc. now apply IH.
Qed.

(** A move number is recognised by the pattern. *)
Lemma move_number_recognised (n k : nat) :
  is_move_number (render_item (MoveNo n k)) = true.
Proof.
  cbn [render_item].
  pose proof (string_of_uint_forall is_digit (Nat.to_uint n) eq_refl) as Hd.
  fold (String_of_nat n) in Hd.
  destruct (String_of_nat_not_empty n) as (c & rest & E).
  rewrite E in *. rewrite append_cons. cbn [is_move_number string_forall] in *.
  apply andb_true_iff in Hd as [Hc Hrest].
  rewrite Hc. now apply digits_then_dots_app.
Qed.

Lemma move_number_plain (n k : nat) :
  string_forall is_plain_char (render_item (MoveNo n k)) = true.
Proof.
  cbn [render_item]. rewrite string_forall_app. apply andb_true_iff. split.
  - apply string_of_uint_forall. reflexivity.
  - apply (dots_forall is_plain_char (S k)). reflexivity.
Qed.

Lemma is_letter_plain (c : ascii) :
  is_letter c = true -> is_plain_char c = true /\ is_digit c = false.
Proof.
  unfold is_letter, is_plain_char, is_space, is_digit. cbn [contains].
  intros H.
  assert (Hc : 65 <= code c).
  { apply orb_true_iff in H as [H|H]; apply andb_true_iff in H as [H _];
      apply Nat.leb_le in H; lia. }
  assert (Hne : forall d, code d < 65 -> Ascii.eqb c d = false).
  { intros d Hd. apply Ascii.eqb_neq. intros ->. lia. }
  assert (Hne' : forall d, 122 < code d -> Ascii.eqb c d = false).
  { intros d Hd. apply Ascii.eqb_neq. intros ->.
    apply orb_true_iff in H as [H|H]; apply andb_true_iff in H as [_ H];
      apply Nat.leb_le in H; lia. }
  rewrite !(Ascii.eqb_sym _ c).
  rewrite (Hne "("%char), (Hne ")"%char) by (vm_compute; lia).
  rewrite (Hne' "{"%char), (Hne' "}"%char) by (vm_compute; lia).
  split.
  - apply andb_true_iff. split; [|reflexivity].
    apply negb_true_iff, orb_false_iff. split.
    + apply andb_false_iff. right. apply Nat.leb_gt. lia.
    + apply Nat.eqb_neq. lia.
  - apply andb_false_iff. right. apply Nat.leb_gt. lia.
Qed.

Lemma san_token_plain (t : string) :
  is_san_token t = true -> string_forall is_plain_char t = true.
Proof.
  destruct t as [|c rest]; [discriminate|].
  cbn [is_san_token string_forall]. intros H.
  apply andb_true_iff in H as [Hc Hrest].
  apply is_letter_plain in Hc as [Hc _]. now rewrite Hc, Hrest.
Qed.

(** A move is a token the filter keeps. *)
Lemma san_token_kept (t : string) :
  is_san_token t = true -> truthy_string t = true /\ keep_token t = true.
Proof.
  destruct t as [|c rest]; [discriminate|].
  cbn [is_san_token]. intros H. apply andb_true_iff in H as [Hc _].
  split; [reflexivity|].
  unfold keep_token, is_result_token. cbn [is_move_number].
  destruct (is_letter_plain c Hc) as [_ Hd]. rewrite Hd. cbn [andb negb].
  assert (Hne : forall d r, is_letter d = false ->
                            String.eqb (String c rest) (String d r) = false).
  { intros d r Hd'. apply eqb_neq. intros Heq.
    inversion Heq; subst. congruence. }
  rewrite !Hne by reflexivity. reflexivity.
Qed.

Lemma result_mark_cases (r : string) :
  is_result_mark r = true ->
  r = "1-0" \/ r = "0-1" \/ r = "1/2-1/2" \/ r = "*".
Proof.
  unfold is_result_mark. cbn [existsb]. intros H.
  repeat (apply orb_true_iff in H as [H|H];
          [apply String.eqb_eq in H; auto|]).
  discriminate.
Qed.

Lemma plain_free (c : ascii) (s : string) :
  is_plain_char c = false ->
  string_forall is_plain_char s = true -> contains c s = false.
Proof. apply string_forall_contains. Qed.

(** What is left of a well-formed item once the annotations are gone is
    made of plain characters. *)
Lemma without_annotation_plain (i : PgnItem) :
  item_ok i = true ->
  string_forall is_plain_char (without_annotation i) = true.
Proof.
  destruct i as [t|n k|r|m|m]; cbn [item_ok without_annotation render_item];
    intros H; try reflexivity.
  - now apply san_token_plain.
  - apply move_number_plain.
  - destruct (result_mark_cases r H) as [-> | [-> | [-> | ->]]]; reflexivity.
Qed.

Lemma item_pass_comments (i : PgnItem) :
  item_ok i = true ->
  (contains "{" (render_item i) = false /\ without_comment i = render_item i)
  \/ (exists m, render_item i = String "{" (m +:+ String "}" "")
                /\ contains "}" m = false /\ without_comment i = "").
Proof.
  intros H. pose proof (without_annotation_plain i H) as Hp.
  destruct i as [t|n k|r|m|m]; cbn [item_ok without_annotation
                                    without_comment render_item] in *.
  - left. split; [|reflexivity]. now apply plain_free.
  - left. split; [|reflexivity]. now apply plain_free.
  - left. split; [|reflexivity]. now apply plain_free.
  - right. exists m. split; [reflexivity|].
    split; [now apply negb_true_iff | reflexivity].
  - left. split; [|reflexivity].
    apply andb_true_iff in H as [_ H]. apply negb_true_iff in H.
    cbn [contains]. rewrite contains_app, H. reflexivity.
Qed.

Lemma item_pass_variations (i : PgnItem) :
  item_ok i = true ->
  (contains "(" (without_comment i) = false
   /\ without_annotation i = without_comment i)
  \/ (exists m, without_comment i = String "(" (m +:+ String ")" "")
                /\ contains ")" m = false /\ without_annotation i = "").
Proof.
  intros H. pose proof (without_annotation_plain i H) as Hp.
  destruct i as [t|n k|r|m|m]; cbn [item_ok without_annotation
                                    without_comment render_item] in *.
  - left. split; [|reflexivity]. now apply plain_free.
  - left. split; [|reflexivity]. now apply plain_free.
  - left. split; [|reflexivity]. now apply plain_free.
  - left. split; reflexivity.
  - right. exists m. split; [reflexivity|].
    apply andb_true_iff in H as [H _].
    split; [now apply negb_true_iff | reflexivity].
Qed.

(** The tokens of a well-formed text, annotations stripped, are what its
    items leave. *)
Lemma pgn_tokens_items (items : list PgnItem) :
  forallb item_ok items = true ->
  pgn_tokens (move_list_text items)
  = List.filter truthy_string (map without_annotation items).
Proof.
  intros H. rewrite forallb_forall in H.
  unfold pgn_tokens, move_list_text.
  rewrite (strip_join "{" "}" render_item without_comment); [|discriminate|].
  2:{ apply Forall_forall. intros i Hi.
      apply item_pass_comments, H, list_elem_of_In, Hi. }
  rewrite (strip_join "(" ")" without_comment without_annotation);
    [|discriminate|].
  2:{ apply Forall_forall. intros i Hi.
      apply item_pass_variations, H, list_elem_of_In, Hi. }
  apply tokens_join. apply Forall_forall. intros a Ha.
  apply list_elem_of_In, in_map_iff in Ha as (i & <- & Hi).
  apply (string_forall_impl is_plain_char).
  - intros c Hc. unfold is_plain_char in Hc.
    now apply andb_true_iff in Hc as [Hc _].
  - apply without_annotation_plain, H, Hi.
Qed.

(** The tokens the filter keeps are the moves. *)
Lemma kept_tokens_items (items : list PgnItem) :
  forallb item_ok items = true ->
  List.filter keep_token
    (List.filter truthy_string (map without_annotation items))
  = sans_of items.
Proof.
  induction items as [|i items IH]; [reflexivity|].
  cbn [forallb]. intros H. apply andb_true_iff in H as [Hi Hrest].
  specialize (IH Hrest). unfold sans_of in *.
  cbn [map List.filter omap].
  destruct i as [t|n k|r|m|m]; cbn [item_ok without_annotation] in *.
  - destruct (san_token_kept t Hi) as [Ht Hk].
    cbn [render_item]. rewrite Ht. cbn [List.filter]. rewrite Hk.
    cbn. now f_equal.
  - pose proof (move_number_recognised n k) as Hm.
    assert (Ht : truthy_string (render_item (MoveNo n k)) = true).
    { destruct (render_item (MoveNo n k)); [discriminate Hm | reflexivity]. }
    rewrite Ht. cbn [List.filter]. unfold keep_token at 1. rewrite Hm.
    cbn. exact IH.
  - destruct (result_mark_cases r Hi) as [-> | [-> | [-> | ->]]]; exact IH.
  - exact IH.
  - exact IH.
Qed.

(** ** Pairing *)

Lemma pair_rows_spec (moves : list string) :
  forall n,
    length (pair_rows n moves) = (length moves + 1) / 2
    /\ map moveNumber (pair_rows n moves) = seq n ((length moves + 1) / 2)
    /\ (Nat.odd (length moves) = true ->
        exists r, last (pair_rows n moves) = Some r /\ black r = ""
                  /\ Some (white r) = last moves).
Proof.
  induction moves as [moves IH] using (induction_ltof1 _ (@length string)).
  unfold ltof in IH. intros n.
  destruct moves as [|w [|b rest]].
  - repeat split; try reflexivity. discriminate.
  - repeat split; try reflexivity. intros _. now exists (mkRow n w "").
  - destruct (IH rest ltac:(simpl; lia) (S n)) as (H1 & H2 & H3).
    cbn [pair_rows length].
    replace (S (S (length rest)) + 1) with (length rest + 1 + 1 * 2) by lia.
    rewrite Nat.div_add by lia.
    replace ((length rest + 1) / 2 + 1) with (S ((length rest + 1) / 2)) by lia.
    cbn [map seq moveNumber length]. rewrite H1, H2.
    repeat split; try reflexivity.
    rewrite Nat.odd_succ, Nat.even_succ. intros Hodd.
    destruct (H3 Hodd) as (r & Hr & Hb & Hw).
    exists r. split; [|split; [exact Hb|]].
    + rewrite last_cons, Hr. reflexivity.
    + rewrite !last_cons. rewrite <- Hw.
      destruct (last rest); [|discriminate]. reflexivity.
Qed.

(** The loop of parsePgnMoves pairs the moves as the specification
    says. *)
Lemma pair_rows_paired (moves : list string) :
  forall n,
    pair_rows n moves
    = map (fun i => mkRow (n + i) (nth (2 * i) moves "")
                      (nth (2 * i + 1) moves ""))
        (seq 0 ((length moves + 1) / 2)).
Proof.
  induction moves as [moves IH] using (induction_ltof1 _ (@length string)).
  unfold ltof in IH. intros n.
  destruct moves as [|w [|b rest]].
  - reflexivity.
  - cbn. now rewrite Nat.add_0_r.
  - cbn [pair_rows length].
    replace (S (S (length rest)) + 1) with (length rest + 1 + 1 * 2) by lia.
    rewrite Nat.div_add by lia.
    replace ((length rest + 1) / 2 + 1) with (S ((length rest + 1) / 2)) by lia.
    cbn [seq map]. rewrite Nat.add_0_r.
    change (nth (2 * 0) (w :: b :: rest) "") with w.
    change (nth (2 * 0 + 1) (w :: b :: rest) "") with b.
    f_equal.
    rewrite (IH rest ltac:(simpl; lia) (S n)), <- seq_shift, map_map.
    apply map_ext. intros i.
    replace (2 * S i) with (S (S (2 * i))) by lia.
    replace (S (S (2 * i)) + 1) with (S (S (2 * i + 1))) by lia.
    cbn [nth]. f_equal. lia.
Qed.

Lemma sans_of_numbered_pairs (sans : list string) :
  forall n, sans_of (numbered_pairs n sans) = sans.
Proof.
  induction sans as [sans IH] using (induction_ltof1 _ (@length string)).
  unfold ltof in IH. intros n.
  destruct sans as [|w [|b rest]]; try reflexivity.
  cbn [numbered_pairs]. unfold sans_of in *. cbn [omap].
  cbn. do 2 f_equal. apply IH. simpl. lia.
Qed.

Lemma numbered_pairs_ok (sans : list string) :
  forallb is_san_token sans = true ->
  forall n, forallb item_ok (numbered_pairs n sans) = true.
Proof.
  induction sans as [sans IH] using (induction_ltof1 _ (@length string)).
  unfold ltof in IH. intros H n.
  destruct sans as [|w [|b rest]]; [reflexivity|..].
  - cbn [forallb] in *. cbn [numbered_pairs forallb item_ok].
    apply andb_true_iff in H as [Hw _]. now rewrite Hw.
  - cbn [forallb] in H.
    apply andb_true_iff in H as [Hw H]. apply andb_true_iff in H as [Hb H].
    cbn [numbered_pairs forallb item_ok]. rewrite Hw, Hb. cbn [andb].
    apply IH; [simpl; lia | exact H].
Qed.

Lemma parsePgnMoves_items (items : list PgnItem) :
  forallb item_ok items = true ->
  parsePgnMoves (move_list_text items) = pair_rows 1 (sans_of items).
Proof.
  intros Hok. unfold parsePgnMoves.
  now rewrite pgn_tokens_items, kept_tokens_items.
Qed.

(** Numbered move pairs, the text the simulator builds: as many rows as
    pairs, begun pairs counted. *)
Lemma parsePgnMoves_numbered_pairs (sans : list string) :
  forallb is_san_token sans = true ->
  parsePgnMoves (move_list_text (numbered_pairs 1 sans)) = pair_rows 1 sans
  /\ length (parsePgnMoves (move_list_text (numbered_pairs 1 sans)))
     = (length sans + 1) / 2.
Proof.
  intros H.
  rewrite parsePgnMoves_items by now apply numbered_pairs_ok.
  rewrite sans_of_numbered_pairs.
  split; [reflexivity | apply pair_rows_spec].
Qed.

(** C9.  For every move-list text made of well-formed items (moves, move
    numbers of digits followed by one or more dots, the results 1-0,
    0-1, 1/2-1/2 and *, comments in braces, variations in parentheses),
    parsePgnMoves strips the comments and the variations, discards the
    move numbers and the results, and pairs the moves two by two, in
    order, into rows numbered 1, 2, ...: the row numbered i + 1 holds
    the move at position 2i as white and the move at position 2i + 1 as
    black.  With moveCount moves there are exactly ceil(moveCount / 2)
    rows, and when moveCount is odd the last row holds the last move as
    white and has its black slot empty. *)
Theorem parsePgnMoves_well_formed (items : list PgnItem) :
  forallb item_ok items = true ->
  parsePgnMoves (move_list_text items) = paired_rows (sans_of items)
  /\ length (parsePgnMoves (move_list_text items))
     = (length (sans_of items) + 1) / 2
  /\ map moveNumber (parsePgnMoves (move_list_text items))
     = seq 1 (length (parsePgnMoves (move_list_text items)))
  /\ (Nat.odd (length (sans_of items)) = true ->
      exists r, last (parsePgnMoves (move_list_text items)) = Some r
                /\ black r = ""
                /\ Some (white r) = last (sans_of items)).
Proof.
  intros Hok. rewrite (parsePgnMoves_items items Hok).
  destruct (pair_rows_spec (sans_of items) 1) as (H1 & H2 & H3).
  split; [apply (pair_rows_paired (sans_of items) 1)|].
  repeat split; auto. now rewrite H2, H1.
Qed.

Lemma parsePgnMoves_well_formed_witness :
  let items := [ MoveNo 1 0; San "e4"; Comment "best (by test)"; San "c5";
                 Variation "1... e5 2. Nf3"; MoveNo 2 0; San "Nf3";
                 ResultMark "1-0" ] in
  forallb item_ok items = true
  /\ move_list_text items
     = "1. e4 {best (by test)} c5 (1... e5 2. Nf3) 2. Nf3 1-0"
  /\ paired_rows (sans_of items) = [mkRow 1 "e4" "c5"; mkRow 2 "Nf3" ""]
  /\ parsePgnMoves "1. e4 {best (by test)} c5 (1... e5 2. Nf3) 2. Nf3 1-0"
     = [mkRow 1 "e4" "c5"; mkRow 2 "Nf3" ""]
  /\ parsePgnMoves (move_list_text items) = paired_rows (sans_of items)
  /\ length (parsePgnMoves (move_list_text items))
     = (length (sans_of items) + 1) / 2
  /\ map moveNumber (parsePgnMoves (move_list_text items))
     = seq 1 (length (parsePgnMoves (move_list_text items)))
  /\ (Nat.odd (length (sans_of items)) = true ->
      exists r, last (parsePgnMoves (move_list_text items)) = Some r
                /\ black r = ""
                /\ Some (white r) = last (sans_of items)).
Proof.
  intros items. split; [reflexivity|]. split; [reflexivity|].
  split; [reflexivity|]. split; [vm_compute; reflexivity|].
  apply (parsePgnMoves_well_formed items). reflexivity.
Defined.

(* ================================================================== *)
(** * Board projector *)
(* ================================================================== *)

(** ** Squares *)

Lemma contains_In (c : ascii) (s : string) :
  contains c s = true -> In c (list_ascii_of_string s).
Proof.
  induction s as [|d s IH]; [discriminate|].
  cbn [contains list_ascii_of_string In]. intros H.
  apply orb_true_iff in H as [H|H]; [left; now apply Ascii.eqb_eq | auto].
Qed.

(** Case analysis on a character known to occur in a literal. *)
Ltac split_contains H :=
  apply contains_In in H; cbn [list_ascii_of_string In] in H;
  repeat (destruct H as [<-|H]; [|]); [.. | contradiction H].

(** On a square name, squareToCoords gives the row and column of the
    specification's convention, both inside the board. *)
Lemma squareToCoords_square (sq : string) :
  is_square sq = true ->
  exists r c, square_index sq = Some (r, c) /\ r < 8 /\ c < 8
              /\ squareToCoords sq = mkCoords (Some (Z.of_nat r)) (Z.of_nat c).
Proof.
  destruct sq as [|f [|k [|x rest]]]; try discriminate.
  intros H. unfold square_index. rewrite H.
  cbn [is_square] in H. apply andb_true_iff in H as [Hf Hk].
  split_contains Hf; split_contains Hk;
    (eexists _, _; split; [reflexivity|];
     split; [vm_compute; lia|]; split; [vm_compute; lia | reflexivity]).
Qed.

(** Square names with the same row and column are the same name. *)
Lemma square_index_inj (sq sq' : string) :
  is_square sq = true -> is_square sq' = true ->
  square_index sq = square_index sq' -> sq = sq'.
Proof.
  destruct sq as [|f [|k [|x rest]]]; try discriminate.
  destruct sq' as [|f' [|k' [|x' rest']]]; try discriminate.
  intros H H'. unfold square_index. rewrite H, H'.
  cbn [is_square] in H, H'.
  apply andb_true_iff in H as [Hf Hk]. apply andb_true_iff in H' as [Hf' Hk'].
  intros E.
  assert (Ef : f = f').
  { split_contains Hf; split_contains Hf'; first [reflexivity | discriminate E]. }
  assert (Ek : k = k').
  { split_contains Hk; split_contains Hk'; first [reflexivity | discriminate E]. }
  now subst.
Qed.

(** ** Reading and writing cells *)

Lemma write_board_8x8 (b : Board) (r c : nat) (v : Square) :
  board_8x8 b -> r < 8 -> c < 8 ->
  board_8x8 (write_board b r (Z.of_nat c) v).
Proof.
  intros [Hlen Hrows] Hr Hc. unfold write_board.
  destruct (b !! r) as [rank|] eqn:E; [|now split].
  split; [now rewrite length_insert|].
  apply Forall_insert; [exact Hrows|].
  assert (Hrank : length rank = 8).
  { rewrite Forall_forall in Hrows. eapply Hrows, list_elem_of_lookup_2, E. }
  unfold write_cell. rewrite Nat2Z.id.
  destruct (Z.ltb_spec (Z.of_nat c) 0); [lia|].
  destruct (Nat.ltb_spec c (length rank)); [|lia].
  now rewrite length_insert.
Qed.

Lemma cell_write_board (b : Board) (r c : nat) (v : Square) (r' c' : nat) :
  board_8x8 b -> r < 8 -> c < 8 ->
  cell (write_board b r (Z.of_nat c) v) r' c'
  = if decide (r' = r /\ c' = c) then v else cell b r' c'.
Proof.
  intros [Hlen Hrows] Hr Hc. unfold write_board, cell.
  destruct (b !! r) as [rank|] eqn:E.
  2:{ apply lookup_ge_None in E. lia. }
  assert (Hrank : length rank = 8).
  { rewrite Forall_forall in Hrows. eapply Hrows, list_elem_of_lookup_2, E. }
  unfold write_cell. rewrite Nat2Z.id.
  destruct (Z.ltb_spec (Z.of_nat c) 0); [lia|].
  destruct (Nat.ltb_spec c (length rank)); [|lia].
  destruct (decide (r' = r)) as [->|Hne].
  - rewrite list_lookup_insert_eq by lia.
    destruct (decide (c' = c)) as [->|Hne'].
    + rewrite list_lookup_insert_eq by lia.
      destruct (decide _) as [_|n]; [reflexivity | exfalso; auto].
    + rewrite list_lookup_insert_ne by auto. rewrite E.
      destruct (decide _) as [[_ ?]|_]; [contradiction | reflexivity].
  - rewrite list_lookup_insert_ne by auto.
    destruct (decide _) as [[? _]|_]; [contradiction | reflexivity].
Qed.

Lemma row_at_8x8 (b : Board) (r : nat) :
  board_8x8 b -> r < 8 ->
  exists rank, row_at b (Some (Z.of_nat r)) = Some rank
               /\ b !! r = Some rank
               /\ forall c, cell_at rank (Z.of_nat c) = cell b r c.
Proof.
  intros [Hlen _] Hr.
  destruct (lookup_lt_is_Some_2 b r ltac:(lia)) as [rank E].
  exists rank. unfold row_at, cell_at, cell.
  destruct (Z.leb_spec 0 (Z.of_nat r)); [|lia].
  rewrite Nat2Z.id, E. repeat split.
  intros c. destruct (Z.leb_spec 0 (Z.of_nat c)); [|lia].
  now rewrite Nat2Z.id.
Qed.

(** ** The move code *)

(** The parts of a move code, as applyUciMove cuts them. *)
Lemma is_uci_parts (uci : string) :
  is_uci uci = true ->
  is_square (slice 0 2 uci) = true
  /\ is_square (slice 2 4 uci) = true
  /\ (if (4 <? String.length uci)%nat then char_at 4 uci else None)
     = uci_promotion uci.
Proof.
  unfold is_uci, uci_from, uci_to, uci_promotion. intros H.
  apply andb_true_iff in H as [H Hto]. apply andb_true_iff in H as [Hlen Hfrom].
  repeat split; try assumption.
  destruct uci as [|c1 [|c2 [|c3 [|c4 [|c5 [|c6 rest]]]]]];
    try discriminate Hlen; reflexivity.
Qed.

(** The code's castling guards pick the rook move of the specification's
    table, in coordinates. *)
Lemma castling_rook_table (piece from to : string) :
  match castling_rook piece from to, castling_of piece from to with
  | Some (r, src, dst), Some (rook_from, rook_to) =>
      square_index rook_from = Some (r, Z.to_nat src)
      /\ square_index rook_to = Some (r, Z.to_nat dst)
      /\ src = Z.of_nat (Z.to_nat src) /\ dst = Z.of_nat (Z.to_nat dst)
      /\ is_square rook_from = true /\ is_square rook_to = true
      /\ rook_from <> from /\ rook_to <> from
      /\ rook_from <> to /\ rook_to <> to /\ rook_from <> rook_to
  | None, None => True
  | _, _ => False
  end.
Proof.
  unfold castling_rook, castling_of, castling_moves. cbn [List.find].
  repeat match goal with
         | |- context [String.eqb ?a ?b] =>
             destruct (String.eqb_spec a b); subst; cbn [andb option_map snd]
         end;
    try exact I;
    repeat split; try reflexivity; try discriminate.
Qed.

Lemma is_8x8_iff (b : Board) : is_8x8 b = true <-> board_8x8 b.
Proof.
  split; [apply is_8x8_inv|].
  intros [Hlen Hrows]. unfold is_8x8. apply andb_true_iff. split.
  - now apply Nat.eqb_eq.
  - apply forallb_forall. intros r Hr. apply Nat.eqb_eq.
    rewrite Forall_forall in Hrows. apply Hrows, list_elem_of_In, Hr.
Qed.

Lemma put_8x8 (b : Board) (sq : string) (v : Square) :
  board_8x8 b -> is_square sq = true -> board_8x8 (put b sq v).
Proof.
  intros Hb Hsq. unfold put.
  destruct (squareToCoords_square sq Hsq) as (r & c & -> & Hr & Hc & _).
  now apply write_board_8x8.
Qed.

(** Reading a named square after a write to a named square. *)
Lemma piece_at_put (b : Board) (sq0 sq : string) (v : Square) :
  board_8x8 b -> is_square sq0 = true -> is_square sq = true ->
  piece_at (put b sq0 v) sq = if String.eqb sq sq0 then v else piece_at b sq.
Proof.
  intros Hb H0 H. unfold put, piece_at.
  destruct (squareToCoords_square sq0 H0) as (r0 & c0 & E0 & Hr0 & Hc0 & _).
  destruct (squareToCoords_square sq H) as (r & c & E & Hr & Hc & _).
  rewrite E0, E. rewrite cell_write_board by assumption.
  destruct (String.eqb_spec sq sq0) as [->|Hne].
  - rewrite E in E0. injection E0 as -> ->.
    destruct (decide _) as [_|n]; [reflexivity | exfalso; auto].
  - destruct (decide _) as [[-> ->]|_]; [|reflexivity].
    exfalso. apply Hne. apply square_index_inj; congruence.
Qed.

(** On an 8x8 board, for a move code whose from square is occupied, the
    call completes normally, and what it does to the board is three
    writes to named squares, with the rook's two writes in between for a
    castling king. *)
Lemma applyUciMove_writes (b : Board) (uci piece : string) :
  board_8x8 b ->
  is_uci uci = true ->
  piece_at b (uci_from uci) = Some piece ->
  truthy_string piece = true ->
  applyUciMove b uci
  = (put (match castling_of piece (uci_from uci) (uci_to uci) with
          | Some (rook_from, rook_to) =>
              put (put (put b (uci_from uci) None) rook_to
                     (piece_at (put b (uci_from uci) None) rook_from))
                rook_from None
          | None => put b (uci_from uci) None
          end)
       (uci_to uci) (Some (placed_piece piece (uci_promotion uci))),
     Normal ()).
Proof.
  intros Hb Huci Hpiece Htruthy.
  destruct (is_uci_parts uci Huci) as (Hfrom & Hto & Hpromo).
  unfold applyUciMove. rewrite Hpromo.
  fold (uci_from uci) (uci_to uci) in *.
  destruct (squareToCoords_square _ Hfrom) as (fr & fc & Ef & Hfr & Hfc & ->).
  destruct (squareToCoords_square _ Hto) as (tr & tc & Et & Htr & Htc & ->).
  cbn [row col default].
  destruct (row_at_8x8 b fr Hb Hfr) as (rank & -> & _ & Hcell).
  rewrite Hcell.
  assert (Hp : cell b fr fc = Some piece).
  { unfold piece_at in Hpiece. now rewrite Ef in Hpiece. }
  rewrite Hp, Htruthy. cbn [negb]. unfold id. rewrite !Nat2Z.id.
  assert (E1 : write_board b fr (Z.of_nat fc) None = put b (uci_from uci) None).
  { unfold put. now rewrite Ef. }
  rewrite E1.
  assert (Hb1 : board_8x8 (put b (uci_from uci) None)) by now apply put_8x8.
  set (b1 := put b (uci_from uci) None) in *.
  assert (Hlast : forall b2, board_8x8 b2 ->
            match row_at b2 (Some (Z.of_nat tr)) with
            | Some _ =>
                (write_board b2 tr (Z.of_nat tc)
                   (Some (moved_piece piece (uci_promotion uci))), Normal ())
            | None => (b2, Throw TypeError)
            end
            = (put b2 (uci_to uci)
                 (Some (placed_piece piece (uci_promotion uci))), Normal ())).
  { intros b2 Hb2.
    destruct (row_at_8x8 b2 tr Hb2 Htr) as (rank2 & -> & _).
    unfold put. now rewrite Et. }
  pose proof (castling_rook_table piece (uci_from uci) (uci_to uci)) as Hc.
  destruct (castling_rook piece (uci_from uci) (uci_to uci))
    as [[[rr src] dst]|];
    destruct (castling_of piece (uci_from uci) (uci_to uci))
    as [[rook_from rook_to]|]; try contradiction.
  - destruct Hc as (Erf & Ert & Esrc & Edst & Hrf & Hrt & _).
    destruct (squareToCoords_square _ Hrf) as (r1 & c1 & Erf' & Hr1 & Hc1 & _).
    destruct (squareToCoords_square _ Hrt) as (r2 & c2 & Ert' & Hr2 & Hc2 & _).
    rewrite Erf in Erf'. injection Erf' as <- <-.
    rewrite Ert in Ert'. injection Ert' as _ <-.
    unfold move_rook.
    destruct (row_at_8x8 b1 rr Hb1 Hr1) as (rank1 & _ & -> & Hcell1).
    rewrite Esrc, Edst, Hcell1.
    replace (write_board b1 rr (Z.of_nat (Z.to_nat dst))
               (cell b1 rr (Z.to_nat src)))
      with (put b1 rook_to (piece_at b1 rook_from))
      by (unfold put, piece_at; now rewrite Ert, Erf).
    replace (write_board (put b1 rook_to (piece_at b1 rook_from)) rr
               (Z.of_nat (Z.to_nat src)) None)
      with (put (put b1 rook_to (piece_at b1 rook_from)) rook_from None)
      by (unfold put at 1; now rewrite Erf).
    apply Hlast. now repeat apply put_8x8.
  - now apply Hlast.
Qed.

Lemma castling_of_squares (piece from to rook_from rook_to : string) :
  castling_of piece from to = Some (rook_from, rook_to) ->
  is_square rook_from = true /\ is_square rook_to = true
  /\ rook_from <> from /\ rook_to <> from /\ rook_from <> rook_to
  /\ (piece = "K" \/ piece = "k").
Proof.
  unfold castling_of, castling_moves. cbn [List.find].
  repeat match goal with
         | |- context [String.eqb ?a ?b] =>
             destruct (String.eqb_spec a b); subst; cbn [andb option_map snd]
         end;
    intros E; inversion E; subst;
    repeat split; try reflexivity; try discriminate; auto.
Qed.

(** C5, as stated, fails at two inputs.  With a queen on e1 and a rook
    on h1, the code [e1g1] is one of the four castling codes and its
    from square is occupied; applyUciMove moves the queen to g1 and
    leaves the rook on h1 (f1 stays empty), because the code moves the
    rook only when the moved piece is the king.  With the code [e2e2] on
    the initial board, whose from and to squares are the same, the from
    square is not cleared: the pawn stands on it after the call. *)
Lemma applyUciMove_claim_fails :
  (let b := [ [Some "r"; Some "n"; Some "b"; Some "q"; Some "k"; Some "b"; Some "n"; Some "r"];
              [Some "p"; Some "p"; Some "p"; Some "p"; Some "p"; Some "p"; Some "p"; Some "p"];
              [None; None; None; None; None; None; None; None];
              [None; None; None; None; None; None; None; None];
              [None; None; None; None; None; None; None; None];
              [None; None; None; None; None; None; None; None];
              [Some "P"; Some "P"; Some "P"; Some "P"; Some "P"; Some "P"; Some "P"; Some "P"];
              [Some "R"; Some "N"; Some "B"; None; Some "Q"; None; None; Some "R"] ] in
   is_8x8 b = true /\ is_uci "e1g1" = true /\ piece_at b "e1" = Some "Q"
   /\ exists b', applyUciMove b "e1g1" = (b', Normal ())
                 /\ piece_at b' "g1" = Some "Q"
                 /\ piece_at b' "h1" = Some "R"
                 /\ piece_at b' "f1" = None)
  /\ (is_uci "e2e2" = true /\ piece_at createStartBoard "e2" = Some "P"
      /\ exists b', applyUciMove createStartBoard "e2e2" = (b', Normal ())
                    /\ piece_at b' "e2" = Some "P").
Proof.
  split.
  - intros b. repeat split. eexists. repeat split; reflexivity.
  - repeat split. eexists. repeat split; reflexivity.
Qed.

(** C5, amended.  For every 8x8 grid and every 4-or-5-character UCI
    code whose from square is occupied, applyUciMove completes normally
    and leaves an 8x8 grid in which: the to square holds the moved
    piece, or, when a 5th character is present, that letter in upper
    case if the moved piece is in upper case and in lower case
    otherwise; the from square, when it differs from the to square, is
    empty; when the moved piece is the king [K] and the code is e1g1 or
    e1c1, or the moved piece is the king [k] and the code is e8g8 or
    e8c8, the content of the corresponding corner square (h1, a1, h8,
    a8) is moved to f1, d1, f8, d8 in the same call; and every other
    square is unchanged. *)
Theorem applyUciMove_projects (b : Board) (uci piece : string) :
  is_8x8 b = true ->
  is_uci uci = true ->
  piece_at b (uci_from uci) = Some piece ->
  truthy_string piece = true ->
  exists b',
    applyUciMove b uci = (b', Normal ())
    /\ is_8x8 b' = true
    /\ forall sq, is_square sq = true ->
         piece_at b' sq
         = projected b (uci_from uci) (uci_to uci)
             (placed_piece piece (uci_promotion uci))
             (castling_of piece (uci_from uci) (uci_to uci)) sq.
Proof.
  intros H8 Huci Hpiece Htruthy. apply is_8x8_iff in H8.
  rewrite (applyUciMove_writes b uci piece H8 Huci Hpiece Htruthy).
  destruct (is_uci_parts uci Huci) as (Hfrom & Hto & _).
  fold (uci_from uci) (uci_to uci) in *.
  set (from := uci_from uci) in *. set (to := uci_to uci) in *.
  eexists. split; [reflexivity|].
  destruct (castling_of piece from to) as [[rook_from rook_to]|] eqn:Ec.
  - destruct (castling_of_squares _ _ _ _ _ Ec) as (Hrf & Hrt & N1 & N2 & N3 & _).
    assert (H1 : board_8x8 (put b from None)) by now apply put_8x8.
    assert (H2 : board_8x8 (put (put b from None) rook_to
                              (piece_at (put b from None) rook_from)))
      by now apply put_8x8.
    assert (H3 : board_8x8 (put (put (put b from None) rook_to
                                   (piece_at (put b from None) rook_from))
                              rook_from None))
      by now apply put_8x8.
    split; [now apply is_8x8_iff, put_8x8|].
    intros sq Hsq. unfold projected.
    rewrite !piece_at_put by assumption.
    destruct (String.eqb_spec sq to); [reflexivity|].
    destruct (String.eqb_spec sq from) as [Ef|Nf];
      destruct (String.eqb_spec sq rook_to) as [Et|Nrt];
      destruct (String.eqb_spec sq rook_from) as [Er|Nr];
      try (exfalso; congruence); try reflexivity.
    destruct (String.eqb_spec rook_from from); [contradiction | reflexivity].
  - assert (H1 : board_8x8 (put b from None)) by now apply put_8x8.
    split; [now apply is_8x8_iff, put_8x8|].
    intros sq Hsq. unfold projected.
    now rewrite !piece_at_put by assumption.
Qed.

Lemma applyUciMove_projects_witness :
  is_8x8 createStartBoard = true
  /\ is_uci "e2e4" = true
  /\ piece_at createStartBoard (uci_from "e2e4") = Some "P"
  /\ truthy_string "P" = true
  /\ exists b',
       applyUciMove createStartBoard "e2e4" = (b', Normal ())
       /\ is_8x8 b' = true
       /\ forall sq, is_square sq = true ->
            piece_at b' sq
            = projected createStartBoard (uci_from "e2e4") (uci_to "e2e4")
                (placed_piece "P" (uci_promotion "e2e4"))
                (castling_of "P" (uci_from "e2e4") (uci_to "e2e4")) sq.
Proof.
  do 4 (split; [reflexivity|]).
  apply (applyUciMove_projects createStartBoard "e2e4" "P"); reflexivity.
Defined.

(** ** The specification's examples *)

(** [e2e4] on the initial grid: the pawn of e2 stands on e4, e2 is
    empty, nothing else has changed. *)
Example applyUciMove_e2e4 :
  applyUciMove createStartBoard "e2e4"
  = (<[4 := [None; None; None; None; Some "P"; None; None; None]]>
       (<[6 := [Some "P"; Some "P"; Some "P"; Some "P"; None;
                Some "P"; Some "P"; Some "P"]]> createStartBoard),
     Normal ()).
Proof. reflexivity. Qed.

(** Castling: with the white king on e1 and a rook on h1, [e1g1] puts
    the king on g1 and the rook on f1 in the one call. *)
Example applyUciMove_castles_short :
  applyUciMove
    (<[7 := [Some "R"; None; None; None; Some "K"; None; None; Some "R"]]>
       createStartBoard) "e1g1"
  = (<[7 := [Some "R"; None; None; None; None; Some "R"; Some "K"; None]]>
       createStartBoard,
     Normal ()).
Proof. reflexivity. Qed.

(** Promotion: [a7a8q] with an upper-case pawn on a7 leaves a7 empty and
    an upper-case [Q] on a8. *)
Example applyUciMove_promotes :
  applyUciMove
    [ [None; None; None; None; Some "k"; None; None; None];
      [Some "P"; None; None; None; None; None; None; None];
      replicate 8 None; replicate 8 None; replicate 8 None;
      replicate 8 None; replicate 8 None;
      [None; None; None; None; Some "K"; None; None; None] ] "a7a8q"
  = ([ [Some "Q"; None; None; None; Some "k"; None; None; None];
       replicate 8 None;
       replicate 8 None; replicate 8 None; replicate 8 None;
       replicate 8 None; replicate 8 None;
       [None; None; None; None; Some "K"; None; None; None] ],
     Normal ()).
Proof. reflexivity. Qed.

(* ================================================================== *)
(** * Match simulator *)
(* ================================================================== *)

(** On an 8x8 board a well-formed move code never makes applyUciMove
    throw, and the board stays 8x8. *)
Lemma applyUciMove_normal (b : Board) (uci : string) :
  board_8x8 b -> is_uci uci = true ->
  exists b', applyUciMove b uci = (b', Normal ()) /\ board_8x8 b'.
Proof.
  intros Hb Huci.
  destruct (piece_at b (uci_from uci)) as [piece|] eqn:Hp.
  2:{ exists b. split; [|exact Hb].
      destruct (is_uci_parts uci Huci) as (Hfrom & _ & _).
      unfold applyUciMove. fold (uci_from uci) in *.
      destruct (squareToCoords_square _ Hfrom) as (fr & fc & Ef & Hfr & Hfc & ->).
      cbn [row col].
      destruct (row_at_8x8 b fr Hb Hfr) as (rank & -> & _ & Hcell).
      rewrite Hcell. unfold piece_at in Hp. rewrite Ef in Hp. now rewrite Hp. }
  destruct (truthy_string piece) eqn:Ht.
  - rewrite (applyUciMove_writes b uci piece Hb Huci Hp Ht).
    eexists. split; [reflexivity|].
    destruct (is_uci_parts uci Huci) as (Hfrom & Hto & _).
    fold (uci_from uci) (uci_to uci) in *.
    apply put_8x8; [|exact Hto].
    destruct (castling_of piece (uci_from uci) (uci_to uci))
      as [[rook_from rook_to]|] eqn:Ec.
    + destruct (castling_of_squares _ _ _ _ _ Ec) as (Hrf & Hrt & _).
      now repeat apply put_8x8.
    + now apply put_8x8.
  - exists b. split; [|exact Hb].
    destruct (is_uci_parts uci Huci) as (Hfrom & _ & _).
    unfold applyUciMove. fold (uci_from uci) in *.
    destruct (squareToCoords_square _ Hfrom) as (fr & fc & Ef & Hfr & Hfc & ->).
    cbn [row col].
    destruct (row_at_8x8 b fr Hb Hfr) as (rank & -> & _ & Hcell).
    rewrite Hcell. unfold piece_at in Hp. rewrite Ef in Hp.
    now rewrite Hp, Ht.
Qed.

Lemma mockMoves_uci (k : nat) (uci san : string) :
  mockMoves !! k = Some (uci, san) -> is_uci uci = true.
Proof.
  intros H.
  assert (Hall : forallb (fun m => is_uci (fst m)) mockMoves = true)
    by reflexivity.
  rewrite forallb_forall in Hall.
  apply (Hall (uci, san)), list_elem_of_In, list_elem_of_lookup_2 with k, H.
Qed.

Lemma sim_run_cons (s : Sim) (t : Tick) (rest : list Tick) :
  sim_run s (t :: rest)
  = (fst (sim_run (fst (sim_step s t)) rest),
     snd (sim_step s t) ++ snd (sim_run (fst (sim_step s t)) rest)).
Proof.
  cbn [sim_run]. destruct (sim_step s t) as [s1 out1]. cbn [fst snd].
  now destruct (sim_run s1 rest) as [s2 out2].
Qed.

(** A closed instance emits nothing, whatever comes. *)
Lemma sim_dead_run (s : Sim) (schedule : list Tick) :
  sim_dead s ->
  snd (sim_run s schedule) = [] /\ sim_dead (fst (sim_run s schedule)).
Proof.
  revert s. induction schedule as [|t rest IH]; intros s Hd; [now split|].
  rewrite sim_run_cons. cbn [fst snd].
  destruct Hd as (Hc & Hct & Hmt).
  assert (E : snd (sim_step s t) = [] /\ sim_dead (fst (sim_step s t))).
  { destruct t; cbn [sim_step]; rewrite ?Hct, ?Hmt;
      repeat split; assumption || reflexivity. }
  destruct E as [E1 E2]. rewrite E1. now apply IH.
Qed.

(** The three steps of a running instance. *)
Lemma sim_live_clock (s : Sim) (k : nat) :
  sim_live s k ->
  sim_step s ClockTimerFires
  = (mkSim (moveIndex s) (Z.max 0 (Number_sub (whiteMs s) 200))
       (Z.max 0 (Number_sub (blackMs s) 200)) (closed s) (sideToMove s) (board s)
       (pgnMoves s) (clockTimer s) (moveTimer s),
     [OnClock (Z.max 0 (Number_sub (whiteMs s) 200)) (Z.max 0 (Number_sub (blackMs s) 200))])
  /\ sim_live (fst (sim_step s ClockTimerFires)) k.
Proof.
  intros (Hc & Hct & Hmt & Hk & Hle & Hb).
  cbn [sim_step]. unfold clock_callback. rewrite Hct, Hc.
  split; [reflexivity|]. repeat split; cbn; first [assumption | apply Hb].
Qed.

Lemma sim_live_move (s : Sim) (k : nat) (uci san : string) :
  sim_live s k -> mockMoves !! k = Some (uci, san) ->
  exists fen pgn,
    snd (sim_step s MoveTimerFires) = [OnMove (S k) uci san fen pgn]
    /\ sim_live (fst (sim_step s MoveTimerFires)) (S k).
Proof.
  intros (Hc & Hct & Hmt & Hk & Hle & Hb) Hm.
  cbn [sim_step]. unfold move_callback. rewrite Hmt, Hc, Hk, Hm.
  destruct (applyUciMove_normal (board s) uci Hb (mockMoves_uci k uci san Hm))
    as (b' & -> & Hb').
  cbn [fst snd]. rewrite Nat.add_1_r.
  eexists _, _. split; [reflexivity|].
  apply lookup_lt_Some in Hm. cbn in Hm.
  repeat split; cbn; first [assumption | lia | apply Hb'].
Qed.

Lemma sim_live_result (s : Sim) :
  sim_live s 20 ->
  snd (sim_step s MoveTimerFires) = [OnResult "1-0" "checkmate"]
  /\ sim_dead (fst (sim_step s MoveTimerFires)).
Proof.
  intros (Hc & Hct & Hmt & Hk & Hle & Hb).
  cbn [sim_step]. unfold move_callback. rewrite Hmt, Hc, Hk.
  split; [reflexivity | repeat split; cbn; assumption].
Qed.

Lemma count_results_app (a b : list StreamEvent) :
  count_results (a ++ b) = count_results a + count_results b.
Proof. unfold count_results. now rewrite List.filter_app, length_app. Qed.

Lemma move_codes_app (a b : list StreamEvent) :
  move_codes (a ++ b) = move_codes a ++ move_codes b.
Proof. apply omap_app. Qed.

Lemma script_codes_drop (k : nat) (uci san : string) :
  mockMoves !! k = Some (uci, san) ->
  drop k script_codes = (S k, uci, san) :: drop (S k) script_codes.
Proof.
  intros H. apply drop_S. unfold script_codes.
  rewrite list_lookup_imap, H. reflexivity.
Qed.

(** The run of a live instance with [k] moves played: either no Result
    yet, or the trace ends with the one Result, after the rest of the
    script; with no [close] and enough move ticks the Result comes; and
    once it has come the instance is closed for good. *)
Lemma sim_live_run (schedule : list Tick) :
  forall (s : Sim) (k : nat),
    sim_live s k ->
    (count_results (snd (sim_run s schedule)) = 0
     \/ exists pre,
          snd (sim_run s schedule) = pre ++ [OnResult "1-0" "checkmate"]
          /\ count_results pre = 0
          /\ move_codes pre = drop k script_codes)
    /\ (count_ticks CloseCalled schedule = 0 ->
        21 - k <= count_ticks MoveTimerFires schedule ->
        count_results (snd (sim_run s schedule)) = 1)
    /\ (count_results (snd (sim_run s schedule)) = 1 ->
        sim_dead (fst (sim_run s schedule))).
Proof.
  induction schedule as [|t rest IH]; intros s k Hlive.
  - cbn. destruct Hlive as (_ & _ & _ & _ & Hle & _).
    split; [now left | split; [lia | discriminate]].
  - rewrite sim_run_cons. cbn [fst snd]. destruct t.
    + destruct (sim_live_clock s k Hlive) as [E Hlive'].
      rewrite E in *. cbn [fst snd] in *.
      destruct (IH _ k Hlive') as (H1 & H2 & H3).
      set (out := snd (sim_run _ rest)) in *.
      rewrite count_results_app. change (count_results [OnClock _ _]) with 0.
      split; [|split].
      * destruct H1 as [H1 | (pre & Hpre & Hc & Hm)]; [left; exact H1|].
        right. exists (OnClock (Z.max 0 (Number_sub (whiteMs s) 200))
                         (Z.max 0 (Number_sub (blackMs s) 200)) :: pre).
        rewrite Hpre. split; [reflexivity | split; [exact Hc | exact Hm]].
      * exact H2.
      * exact H3.
    + pose proof Hlive as (Hc & Hct & Hmt & Hk & Hle & Hb).
      destruct (mockMoves !! k) as [[uci san]|] eqn:Hm.
      * destruct (sim_live_move s k uci san) as (fen & pgn & E & Hlive');
          [exact Hlive | exact Hm |].
        rewrite E.
        destruct (IH _ (S k) Hlive') as (H1 & H2 & H3).
        set (out := snd (sim_run _ rest)) in *.
        rewrite count_results_app.
        change (count_results [OnMove _ _ _ _ _]) with 0.
        split; [|split].
        -- destruct H1 as [H1 | (pre & Hpre & Hcnt & Hcodes)];
             [left; exact H1|].
           right. exists (OnMove (S k) uci san fen pgn :: pre).
           rewrite Hpre. split; [reflexivity | split; [exact Hcnt|]].
           rewrite (script_codes_drop k uci san Hm), <- Hcodes. reflexivity.
        -- intros Hnc Hmv. apply H2; [exact Hnc|].
           change (count_ticks MoveTimerFires (MoveTimerFires :: rest))
             with (S (count_ticks MoveTimerFires rest)) in Hmv.
           lia.
        -- exact H3.
      * assert (E20 : k = 20).
        { apply lookup_ge_None in Hm. cbn in Hm. lia. }
        rewrite E20 in *.
        destruct (sim_live_result s Hlive) as [E Hdead].
        rewrite E.
        destruct (sim_dead_run _ rest Hdead) as [Eout Hdead'].
        rewrite Eout. split; [|split].
        -- right. exists []. repeat split.
        -- reflexivity.
        -- intros _. exact Hdead'.
    + assert (Hdead : sim_dead (fst (sim_step s CloseCalled)))
        by (now repeat split).
      destruct (sim_dead_run _ rest Hdead) as [Eout Hdead'].
      rewrite Eout. cbn [sim_step snd app].
      split; [now left | split; discriminate].
Qed.

Lemma createMockStream_live (initialMs : Z) :
  sim_live (fst (createMockStream initialMs)) 0.
Proof.
  repeat split; cbn; try lia. repeat constructor.
Qed.

Lemma sim_trace_unfold (initialMs : Z) (schedule : list Tick) :
  sim_trace initialMs schedule
  = [OnOpen; OnMatchStarted "mock" startFen]
    ++ snd (sim_run (fst (createMockStream initialMs)) schedule).
Proof. reflexivity. Qed.

Lemma sim_run_app (s : Sim) (a b : list Tick) :
  sim_run s (a ++ b)
  = (fst (sim_run (fst (sim_run s a)) b),
     snd (sim_run s a) ++ snd (sim_run (fst (sim_run s a)) b)).
Proof.
  revert s. induction a as [|t a IH]; intros s.
  - cbn [app sim_run fst snd]. now destruct (sim_run s b).
  - rewrite <- app_comm_cons, !sim_run_cons, IH. cbn [fst snd].
    now rewrite app_assoc.
Qed.

(** C6.  Whatever the order in which the two intervals fire and [close]
    is called, what an instance emits from its construction on holds
    either no Result, or exactly one Result, which is its last event and
    comes after the Move events of the whole script, plies 1 to 20 in
    script order; with no [close] and at least 21 firings of the move
    interval the Result is emitted; and once it is emitted the instance
    is closed with both intervals cleared, so that nothing that happens
    afterwards makes it emit again. *)
Theorem simulator_single_result (initialMs : Z) (schedule : list Tick) :
  (count_results (sim_trace initialMs schedule) = 0
   \/ exists pre,
        sim_trace initialMs schedule = pre ++ [OnResult "1-0" "checkmate"]
        /\ count_results pre = 0
        /\ move_codes pre = script_codes)
  /\ (count_ticks CloseCalled schedule = 0 ->
      21 <= count_ticks MoveTimerFires schedule ->
      count_results (sim_trace initialMs schedule) = 1)
  /\ (count_results (sim_trace initialMs schedule) = 1 ->
      sim_dead (fst (sim_run (fst (createMockStream initialMs)) schedule))
      /\ forall more : list Tick,
           sim_trace initialMs (schedule ++ more)
           = sim_trace initialMs schedule).
Proof.
  destruct (sim_live_run schedule _ 0 (createMockStream_live initialMs))
    as (H1 & H2 & H3).
  rewrite sim_trace_unfold, count_results_app.
  change (count_results [OnOpen; OnMatchStarted "mock" startFen]) with 0.
  split; [|split].
  - destruct H1 as [H1 | (pre & Hpre & Hc & Hm)]; [left; exact H1|].
    right. exists ([OnOpen; OnMatchStarted "mock" startFen] ++ pre).
    rewrite Hpre, <- app_assoc.
    split; [reflexivity | split; [exact Hc | exact Hm]].
  - intros Hnc Hmv. apply H2; [exact Hnc | lia].
  - intros Hone. specialize (H3 Hone). split; [exact H3|].
    intros more. rewrite sim_trace_unfold, sim_run_app. cbn [snd].
    destruct (sim_dead_run _ more H3) as [-> _]. now rewrite app_nil_r.
Qed.

Lemma simulator_single_result_witness :
  count_ticks CloseCalled (timed_schedule (fun _ => true) 130) = 0
  /\ 21 <= count_ticks MoveTimerFires (timed_schedule (fun _ => true) 130)
  /\ count_results (sim_trace 300000 (timed_schedule (fun _ => true) 130)) = 1.
Proof.
  split; [reflexivity|]. split; [vm_compute; lia|].
  apply (simulator_single_result 300000 (timed_schedule (fun _ => true) 130));
    [reflexivity | vm_compute; lia].
Defined.

(** ** Clock values *)

Lemma round_double_exact (z : Z) :
  (Z.abs z <= 2 ^ 53)%Z -> round_double z = z.
Proof.
  intros H. unfold round_double.
  now destruct (Z.leb_spec (Z.abs z) (2 ^ 53)); [|lia].
Qed.

Lemma round_double_negative (z : Z) : (z < 0)%Z -> (round_double z <= 0)%Z.
Proof.
  intros H. unfold round_double.
  destruct (Z.leb_spec (Z.abs z) (2 ^ 53)); [lia|].
  set (k := (Z.log2 (Z.abs z) - 52)%Z).
  assert (Hk : (0 < 2 ^ k)%Z).
  { apply Z.pow_pos_nonneg; [lia|]. unfold k.
    assert (53 <= Z.log2 (Z.abs z))%Z; [|lia].
    apply Z.log2_le_pow2; lia. }
  assert (Hq : (0 <= Z.abs z / 2 ^ k)%Z) by (apply Z.div_pos; lia).
  rewrite Z.sgn_neg by exact H.
  repeat match goal with |- context [if ?c then _ else _] => destruct c end;
    nia.
Qed.

(** Beyond 2^53 the double nearest to [z] is one of the two multiples
    of [2 ^ k] around it, [k] being the exponent of its last significant
    bit; it is the lower one when [z] is that one. *)
Lemma round_double_large (z : Z) :
  (2 ^ 53 < Z.abs z)%Z ->
  let k := (Z.log2 (Z.abs z) - 52)%Z in
  let q := (Z.abs z / 2 ^ k)%Z in
  (1 <= k)%Z /\ (2 ^ 52 <= q < 2 ^ 53)%Z
  /\ (q * 2 ^ k <= Z.abs z)%Z
  /\ (round_double z = (Z.sgn z * (q * 2 ^ k))%Z
      \/ ((q * 2 ^ k < Z.abs z)%Z
          /\ round_double z = (Z.sgn z * ((q + 1) * 2 ^ k))%Z)).
Proof.
  intros Ha. cbv zeta.
  set (a := Z.abs z) in *.
  assert (Hpos : (0 < a)%Z) by lia.
  pose proof (Z.log2_spec a Hpos) as [Hlo Hhi].
  assert (HL : (53 <= Z.log2 a)%Z) by (apply Z.log2_le_pow2; lia).
  set (k := (Z.log2 a - 52)%Z).
  assert (Hk : (1 <= k)%Z) by (unfold k; lia).
  assert (Hp : (0 < 2 ^ k)%Z) by (apply Z.pow_pos_nonneg; lia).
  assert (E1 : (2 ^ Z.log2 a = 2 ^ 52 * 2 ^ k)%Z).
  { rewrite <- Z.pow_add_r by lia. f_equal. unfold k. lia. }
  assert (E2 : (2 ^ Z.succ (Z.log2 a) = 2 ^ 53 * 2 ^ k)%Z).
  { rewrite <- Z.pow_add_r by lia. f_equal. unfold k. lia. }
  rewrite E1 in Hlo. rewrite E2 in Hhi.
  pose proof (Z.div_mod a (2 ^ k) ltac:(lia)) as Hdm.
  pose proof (Z.mod_pos_bound a (2 ^ k) Hp) as Hr.
  set (q := (a / 2 ^ k)%Z) in *. set (r := (a mod 2 ^ k)%Z) in *.
  assert (Hq : (2 ^ 52 <= q < 2 ^ 53)%Z) by (split; nia).
  assert (Hh : (0 < 2 ^ (k - 1))%Z) by (apply Z.pow_pos_nonneg; lia).
  split; [exact Hk|]. split; [exact Hq|]. split; [nia|].
  unfold round_double. fold a.
  destruct (Z.leb_spec a (2 ^ 53)) as [H|_]; [lia|].
  fold k. fold q. fold r.
  destruct (Z.ltb_spec r (2 ^ (k - 1))); [now left|].
  destruct (Z.ltb_spec (2 ^ (k - 1)) r); [right; split; [nia | reflexivity]|].
  destruct (Z.even q); [now left | right; split; [nia | reflexivity]].
Qed.

(** A number with a significand of 53 bits is a double. *)
Lemma round_double_canonical (s m k : Z) :
  s = 1%Z \/ s = (-1)%Z -> (2 ^ 52 <= m <= 2 ^ 53)%Z -> (0 <= k)%Z ->
  round_double (s * (m * 2 ^ k)) = (s * (m * 2 ^ k))%Z.
Proof.
  intros Hs Hm Hk.
  assert (Hp : (0 < 2 ^ k)%Z) by (apply Z.pow_pos_nonneg; lia).
  set (v := (m * 2 ^ k)%Z).
  assert (Hv : (0 < v)%Z) by (unfold v; nia).
  assert (Habs : Z.abs (s * v) = v) by (destruct Hs as [-> | ->]; lia).
  assert (Hsg : Z.sgn (s * v) = s) by (destruct Hs as [-> | ->]; lia).
  destruct (Z_le_gt_dec v (2 ^ 53)) as [Hle|Hgt].
  { apply round_double_exact. lia. }
  assert (Hk1 : (1 <= k)%Z).
  { destruct (Z.eq_dec k 0%Z) as [->|]; [|lia]. unfold v in Hgt.
    change (2 ^ 0)%Z with 1%Z in Hgt. lia. }
  unfold round_double. rewrite Habs, Hsg.
  destruct (Z.leb_spec v (2 ^ 53)) as [H|_]; [lia|].
  destruct (Z_lt_le_dec m (2 ^ 53)) as [Hlt|Hge].
  - assert (HL : Z.log2 v = (52 + k)%Z).
    { apply Z.log2_unique; [lia|].
      replace (Z.succ (52 + k)) with (53 + k)%Z by lia.
      rewrite !Z.pow_add_r by lia. unfold v. split; nia. }
    rewrite HL. replace (52 + k - 52)%Z with k by lia.
    unfold v. rewrite Z.div_mul, Z.mod_mul by lia.
    assert (Hh : (0 < 2 ^ (k - 1))%Z) by (apply Z.pow_pos_nonneg; lia).
    destruct (Z.ltb_spec 0%Z (2 ^ (k - 1))%Z); [reflexivity | lia].
  - assert (Em : m = (2 ^ 53)%Z) by lia.
    assert (Ev : v = (2 ^ 52 * 2 ^ (k + 1))%Z).
    { unfold v. rewrite Em, Z.pow_add_r by lia.
      change (2 ^ 53)%Z with (2 ^ 52 * 2)%Z. change (2 ^ 1)%Z with 2%Z. lia. }
    assert (HL : Z.log2 v = (53 + k)%Z).
    { apply Z.log2_unique; [lia|].
      replace (Z.succ (53 + k)) with (54 + k)%Z by lia.
      rewrite !Z.pow_add_r by lia. unfold v. rewrite Em. split; nia. }
    rewrite HL. replace (53 + k - 52)%Z with (k + 1)%Z by lia.
    rewrite Ev. rewrite Z.div_mul, Z.mod_mul
      by (assert (0 < 2 ^ (k + 1))%Z by (apply Z.pow_pos_nonneg; lia); lia).
    replace (k + 1 - 1)%Z with k by lia.
    destruct (Z.ltb_spec 0%Z (2 ^ k)%Z); [reflexivity | lia].
Qed.

(** What [round_double] returns is a double. *)
Lemma round_double_idempotent (z : Z) :
  round_double (round_double z) = round_double z.
Proof.
  destruct (Z_le_gt_dec (Z.abs z) (2 ^ 53)) as [Hle|Hgt].
  { now rewrite !(round_double_exact z Hle). }
  destruct (round_double_large z ltac:(lia)) as (Hk & Hq & _ & H).
  assert (Hs : Z.sgn z = 1%Z \/ Z.sgn z = (-1)%Z) by lia.
  destruct H as [-> | [_ ->]]; apply round_double_canonical; lia.
Qed.

(** Rounding does not pass a double: below a double [y] that is not
    negative, the nearest double is not above [y]. *)
Lemma round_double_below (y z : Z) :
  round_double y = y -> (0 <= y)%Z -> (z <= y)%Z -> (round_double z <= y)%Z.
Proof.
  intros Hy Hy0 Hzy.
  destruct (Z_le_gt_dec (Z.abs z) (2 ^ 53)) as [Hle|Hgt].
  { rewrite (round_double_exact z Hle). exact Hzy. }
  destruct (Z_lt_le_dec z 0%Z) as [Hneg|Hpos].
  { pose proof (round_double_negative z Hneg). lia. }
  destruct (round_double_large z ltac:(lia)) as (Hk & Hq & Hlo & H).
  rewrite Z.abs_eq in * by lia. rewrite Z.sgn_pos in H by lia.
  destruct H as [-> | [Hlt ->]]; [lia|].
  destruct (round_double_large y ltac:(lia)) as (Hky & Hqy & _ & H).
  rewrite Hy in H. rewrite Z.abs_eq in * by lia. rewrite Z.sgn_pos in H by lia.
  set (k := (Z.log2 z - 52)%Z) in *. set (ky := (Z.log2 y - 52)%Z) in *.
  assert (Hkk : (k <= ky)%Z).
  { unfold k, ky. pose proof (Z.log2_le_mono z y Hzy). lia. }
  assert (Hp : (0 < 2 ^ k)%Z) by (apply Z.pow_pos_nonneg; lia).
  assert (Hsplit : (2 ^ ky = 2 ^ (ky - k) * 2 ^ k)%Z).
  { rewrite <- Z.pow_add_r by lia. f_equal. lia. }
  assert (Hd : (0 < 2 ^ (ky - k))%Z) by (apply Z.pow_pos_nonneg; lia).
  set (qy := (y / 2 ^ ky)%Z) in *.
  assert (Hc : exists c, y = (c * 2 ^ k)%Z).
  { destruct H as [H | [_ H]]; rewrite Hsplit in H.
    - exists (qy * 2 ^ (ky - k))%Z. lia.
    - exists ((qy + 1) * 2 ^ (ky - k))%Z. lia. }
  destruct Hc as [c Hc].
  set (q := (z / 2 ^ k)%Z) in *.
  assert (q < c)%Z by nia.
  nia.
Qed.

(** A safe integer is a double. *)
Lemma safe_integer_exact (z : Z) :
  is_safe_integer z = true -> round_double z = z /\ (z <= 2 ^ 53)%Z.
Proof.
  unfold is_safe_integer. intros H. apply andb_true_iff in H as [H1 H2].
  apply Z.leb_le in H1, H2. split; [apply round_double_exact|]; lia.
Qed.

(** Up to 2^53 a tick of the clock is exact. *)
Lemma clock_tick_exact (x : Z) :
  (x <= 2 ^ 53)%Z ->
  Z.max 0 (Number_sub x 200) = Z.max 0 (x - 200).
Proof.
  intros H. unfold Number_sub.
  destruct (Z_le_gt_dec (- 2 ^ 53) (x - 200)) as [Hlo|Hlo].
  - rewrite round_double_exact; [reflexivity | lia].
  - pose proof (round_double_negative (x - 200)). lia.
Qed.

Lemma clock_after_step (x : Z) (k : nat) :
  clock_after (Z.max 0 (x - 200)) k = clock_after x (S k).
Proof. unfold clock_after. lia. Qed.

Lemma clock_values_app (a b : list StreamEvent) :
  clock_values (a ++ b) = clock_values a ++ clock_values b.
Proof. apply omap_app. Qed.

(** A step either emits no Clock and leaves the two clocks, or emits one
    Clock with both clocks a tick down, clamped at 0. *)
Lemma sim_step_clock (s : Sim) (t : Tick) :
  (clock_values (snd (sim_step s t)) = []
   /\ whiteMs (fst (sim_step s t)) = whiteMs s
   /\ blackMs (fst (sim_step s t)) = blackMs s)
  \/ (clock_values (snd (sim_step s t))
      = [(Z.max 0 (Number_sub (whiteMs s) 200),
          Z.max 0 (Number_sub (blackMs s) 200))]
      /\ whiteMs (fst (sim_step s t)) = Z.max 0 (Number_sub (whiteMs s) 200)
      /\ blackMs (fst (sim_step s t)) = Z.max 0 (Number_sub (blackMs s) 200)).
Proof.
  destruct t; cbn [sim_step].
  - destruct (clockTimer s); [|left; now repeat split].
    unfold clock_callback. destruct (closed s); [left | right]; now repeat split.
  - destruct (moveTimer s); [|left; now repeat split].
    unfold move_callback. left.
    destruct (closed s); [now repeat split|].
    destruct (mockMoves !! moveIndex s) as [[uci san]|]; [|now repeat split].
    destruct (applyUciMove (board s) uci) as [b [u|e]]; now repeat split.
  - left. now repeat split.
Qed.

Lemma clock_values_run (schedule : list Tick) :
  forall (s : Sim) (k : nat) (w b : Z),
    (whiteMs s <= 2 ^ 53)%Z -> (blackMs s <= 2 ^ 53)%Z ->
    clock_values (snd (sim_run s schedule)) !! k = Some (w, b) ->
    w = clock_after (whiteMs s) (S k) /\ b = clock_after (blackMs s) (S k).
Proof.
  induction schedule as [|t rest IH]; intros s k w b Hws Hbs; [discriminate|].
  rewrite sim_run_cons. cbn [snd]. rewrite clock_values_app.
  destruct (sim_step_clock s t) as [(-> & Hw & Hb) | (-> & Hw & Hb)].
  - cbn [app]. intros H. apply IH in H; [|lia|lia]. now rewrite Hw, Hb in H.
  - rewrite (clock_tick_exact _ Hws), (clock_tick_exact _ Hbs) in *.
    destruct k as [|k]; cbn [app lookup list_lookup].
    + intros [= <- <-]. unfold clock_after. split; lia.
    + intros H. apply IH in H; [|lia|lia]. rewrite Hw, Hb in H.
      now rewrite !clock_after_step in H.
Qed.

(** A tick leaves a clock that is a double and not negative, and not
    above the clock before when that was one. *)
Lemma clock_tick_double (x : Z) :
  (0 <= Z.max 0 (Number_sub x 200))%Z
  /\ round_double (Z.max 0 (Number_sub x 200)) = Z.max 0 (Number_sub x 200).
Proof.
  split; [lia|]. unfold Number_sub.
  destruct (Z.max_spec 0 (round_double (x - 200))) as [[_ ->] | [_ ->]].
  - apply round_double_idempotent.
  - reflexivity.
Qed.

Lemma clock_tick_below (x : Z) :
  (0 <= x)%Z -> round_double x = x -> (Z.max 0 (Number_sub x 200) <= x)%Z.
Proof.
  intros H0 Hx. unfold Number_sub.
  pose proof (round_double_below x (x - 200) Hx H0 ltac:(lia)). lia.
Qed.

(** From clocks that are doubles and not negative, no Clock of a run is
    above them. *)
Lemma clock_values_bounded (schedule : list Tick) :
  forall (s : Sim) (k : nat) (w b : Z),
    (0 <= whiteMs s)%Z -> round_double (whiteMs s) = whiteMs s ->
    (0 <= blackMs s)%Z -> round_double (blackMs s) = blackMs s ->
    clock_values (snd (sim_run s schedule)) !! k = Some (w, b) ->
    (0 <= w <= whiteMs s)%Z /\ (0 <= b <= blackMs s)%Z.
Proof.
  induction schedule as [|t rest IH]; intros s k w b Hw0 Hw Hb0 Hb;
    [discriminate|].
  rewrite sim_run_cons. cbn [snd]. rewrite clock_values_app.
  destruct (sim_step_clock s t) as [(-> & Ew & Eb) | (-> & Ew & Eb)].
  - cbn [app]. intros H.
    apply IH in H; rewrite ?Ew, ?Eb in *; assumption.
  - pose proof (clock_tick_double (whiteMs s)) as [Hw1 Hw2].
    pose proof (clock_tick_double (blackMs s)) as [Hb1 Hb2].
    pose proof (clock_tick_below (whiteMs s) Hw0 Hw).
    pose proof (clock_tick_below (blackMs s) Hb0 Hb).
    destruct k as [|k]; cbn [app lookup list_lookup].
    + intros [= <- <-]. lia.
    + intros H'. apply IH in H'; rewrite ?Ew, ?Eb in *; try assumption. lia.
Qed.

(** Whatever the clocks at the start, the Clock values of a run are not
    negative and never increase. *)
Lemma clock_values_sorted (schedule : list Tick) :
  forall (s : Sim) (k : nat) (w b w' b' : Z),
    clock_values (snd (sim_run s schedule)) !! k = Some (w, b) ->
    clock_values (snd (sim_run s schedule)) !! S k = Some (w', b') ->
    (w' <= w)%Z /\ (b' <= b)%Z.
Proof.
  induction schedule as [|t rest IH]; intros s k w b w' b'; [discriminate|].
  rewrite sim_run_cons. cbn [snd]. rewrite clock_values_app.
  destruct (sim_step_clock s t) as [(-> & Ew & Eb) | (-> & Ew & Eb)].
  - cbn [app]. apply IH.
  - pose proof (clock_tick_double (whiteMs s)) as [Hw1 Hw2].
    pose proof (clock_tick_double (blackMs s)) as [Hb1 Hb2].
    destruct k as [|k]; cbn [app lookup list_lookup].
    + intros [= <- <-] H'.
      apply clock_values_bounded in H'; rewrite ?Ew, ?Eb; try assumption.
      rewrite Ew, Eb in H'. lia.
    + apply IH.
Qed.

Lemma clock_values_nonneg (schedule : list Tick) :
  forall (s : Sim) (k : nat) (w b : Z),
    clock_values (snd (sim_run s schedule)) !! k = Some (w, b) ->
    (0 <= w)%Z /\ (0 <= b)%Z.
Proof.
  induction schedule as [|t rest IH]; intros s k w b; [discriminate|].
  rewrite sim_run_cons. cbn [snd]. rewrite clock_values_app.
  destruct (sim_step_clock s t) as [(-> & Ew & Eb) | (-> & Ew & Eb)].
  - cbn [app]. apply IH.
  - destruct k as [|k]; cbn [app lookup list_lookup].
    + intros [= <- <-]. lia.
    + apply IH.
Qed.

Lemma clock_values_ticks (n : nat) :
  forall (s : Sim) (k : nat),
    sim_live s k ->
    length (clock_values (snd (sim_run s (replicate n ClockTimerFires)))) = n.
Proof.
  induction n as [|n IH]; intros s k Hlive; [reflexivity|].
  cbn [replicate]. rewrite sim_run_cons. cbn [snd].
  destruct (sim_live_clock s k Hlive) as [E Hlive'].
  rewrite clock_values_app, length_app, (IH _ k Hlive'), E. reflexivity.
Qed.

(** C7, as stated, fails for large values.  The clock values are doubles
    and the callback subtracts doubles: 10^17 is a double, and the
    double nearest to 10^17 - 200 is 99999999999999808 (the doubles
    there are 16 apart), so the first Clock of an instance made with
    10^17 shows both sides 192 ms down, not 200. *)
Lemma simulator_clock_rounds :
  is_double (10 ^ 17) = true
  /\ clock_values (sim_trace (10 ^ 17) [ClockTimerFires])
     = [(99999999999999808, 99999999999999808)%Z]
  /\ (10 ^ 17 - 99999999999999808 = 192)%Z
  /\ (99999999999999808 <> Z.max 0 (10 ^ 17 - 200))%Z.
Proof.
  split; [vm_compute; reflexivity|]. split; [vm_compute; reflexivity|].
  split; [reflexivity | discriminate].
Qed.

(** C7, amended.  For every initialClockMs (an integral double) and
    every run of an instance, the values of the Clock events emitted
    are never negative and never increase, for both sides, and n firings
    of the clock interval emit n Clock events.  For every initialClockMs
    that is a safe integer (an integer of magnitude at most 2^53 - 1),
    the k-th Clock event emitted carries, for both sides, initialClockMs
    less 200 ms per tick, clamped at 0: each emitted value is the one
    before less exactly 200 ms, clamped at 0. *)
Theorem simulator_clock_values (initialMs : Z) (schedule : list Tick) :
  is_double initialMs = true ->
  (forall (k : nat) (w b : Z),
      clock_values (sim_trace initialMs schedule) !! k = Some (w, b) ->
      (0 <= w)%Z /\ (0 <= b)%Z)
  /\ (forall (k : nat) (w b w' b' : Z),
      clock_values (sim_trace initialMs schedule) !! k = Some (w, b) ->
      clock_values (sim_trace initialMs schedule) !! S k = Some (w', b') ->
      (w' <= w)%Z /\ (b' <= b)%Z)
  /\ (forall n : nat,
      length (clock_values
                (sim_trace initialMs (replicate n ClockTimerFires))) = n)
  /\ (is_safe_integer initialMs = true ->
      (forall (k : nat) (w b : Z),
          clock_values (sim_trace initialMs schedule) !! k = Some (w, b) ->
          w = clock_after initialMs (S k) /\ b = clock_after initialMs (S k))
      /\ (forall (k : nat) (w b w' b' : Z),
          clock_values (sim_trace initialMs schedule) !! k = Some (w, b) ->
          clock_values (sim_trace initialMs schedule) !! S k = Some (w', b') ->
          w' = Z.max 0 (w - 200) /\ b' = Z.max 0 (b - 200))).
Proof.
  intros _.
  assert (Hcv : clock_values (sim_trace initialMs schedule)
                = clock_values
                    (snd (sim_run (fst (createMockStream initialMs)) schedule))).
  { rewrite sim_trace_unfold, clock_values_app. reflexivity. }
  rewrite Hcv. split; [|split; [|split]].
  - intros k w b. apply clock_values_nonneg.
  - intros k w b w' b'. apply clock_values_sorted.
  - intros n. rewrite sim_trace_unfold, clock_values_app.
    cbn [clock_values omap app].
    apply (clock_values_ticks n _ 0), createMockStream_live.
  - intros Hsafe. destruct (safe_integer_exact initialMs Hsafe) as [_ Hle].
    assert (Hval : forall k w b,
               clock_values
                 (snd (sim_run (fst (createMockStream initialMs)) schedule))
                 !! k = Some (w, b) ->
               w = clock_after initialMs (S k)
               /\ b = clock_after initialMs (S k)).
    { intros k w b. apply clock_values_run; exact Hle. }
    split; [exact Hval|].
    intros k w b w' b' H H'.
    destruct (Hval k w b H) as [-> ->].
    destruct (Hval (S k) w' b' H') as [-> ->].
    unfold clock_after. split; lia.
Qed.

Lemma simulator_clock_values_witness :
  is_double 500 = true
  /\ is_safe_integer 500 = true
  /\ clock_values (sim_trace 500 [ClockTimerFires; ClockTimerFires; ClockTimerFires])
       !! 1 = Some (100, 100)%Z
  /\ clock_values (sim_trace 500 [ClockTimerFires; ClockTimerFires; ClockTimerFires])
       !! 2 = Some (0, 0)%Z
  /\ ((0 <= 100)%Z /\ (0 <= 100)%Z)
  /\ (0 = Z.max 0 (100 - 200) /\ 0 = Z.max 0 (100 - 200))%Z.
Proof.
  split; [reflexivity|]. split; [reflexivity|]. split; [reflexivity|].
  split; [reflexivity|]. split.
  - apply (proj1 (proj2 (simulator_clock_values 500
                           [ClockTimerFires; ClockTimerFires; ClockTimerFires]
                           eq_refl)) 1%nat 100%Z 100%Z 0%Z 0%Z);
      reflexivity.
  - apply (proj2 (proj2 (proj2 (proj2 (simulator_clock_values 500
                           [ClockTimerFires; ClockTimerFires; ClockTimerFires]
                           eq_refl))) eq_refl) 1%nat 100%Z 100%Z 0%Z 0%Z);
      reflexivity.
Defined.

(** The specification's scenario: an instance made with 300000 ms first
    calls onOpen and MatchStarted with the initial position; its first
    Clock, 200 ms later, shows both sides at 299800; its first Move, at
    1200 ms, is ply 1, [e2e4], [e4] (here with the clock interval run
    first at 1200 ms). *)
Example simulator_first_events :
  sim_trace 300000 (timed_schedule (fun _ => true) 6)
  = [ OnOpen; OnMatchStarted "mock" startFen;
      OnClock 299800 299800; OnClock 299600 299600; OnClock 299400 299400;
      OnClock 299200 299200; OnClock 299000 299000; OnClock 298800 298800;
      OnMove 1 "e2e4" "e4"
        "rnbqkbnr/pppppppp/8/8/4P3/8/PPPP1PPP/RNBQKBNR b - - 0 1" "1. e4" ].
Proof. reflexivity. Qed.

(** ** The run on the host's clock *)

Lemma timed_schedule_from_app (clock_first : nat -> bool) (k n m : nat) :
  timed_schedule_from clock_first k (n + m)
  = timed_schedule_from clock_first k n
    ++ timed_schedule_from clock_first (k + n) m.
Proof.
  revert k. induction n as [|n IH]; intros k.
  - cbn [Nat.add timed_schedule_from app]. now rewrite Nat.add_0_r.
  - cbn [Nat.add timed_schedule_from]. rewrite IH, <- app_assoc.
    now replace (S k + n) with (k + S n) by lia.
Qed.

Lemma timed_schedule_from_no_close (clock_first : nat -> bool) (n : nat) :
  forall k, count_ticks CloseCalled (timed_schedule_from clock_first k n) = 0.
Proof.
  induction n as [|n IH]; intros k; [reflexivity|].
  cbn [timed_schedule_from]. unfold count_ticks in *.
  rewrite List.filter_app, length_app, IH.
  now destruct (k mod 6 =? 0)%nat, (clock_first k).
Qed.

(** How often the move interval fires does not depend on the order at
    the ties. *)
Lemma timed_schedule_from_moves (clock_first : nat -> bool) (n : nat) :
  forall k,
    count_ticks MoveTimerFires (timed_schedule_from clock_first k n)
    = count_ticks MoveTimerFires (timed_schedule_from (fun _ => true) k n).
Proof.
  induction n as [|n IH]; intros k; [reflexivity|].
  cbn [timed_schedule_from]. unfold count_ticks in *.
  rewrite !List.filter_app, !length_app, IH.
  now destruct (k mod 6 =? 0)%nat, (clock_first k).
Qed.

(** On the host's clock the Result is there from 25200 ms on: the move
    interval has then fired 21 times, and nothing closes the instance. *)
Lemma simulator_result_on_time (clock_first : nat -> bool) (initialMs : Z)
    (n : nat) :
  126 <= n ->
  count_results (sim_trace initialMs (timed_schedule clock_first n)) = 1.
Proof.
  intros Hn. rewrite sim_trace_unfold, count_results_app.
  change (count_results [OnOpen; OnMatchStarted "mock" startFen]) with 0.
  destruct (sim_live_run (timed_schedule clock_first n) _ 0
              (createMockStream_live initialMs)) as (_ & H & _).
  apply H.
  - apply timed_schedule_from_no_close.
  - unfold timed_schedule. rewrite timed_schedule_from_moves.
    replace n with (126 + (n - 126)) by lia.
    rewrite timed_schedule_from_app. unfold count_ticks.
    rewrite List.filter_app, length_app.
    change (length (List.filter _ (timed_schedule_from (fun _ => true) 1 126)))
      with 21.
    lia.
Qed.

(** The move list of the last Move event, read by the renderer: ten
    numbered rows, none with an empty slot. *)
Example simulator_moves_parsed :
  parsePgnMoves
    "1. e4 c5 2. Nf3 d6 3. d4 cxd4 4. Nxd4 Nf6 5. Nc3 a6 6. Be2 e6 7. O-O Be7 8. f4 O-O 9. Be3 Qc7 10. a4 Nc6"
  = [ mkRow 1 "e4" "c5"; mkRow 2 "Nf3" "d6"; mkRow 3 "d4" "cxd4";
      mkRow 4 "Nxd4" "Nf6"; mkRow 5 "Nc3" "a6"; mkRow 6 "Be2" "e6";
      mkRow 7 "O-O" "Be7"; mkRow 8 "f4" "O-O"; mkRow 9 "Be3" "Qc7";
      mkRow 10 "a4" "Nc6" ].
Proof. reflexivity. Qed.

(* ================================================================== *)
(** * Stream client *)
(* ================================================================== *)

Section StreamClientProperties.

Context {Json : Type} (JSON_parse : string -> option Json).

Lemma client_step_same_view (h : Sse.StreamHandlers) (c c' : Sse.Client Json)
    (i : Sse.ClientInput) :
  same_view c c' ->
  same_view (Sse.client_step JSON_parse h c i) (Sse.client_step JSON_parse h c' i).
Proof.
  intros [Hc Hcalls]. unfold same_view.
  destruct i as [sig|]; cbn [Sse.client_step].
  - rewrite <- Hc.
    destruct (Sse.source_closed c) eqn:E; [split; [congruence | exact Hcalls]|].
    destruct (Sse.dispatch JSON_parse h sig); cbn;
      (split; [reflexivity | now rewrite Hcalls]).
  - cbn. split; [reflexivity | exact Hcalls].
Qed.

Lemma client_run_same_view (h : Sse.StreamHandlers) (inputs : list Sse.ClientInput) :
  forall c c' : Sse.Client Json,
    same_view c c' ->
    same_view (Sse.client_run JSON_parse h c inputs)
      (Sse.client_run JSON_parse h c' inputs).
Proof.
  induction inputs as [|i inputs IH]; intros c c' H; [exact H|].
  cbn [Sse.client_run fold_left]. apply IH. now apply client_step_same_view.
Qed.

(** The listener of a message whose body is not JSON calls nothing: it
    either has no callback and does nothing, or throws the SyntaxError of
    [JSON.parse] before the call. *)
Lemma dispatch_malformed (h : Sse.StreamHandlers) (ev : Sse.MessageEvent) :
  JSON_parse (Sse.data ev) = None ->
  Sse.dispatch JSON_parse h (Sse.SigMessage ev) = Throw SyntaxError
  \/ Sse.dispatch JSON_parse h (Sse.SigMessage ev) = Normal [].
Proof.
  intros H. cbn [Sse.dispatch].
  destruct (Sse.kind_of_name (Sse.event_name ev)) as [k|]; [|now right].
  unfold Sse.listener, Sse.parseEvent. rewrite H.
  destruct (Sse.has_handler h k); [now left | now right].
Qed.

Lemma client_step_malformed (h : Sse.StreamHandlers) (c : Sse.Client Json)
    (ev : Sse.MessageEvent) :
  JSON_parse (Sse.data ev) = None ->
  same_view
    (Sse.client_step JSON_parse h c (Sse.FromSource (Sse.SigMessage ev))) c.
Proof.
  intros H. unfold same_view. cbn [Sse.client_step].
  destruct (Sse.source_closed c) eqn:Hc; [now split|].
  destruct (dispatch_malformed h ev H) as [-> | ->]; cbn;
    rewrite ?app_nil_r; (split; [congruence | reflexivity]).
Qed.

(** C1.  For every wire message whose body is not valid JSON, wherever
    it comes in the stream: its listener invokes no handler; the client
    goes on, and every other message, before or after, is parsed and
    dispatched exactly as if the malformed one had not come: the calls
    the client makes on the caller's handlers are the same, and the
    source is open or closed alike.  The SyntaxError leaves the
    listener; the host's dispatch reports it and goes on. *)
Theorem malformed_message_swallowed (h : Sse.StreamHandlers)
    (ev : Sse.MessageEvent) (before after : list Sse.ClientInput) :
  JSON_parse (Sse.data ev) = None ->
  (Sse.dispatch JSON_parse h (Sse.SigMessage ev) = Throw SyntaxError
   \/ Sse.dispatch JSON_parse h (Sse.SigMessage ev) = Normal [])
  /\ Sse.calls
       (Sse.client_run JSON_parse h Sse.createMatchStream
          (before ++ Sse.FromSource (Sse.SigMessage ev) :: after))
     = Sse.calls
         (Sse.client_run JSON_parse h Sse.createMatchStream (before ++ after))
  /\ Sse.source_closed
       (Sse.client_run JSON_parse h Sse.createMatchStream
          (before ++ Sse.FromSource (Sse.SigMessage ev) :: after))
     = Sse.source_closed
         (Sse.client_run JSON_parse h Sse.createMatchStream (before ++ after)).
Proof.
  intros H. split; [now apply dispatch_malformed|].
  unfold Sse.client_run. rewrite !fold_left_app. cbn [fold_left].
  destruct (client_run_same_view h after _ _
              (client_step_malformed h
                 (fold_left (Sse.client_step JSON_parse h) before
                    Sse.createMatchStream) ev H)) as [Hc Hcalls].
  split; [exact Hcalls | exact Hc].
Qed.

End StreamClientProperties.

Lemma malformed_message_swallowed_witness :
  let h := Sse.mkHandlers true true true true true true in
  let bad := Sse.mkMessage "clock" "{oops" in
  let good := Sse.mkMessage "clock" "42" in
  example_parse (Sse.data bad) = None
  /\ Sse.calls
       (Sse.client_run example_parse h Sse.createMatchStream
          ([Sse.FromSource Sse.SigOpen]
           ++ Sse.FromSource (Sse.SigMessage bad)
              :: [Sse.FromSource (Sse.SigMessage good)]))
     = [Sse.CallOpen; Sse.CallEvent Sse.clock 42%Z]
  /\ Sse.calls
       (Sse.client_run example_parse h Sse.createMatchStream
          ([Sse.FromSource Sse.SigOpen]
           ++ Sse.FromSource (Sse.SigMessage bad)
              :: [Sse.FromSource (Sse.SigMessage good)]))
     = Sse.calls
         (Sse.client_run example_parse h Sse.createMatchStream
            ([Sse.FromSource Sse.SigOpen]
             ++ [Sse.FromSource (Sse.SigMessage good)])).
Proof.
  intros h bad good. split; [reflexivity|]. split; [reflexivity|].
  apply (malformed_message_swallowed example_parse h bad
           [Sse.FromSource Sse.SigOpen]
           [Sse.FromSource (Sse.SigMessage good)]).
  reflexivity.
Defined.

(* ================================================================== *)
(** * Session state machine *)
(* ================================================================== *)

Lemma tracked_cleared (tref : option positive) (tos : list App.Timeout) :
  Forall (fun e => tref = Some (App.t_id e)) tos ->
  match tref with
  | Some t => List.filter (fun e => negb (Pos.eqb (App.t_id e) t)) tos
  | None => tos
  end = [].
Proof.
  induction 1 as [|e tos He Hrest IH]; [now destruct tref|].
  subst tref. cbn [List.filter]. rewrite Pos.eqb_refl. exact IH.
Qed.

(** closeStream leaves no timeout pending, forgets the three handles,
    closes the current source, and touches neither the state variables
    nor the clock. *)
Lemma closeStream_effect (w : App.World) :
  timers_tracked w ->
  App.timeouts (App.host (App.closeStream w)) = []
  /\ App.refs (App.closeStream w) = App.mkRefs None None None
  /\ App.view (App.closeStream w) = App.view w
  /\ App.now (App.host (App.closeStream w)) = App.now (App.host w)
  /\ App.next_timer (App.host (App.closeStream w)) = App.next_timer (App.host w)
  /\ App.sources (App.host (App.closeStream w))
     = match App.streamRef (App.refs w) with
       | Some k =>
           match App.sources (App.host w) !! k with
           | Some src => <[k := App.mkSource (App.es_matchId src) true]>
                           (App.sources (App.host w))
           | None => App.sources (App.host w)
           end
       | None => App.sources (App.host w)
       end.
Proof.
  destruct w as [v [sref tref mref] [nw nt tos srcs mks]].
  unfold timers_tracked. cbn. intros H.
  pose proof (tracked_cleared tref tos H) as E.
  destruct tref as [t|], sref as [k|], mref as [m|]; cbn in *;
    rewrite ?E; repeat split; try exact E.
Qed.

(** C4, as stated, fails on the Stream Client path: after [start] and
    the creation of the match the session is connecting with its source
    open; the source's onOpen leaves the status connecting. *)
Lemma onOpen_keeps_connecting :
  let w := App.run App.initial_world
             [App.Start "stockfish-16" "lc0-0.30" 300000;
              App.MatchCreated "m1"] in
  App.status (App.view w) = App.connecting
  /\ App.sources (App.host w) !! 0 = Some (App.mkSource "m1" false)
  /\ App.streamRef (App.refs w) = Some 0
  /\ App.status (App.view (App.step w (App.SourceCalls 0 OnOpen)))
     = App.connecting
  /\ App.status (App.view (App.step w (App.SourceCalls 0 OnOpen)))
     <> App.running.
Proof.
  repeat split; try reflexivity. discriminate.
Qed.

(** C4, amended.  From the connecting state, a MatchStarted event flips
    the status to running on either event source.  An onOpen flips it to
    running only when the source is the simulator, whose onOpen callback
    sets running whatever the status (so the session is running as soon
    as the simulator is made); on the Stream Client path an onOpen
    received while connecting leaves the status connecting (there onOpen
    turns only reconnecting into running), and the session becomes
    running with MatchStarted. *)
Theorem connecting_to_running (w : App.World) (k : nat) (id : string) :
  App.status (App.view w) = App.connecting ->
  App.sources (App.host w) !! k = Some (App.mkSource id false) ->
  App.status (App.view (App.step w (App.SourceCalls k OnOpen)))
  = App.connecting
  /\ (forall match_id start_fen,
        App.status
          (App.view (App.step w (App.SourceCalls k
                                   (OnMatchStarted match_id start_fen))))
        = App.running)
  /\ App.status (App.view (App.mock_handlers OnOpen w)) = App.running
  /\ (forall match_id start_fen,
        App.status
          (App.view (App.mock_handlers (OnMatchStarted match_id start_fen) w))
        = App.running)
  /\ (forall mock_id initialMs,
        App.status
          (App.view (App.step w (App.MockMatchCreated mock_id initialMs)))
        = App.running).
Proof.
  intros Hst Hsrc.
  cbn [App.step]. unfold App.source_calls. rewrite Hsrc. cbn [App.es_closed].
  repeat split.
  - cbn. now rewrite Hst.
Qed.

Lemma connecting_to_running_witness :
  let w := App.run App.initial_world
             [App.Start "stockfish-16" "lc0-0.30" 300000;
              App.MatchCreated "m1"] in
  App.status (App.view w) = App.connecting
  /\ App.sources (App.host w) !! 0 = Some (App.mkSource "m1" false)
  /\ App.status (App.view (App.step w (App.SourceCalls 0 OnOpen)))
     = App.connecting
  /\ (forall match_id start_fen,
        App.status
          (App.view (App.step w (App.SourceCalls 0
                                   (OnMatchStarted match_id start_fen))))
        = App.running)
  /\ App.status (App.view (App.mock_handlers OnOpen w)) = App.running
  /\ (forall match_id start_fen,
        App.status
          (App.view (App.mock_handlers (OnMatchStarted match_id start_fen) w))
        = App.running)
  /\ (forall mock_id initialMs,
        App.status
          (App.view (App.step w (App.MockMatchCreated mock_id initialMs)))
        = App.running).
Proof.
  intros w. split; [reflexivity|]. split; [reflexivity|].
  apply (connecting_to_running w 0 "m1"); reflexivity.
Defined.

(** The onError callback of a live source: what it leaves. *)
Lemma onError_effect (w : App.World) (k : nat) (id : string) :
  App.sources (App.host w) !! k = Some (App.mkSource id false) ->
  App.streamRef (App.refs w) = Some k ->
  timers_tracked w ->
  App.step w (App.SourceCalls k OnError)
  = App.mkWorld
      (App.view (App.setStatus (fun _ => App.reconnecting) w))
      (App.mkRefs None (Some (App.next_timer (App.host w))) None)
      (App.mkHost (App.now (App.host w))
         (Pos.succ (App.next_timer (App.host w)))
         [App.mkTimeout (App.next_timer (App.host w))
            (App.now (App.host w) + 1500) id]
         (<[k := App.mkSource id true]> (App.sources (App.host w)))
         (App.mocks (App.host (App.closeStream w)))).
Proof.
  intros Hsrc Href Htr.
  cbn [App.step]. unfold App.source_calls. rewrite Hsrc. cbn [App.es_closed App.es_matchId].
  cbn [App.stream_handlers].
  assert (Htr' : timers_tracked (App.setStatus (fun _ => App.reconnecting) w))
    by exact Htr.
  destruct (closeStream_effect _ Htr') as (Hto & Hrefs & Hview & Hnow & Hnt & Hsrcs).
  change (App.refs (App.setStatus (fun _ => App.reconnecting) w))
    with (App.refs w) in Hsrcs.
  change (App.host (App.setStatus (fun _ => App.reconnecting) w))
    with (App.host w) in *.
  rewrite Href, Hsrc in Hsrcs. cbn [App.es_matchId] in Hsrcs.
  unfold App.setTimeout.
  rewrite Hto, Hrefs, Hview, Hnow, Hnt. cbn [App.streamRef App.mockStreamRef app].
  f_equal. f_equal. exact Hsrcs.
Qed.

(** ** The tracking invariant holds in every reachable state *)

Lemma tracked_of_nil (w : App.World) :
  App.timeouts (App.host w) = [] -> timers_tracked w.
Proof. unfold timers_tracked. intros ->. constructor. Qed.

Lemma closeStream_tracked (w : App.World) :
  timers_tracked w -> timers_tracked (App.closeStream w).
Proof.
  intros H. apply tracked_of_nil. now apply closeStream_effect.
Qed.

Lemma openStream_tracked (id : string) (w : App.World) :
  timers_tracked w -> timers_tracked (App.openStream id w).
Proof.
  intros H. apply tracked_of_nil.
  destruct (closeStream_effect w H) as (Hto & _).
  unfold App.openStream, App.new_source. cbn. exact Hto.
Qed.

Lemma stream_handlers_tracked (id : string) (e : StreamEvent) (w : App.World) :
  timers_tracked w -> timers_tracked (App.stream_handlers id e w).
Proof.
  intros H. destruct e; cbn [App.stream_handlers]; try exact H.
  - apply closeStream_tracked. exact H.
  - assert (H' : timers_tracked
                   (App.setStatus (fun _ => App.reconnecting) w)) by exact H.
    destruct (closeStream_effect _ H') as (Hto & Hrefs & _).
    unfold timers_tracked, App.setTimeout.
    cbn [App.host App.refs App.timeouts App.reconnectTimerRef].
    rewrite Hto. repeat constructor.
Qed.

Lemma mock_handlers_tracked (e : StreamEvent) (w : App.World) :
  timers_tracked w -> timers_tracked (App.mock_handlers e w).
Proof.
  intros H. destruct e; cbn [App.mock_handlers]; try exact H.
  apply closeStream_tracked. exact H.
Qed.

Lemma mock_handlers_fold_tracked (out : list StreamEvent) :
  forall w, timers_tracked w ->
            timers_tracked (fold_left (fun acc e => App.mock_handlers e acc) out w).
Proof.
  induction out as [|e out IH]; intros w H; [exact H|].
  cbn [fold_left]. apply IH. now apply mock_handlers_tracked.
Qed.

Lemma run_due_tracked (fuel : nat) :
  forall w, timers_tracked w -> timers_tracked (App.run_due fuel w).
Proof.
  induction fuel as [|fuel IH]; intros w H; [exact H|].
  cbn [App.run_due]. destruct (App.next_due (App.host w)) as [e|]; [|exact H].
  apply IH, openStream_tracked.
  unfold timers_tracked in *. cbn.
  rewrite Forall_forall in *. intros x Hx.
  apply H. apply list_elem_of_In in Hx. apply list_elem_of_In.
  now apply List.filter_In in Hx as [Hx _].
Qed.

Lemma step_tracked (w : App.World) (i : App.Input) :
  timers_tracked w -> timers_tracked (App.step w i).
Proof.
  intros H. destruct i; cbn [App.step].
  - unfold App.handleStart.
    destruct (_ || _); [exact H|]. destruct (_ <=? _)%Z; [exact H|].
    apply (closeStream_tracked
             (App.setStatus (fun _ => App.connecting) (App.setError None w))).
    exact H.
  - unfold App.match_created. now apply openStream_tracked.
  - unfold App.mock_match_created. cbn [createMockStream].
    set (w2 := fold_left _ _ _).
    assert (H2 : timers_tracked w2)
      by (apply mock_handlers_fold_tracked; exact H).
    exact H2.
  - exact H.
  - unfold App.source_calls.
    destruct (App.sources (App.host w) !! k) as [src|]; [|exact H].
    destruct (App.es_closed src); [exact H|].
    now apply stream_handlers_tracked.
  - unfold App.mock_ticks.
    destruct (App.mocks (App.host w) !! k) as [s|]; [|exact H].
    destruct (sim_step s t) as [s' out].
    apply mock_handlers_fold_tracked. exact H.
  - destruct (0 <=? dt)%Z; [|exact H].
    unfold App.advance. apply run_due_tracked. exact H.
  - unfold App.resetMatch.
    apply (closeStream_tracked w) in H. exact H.
Qed.

(** Whatever happens to a session from its start, every pending timeout
    is the one its ref holds. *)
Lemma reachable_tracked (inputs : list App.Input) :
  timers_tracked (App.run App.initial_world inputs).
Proof.
  unfold App.run.
  assert (H : timers_tracked App.initial_world) by constructor.
  revert H. generalize App.initial_world.
  induction inputs as [|i inputs IH]; intros w H; [exact H|].
  cbn [fold_left]. apply IH. now apply step_tracked.
Qed.

(** With one timeout pending and tracked, time passing does nothing
    before the timeout is due, and runs [openStream] once when it is. *)
Lemma advance_one_timeout (v : App.View) (t nt : positive) (nw due dt : Z)
    (id : string) (srcs : list App.EventSource) (mks : list Sim) :
  let w := App.mkWorld v (App.mkRefs None (Some t) None)
             (App.mkHost nw nt [App.mkTimeout t due id] srcs mks) in
  ((nw + dt < due)%Z ->
   App.advance dt w
   = App.mkWorld v (App.mkRefs None (Some t) None)
       (App.mkHost (nw + dt) nt [App.mkTimeout t due id] srcs mks))
  /\ ((due <= nw + dt)%Z ->
      App.advance dt w
      = App.mkWorld v (App.mkRefs (Some (length srcs)) None None)
          (App.mkHost (nw + dt) nt [] (srcs ++ [App.mkSource id false]) mks)).
Proof.
  intros w. unfold w, App.advance. cbn [App.host App.timeouts length App.view
    App.refs App.now App.next_timer App.sources App.mocks App.run_due].
  unfold App.next_due. cbn [App.timeouts App.now List.find App.t_due].
  split; intros H.
  - destruct (Z.leb_spec due (nw + dt)); [lia | reflexivity].
  - destruct (Z.leb_spec due (nw + dt)); [|lia].
    unfold App.openStream, App.closeStream, App.clearTimeout, App.new_source.
    cbn -[Pos.eqb]. rewrite Pos.eqb_refl. reflexivity.
Qed.

(** With no timeout pending, time passing changes the clock only. *)
Lemma advance_no_timeout (w : App.World) (dt : Z) :
  App.timeouts (App.host w) = [] ->
  App.advance dt w
  = App.mkWorld (App.view w) (App.refs w)
      (App.mkHost (App.now (App.host w) + dt) (App.next_timer (App.host w))
         [] (App.sources (App.host w)) (App.mocks (App.host w))).
Proof.
  intros H. unfold App.advance. rewrite H. reflexivity.
Qed.

(** C3.  When a session whose current event source is alive (in running,
    connecting or reconnecting, or any other status) receives onError,
    the session machine sets the status to reconnecting, closes the
    current event handle, and leaves exactly one timeout pending, due
    1500 ms later, whose callback reopens the stream for the same
    matchId: before 1500 ms have passed no source is made; when they
    have passed exactly one new source is made, for that matchId, and
    becomes the current one, and no further time makes another.  If stop
    is called during the delay the timeout is cancelled and no source is
    made however long one waits. *)
Theorem reconnect_after_error (w : App.World) (k : nat) (id : string) :
  App.sources (App.host w) !! k = Some (App.mkSource id false) ->
  App.streamRef (App.refs w) = Some k ->
  timers_tracked w ->
  let w1 := App.step w (App.SourceCalls k OnError) in
  App.status (App.view w1) = App.reconnecting
  /\ App.sources (App.host w1)
     = <[k := App.mkSource id true]> (App.sources (App.host w))
  /\ App.streamRef (App.refs w1) = None
  /\ (exists t,
        App.reconnectTimerRef (App.refs w1) = Some t
        /\ App.timeouts (App.host w1)
           = [App.mkTimeout t (App.now (App.host w) + 1500) id])
  /\ (forall dt, (0 <= dt < 1500)%Z ->
        App.sources (App.host (App.step w1 (App.Advance dt)))
        = App.sources (App.host w1)
        /\ App.status (App.view (App.step w1 (App.Advance dt)))
           = App.reconnecting)
  /\ (forall dt, (1500 <= dt)%Z ->
        let w2 := App.step w1 (App.Advance dt) in
        App.sources (App.host w2)
        = App.sources (App.host w1) ++ [App.mkSource id false]
        /\ App.streamRef (App.refs w2) = Some (length (App.sources (App.host w1)))
        /\ App.timeouts (App.host w2) = []
        /\ forall dt', (0 <= dt')%Z ->
             App.sources (App.host (App.step w2 (App.Advance dt')))
             = App.sources (App.host w2))
  /\ (forall dt dt', (0 <= dt < 1500)%Z -> (0 <= dt')%Z ->
        let w3 := App.run w1 [App.Advance dt; App.Stop; App.Advance dt'] in
        App.sources (App.host w3) = App.sources (App.host w1)
        /\ App.timeouts (App.host w3) = []
        /\ App.status (App.view w3) = App.idle).
Proof.
  intros Hsrc Href Htr w1.
  unfold w1. rewrite (onError_effect w k id Hsrc Href Htr). clear w1.
  set (v := App.view (App.setStatus (fun _ => App.reconnecting) w)).
  set (t := App.next_timer (App.host w)).
  set (nw := App.now (App.host w)).
  set (srcs := <[k := App.mkSource id true]> (App.sources (App.host w))).
  set (mks := App.mocks (App.host (App.closeStream w))).
  pose proof (fun dt => advance_one_timeout v t (Pos.succ t) nw (nw + 1500) dt
                          id srcs mks) as Hadv.
  cbv zeta in Hadv.
  split; [reflexivity|]. split; [reflexivity|]. split; [reflexivity|].
  split; [exists t; split; reflexivity|].
  split; [|split].
  - intros dt Hdt. cbn [App.step].
    destruct (Z.leb_spec 0 dt); [|lia].
    rewrite (proj1 (Hadv dt)) by lia. split; reflexivity.
  - intros dt Hdt. cbv zeta. cbn [App.step].
    destruct (Z.leb_spec 0 dt); [|lia].
    rewrite (proj2 (Hadv dt)) by lia.
    split; [reflexivity|]. split; [reflexivity|]. split; [reflexivity|].
    intros dt' Hdt'. destruct (Z.leb_spec 0 dt'); [|lia].
    now rewrite advance_no_timeout.
  - intros dt dt' Hdt Hdt'. cbv zeta.
    cbn [App.run fold_left App.step].
    destruct (Z.leb_spec 0 dt); [|lia].
    destruct (Z.leb_spec 0 dt'); [|lia].
    rewrite (proj1 (Hadv dt)) by lia.
    rewrite advance_no_timeout.
    + cbn -[Pos.eqb]. rewrite ?Pos.eqb_refl. repeat split.
    + cbn -[Pos.eqb]. now rewrite ?Pos.eqb_refl.
Qed.

Lemma reconnect_after_error_witness :
  let w := App.run App.initial_world
             [App.Start "stockfish-16" "lc0-0.30" 300000;
              App.MatchCreated "m1";
              App.SourceCalls 0 (OnMatchStarted "m1" "")] in
  App.status (App.view w) = App.running
  /\ App.sources (App.host w) !! 0 = Some (App.mkSource "m1" false)
  /\ App.streamRef (App.refs w) = Some 0
  /\ timers_tracked w
  /\ let w1 := App.step w (App.SourceCalls 0 OnError) in
     App.status (App.view w1) = App.reconnecting
     /\ App.sources (App.host w1)
        = <[0 := App.mkSource "m1" true]> (App.sources (App.host w))
     /\ App.streamRef (App.refs w1) = None
     /\ (exists t,
           App.reconnectTimerRef (App.refs w1) = Some t
           /\ App.timeouts (App.host w1)
              = [App.mkTimeout t (App.now (App.host w) + 1500) "m1"])
     /\ (forall dt, (0 <= dt < 1500)%Z ->
           App.sources (App.host (App.step w1 (App.Advance dt)))
           = App.sources (App.host w1)
           /\ App.status (App.view (App.step w1 (App.Advance dt)))
              = App.reconnecting)
     /\ (forall dt, (1500 <= dt)%Z ->
           let w2 := App.step w1 (App.Advance dt) in
           App.sources (App.host w2)
           = App.sources (App.host w1) ++ [App.mkSource "m1" false]
           /\ App.streamRef (App.refs w2)
              = Some (length (App.sources (App.host w1)))
           /\ App.timeouts (App.host w2) = []
           /\ forall dt', (0 <= dt')%Z ->
                App.sources (App.host (App.step w2 (App.Advance dt')))
                = App.sources (App.host w2))
     /\ (forall dt dt', (0 <= dt < 1500)%Z -> (0 <= dt')%Z ->
           let w3 := App.run w1 [App.Advance dt; App.Stop; App.Advance dt'] in
           App.sources (App.host w3) = App.sources (App.host w1)
           /\ App.timeouts (App.host w3) = []
           /\ App.status (App.view w3) = App.idle).
Proof.
  intros w. split; [reflexivity|]. split; [reflexivity|].
  split; [reflexivity|]. split; [constructor|].
  apply (reconnect_after_error w 0 "m1"); [reflexivity | reflexivity | constructor].
Defined.

(* ================================================================== *)
(** * Further properties *)
(* ================================================================== *)

(** ** Squares, coordinates and the highlight *)

Lemma coordsToSquare_square (r c : nat) :
  r < 8 -> c < 8 ->
  is_square (coordsToSquare c r) = true
  /\ square_index (coordsToSquare c r) = Some (r, c)
  /\ squareToCoords (coordsToSquare c r)
     = mkCoords (Some (Z.of_nat r)) (Z.of_nat c).
Proof.
  intros Hr Hc.
  do 8 (destruct r as [|r];
        [do 8 (destruct c as [|c];
               [repeat split; vm_compute; reflexivity|]); lia|]).
  lia.
Qed.

(** X1.  The renderer's coordsToSquare and the simulator's
    squareToCoords are inverse to each other on the board: the name made
    for a row and a column inside the board is a square name that
    squareToCoords sends back to that row and column, and the row and
    column squareToCoords gives for a square name make that name again. *)
Theorem coords_roundtrip (r c : nat) (sq : string) :
  (r < 8 -> c < 8 ->
   is_square (coordsToSquare c r) = true
   /\ squareToCoords (coordsToSquare c r)
      = mkCoords (Some (Z.of_nat r)) (Z.of_nat c))
  /\ (is_square sq = true ->
      exists r' c',
        squareToCoords sq = mkCoords (Some (Z.of_nat r')) (Z.of_nat c')
        /\ r' < 8 /\ c' < 8
        /\ coordsToSquare c' r' = sq).
Proof.
  split.
  - intros Hr Hc. destruct (coordsToSquare_square r c Hr Hc) as (H1 & _ & H3).
    now split.
  - intros Hsq.
    destruct (squareToCoords_square sq Hsq) as (r' & c' & Hi & Hr & Hc & E).
    exists r', c'. repeat split; try assumption.
    destruct (coordsToSquare_square r' c' Hr Hc) as (H1 & H2 & _).
    apply square_index_inj; [exact H1 | exact Hsq | congruence].
Qed.

Lemma coords_roundtrip_witness :
  (6 < 8 -> 4 < 8 ->
   is_square (coordsToSquare 4 6) = true
   /\ squareToCoords (coordsToSquare 4 6)
      = mkCoords (Some (Z.of_nat 6)) (Z.of_nat 4))
  /\ (is_square "e2" = true ->
      exists r' c',
        squareToCoords "e2" = mkCoords (Some (Z.of_nat r')) (Z.of_nat c')
        /\ r' < 8 /\ c' < 8
        /\ coordsToSquare c' r' = "e2").
Proof. apply (coords_roundtrip 6 4 "e2"). Defined.

Lemma is_uci_length (uci : string) :
  is_uci uci = true -> 4 <= String.length uci <= 5.
Proof.
  unfold is_uci. intros H.
  apply andb_true_iff in H as [H _]. apply andb_true_iff in H as [H _].
  apply orb_true_iff in H as [H|H]; apply Nat.eqb_eq in H; lia.
Qed.

Lemma uciToSquares_uci (uci : string) :
  is_uci uci = true ->
  uciToSquares (Some uci) = Some (uci_from uci, uci_to uci).
Proof.
  intros H. pose proof (is_uci_length uci H) as Hlen.
  unfold uciToSquares.
  destruct uci as [|c rest]; [cbn in Hlen; lia|].
  cbn [truthy_string negb orb].
  destruct (Nat.ltb_spec (String.length (String c rest)) 4); [lia|].
  reflexivity.
Qed.

(** The test of the highlight, read on coordinates. *)
Lemma square_eqb_coords (sq : string) (r c : nat) :
  is_square sq = true -> r < 8 -> c < 8 ->
  (String.eqb sq (coordsToSquare c r) = true
   <-> square_index sq = Some (r, c)).
Proof.
  intros Hsq Hr Hc.
  destruct (coordsToSquare_square r c Hr Hc) as (H1 & H2 & _).
  split.
  - intros E. apply String.eqb_eq in E. now rewrite E.
  - intros E. apply String.eqb_eq.
    apply square_index_inj; [exact Hsq | exact H1 | congruence].
Qed.

Lemma piece_at_coords (b : Board) (r c : nat) :
  r < 8 -> c < 8 -> piece_at b (coordsToSquare c r) = cell b r c.
Proof.
  intros Hr Hc. unfold piece_at.
  destruct (coordsToSquare_square r c Hr Hc) as (_ & -> & _). reflexivity.
Qed.

(** After a move from an occupied square: the moved piece stands on the
    to square, and the from square, when it is another one, is empty. *)
Lemma applyUciMove_from_to (b : Board) (uci piece : string) :
  board_8x8 b ->
  is_uci uci = true ->
  piece_at b (uci_from uci) = Some piece ->
  truthy_string piece = true ->
  piece_at (fst (applyUciMove b uci)) (uci_to uci)
  = Some (placed_piece piece (uci_promotion uci))
  /\ (uci_from uci <> uci_to uci ->
      piece_at (fst (applyUciMove b uci)) (uci_from uci) = None).
Proof.
  intros Hb Huci Hpiece Htruthy.
  rewrite (applyUciMove_writes b uci piece Hb Huci Hpiece Htruthy).
  destruct (is_uci_parts uci Huci) as (Hfrom & Hto & _).
  fold (uci_from uci) (uci_to uci) in *.
  set (from := uci_from uci) in *. set (to := uci_to uci) in *.
  cbn [fst].
  assert (H1 : board_8x8 (put b from None)) by now apply put_8x8.
  destruct (castling_of piece from to) as [[rook_from rook_to]|] eqn:Ec.
  - destruct (castling_of_squares _ _ _ _ _ Ec) as (Hrf & Hrt & N1 & N2 & N3 & _).
    assert (H2 : board_8x8 (put (put b from None) rook_to
                              (piece_at (put b from None) rook_from)))
      by now apply put_8x8.
    assert (H3 : board_8x8 (put (put (put b from None) rook_to
                                   (piece_at (put b from None) rook_from))
                              rook_from None))
      by now apply put_8x8.
    split.
    + rewrite piece_at_put by assumption. now rewrite String.eqb_refl.
    + intros Hne. rewrite !piece_at_put by assumption.
      destruct (String.eqb_spec from to); [contradiction|].
      destruct (String.eqb_spec from rook_from); [congruence|].
      destruct (String.eqb_spec from rook_to); [congruence|].
      now rewrite String.eqb_refl.
  - split.
    + rewrite piece_at_put by assumption. now rewrite String.eqb_refl.
    + intros Hne. rewrite !piece_at_put by assumption.
      destruct (String.eqb_spec from to); [contradiction|].
      now rewrite String.eqb_refl.
Qed.

(** X2.  The two highlighted cells are the cells of the move: on an 8x8
    board, for a move code whose from square is occupied, the cell the
    renderer marks as [to] is the one cell whose coordinates are those
    of the to square, and after applyUciMove it holds the moved piece
    (or its promotion); the cell marked as [from] is the one cell of the
    from square, and it is empty after the move unless it is the to cell
    as well. *)
Theorem highlight_matches_move (b : Board) (uci piece : string) (r c : nat) :
  is_8x8 b = true ->
  is_uci uci = true ->
  piece_at b (uci_from uci) = Some piece ->
  truthy_string piece = true ->
  r < 8 -> c < 8 ->
  (isTo (Some uci) c r = true <-> square_index (uci_to uci) = Some (r, c))
  /\ (isFrom (Some uci) c r = true <-> square_index (uci_from uci) = Some (r, c))
  /\ (isTo (Some uci) c r = true ->
      cell (fst (applyUciMove b uci)) r c
      = Some (placed_piece piece (uci_promotion uci)))
  /\ (isFrom (Some uci) c r = true -> isTo (Some uci) c r = false ->
      cell (fst (applyUciMove b uci)) r c = None).
Proof.
  intros H8 Huci Hpiece Htruthy Hr Hc. apply is_8x8_iff in H8.
  destruct (is_uci_parts uci Huci) as (Hfrom & Hto & _).
  fold (uci_from uci) (uci_to uci) in *.
  destruct (applyUciMove_from_to b uci piece H8 Huci Hpiece Htruthy)
    as [Hat_to Hat_from].
  unfold isTo, isFrom. rewrite (uciToSquares_uci uci Huci).
  split; [now apply square_eqb_coords|].
  split; [now apply square_eqb_coords|].
  split.
  - intros E. apply String.eqb_eq in E.
    rewrite <- (piece_at_coords _ r c Hr Hc), <- E. exact Hat_to.
  - intros E E'. apply String.eqb_eq in E. apply eqb_neq in E'.
    rewrite <- (piece_at_coords _ r c Hr Hc), <- E.
    apply Hat_from. congruence.
Qed.

Lemma highlight_matches_move_witness :
  is_8x8 createStartBoard = true
  /\ is_uci "e2e4" = true
  /\ piece_at createStartBoard (uci_from "e2e4") = Some "P"
  /\ truthy_string "P" = true
  /\ 4 < 8 /\ 4 < 8
  /\ (isTo (Some "e2e4") 4 4 = true
      <-> square_index (uci_to "e2e4") = Some (4, 4))
  /\ (isFrom (Some "e2e4") 4 4 = true
      <-> square_index (uci_from "e2e4") = Some (4, 4))
  /\ (isTo (Some "e2e4") 4 4 = true ->
      cell (fst (applyUciMove createStartBoard "e2e4")) 4 4
      = Some (placed_piece "P" (uci_promotion "e2e4")))
  /\ (isFrom (Some "e2e4") 4 4 = true -> isTo (Some "e2e4") 4 4 = false ->
      cell (fst (applyUciMove createStartBoard "e2e4")) 4 4 = None).
Proof.
  do 4 (split; [reflexivity|]). split; [lia|]. split; [lia|].
  apply (highlight_matches_move createStartBoard "e2e4" "P" 4 4);
    first [reflexivity | lia].
Defined.

(** ** The clock display and the time control *)

Lemma padStart_two_digits (n : nat) :
  n < 60 ->
  padStart 2 "0" (String_of_nat n)
  = String (digit_char (n / 10)) (String (digit_char (n mod 10)) "").
Proof.
  intros H. do 60 (destruct n as [|n]; [vm_compute; reflexivity|]). lia.
Qed.

(** ** Divisions of the clock display *)

Lemma round_half_even_bounds (n d : Z) :
  (0 <= n)%Z -> (0 < d)%Z ->
  (round_half_even n d = n / d
   \/ (round_half_even n d = n / d + 1 /\ d <= 2 * (n mod d)))%Z.
Proof.
  intros Hn Hd. unfold round_half_even.
  destruct (Z.ltb_spec (2 * (n mod d)) d); [now left|].
  destruct (Z.ltb_spec d (2 * (n mod d))); [right; split; [reflexivity | lia]|].
  destruct (Z.even (n / d)); [now left | right; split; [reflexivity | lia]].
Qed.

(** With a grid of [P] points per unit, finer than half the divisor,
    rounding the quotient to the grid never reaches the next integer. *)
Lemma floor_rounded (a b P : Z) :
  (0 <= a)%Z -> (0 < b)%Z -> (0 < P)%Z -> (b < 2 * P)%Z ->
  (round_half_even (a * P) b / P = a / b)%Z.
Proof.
  intros Ha Hb HP HbP.
  pose proof (Z.div_mod a b ltac:(lia)) as Ea.
  pose proof (Z.mod_pos_bound a b Hb) as Ra.
  pose proof (Z.div_mod (a * P) b ltac:(lia)) as Eq.
  pose proof (Z.mod_pos_bound (a * P) b Hb) as Rq.
  pose proof (round_half_even_bounds (a * P) b ltac:(nia) Hb) as Hm.
  assert (Hn : (0 <= a / b)%Z) by (apply Z.div_pos; lia).
  remember (a / b)%Z as n. remember (a mod b)%Z as r.
  remember (a * P / b)%Z as q0. remember (a * P mod b)%Z as r0.
  remember (round_half_even (a * P) b) as m.
  assert (Hlo : (n * P <= q0)%Z) by nia.
  assert (Hhi : (q0 < (n + 1) * P)%Z) by nia.
  assert (Hm' : (n * P <= m < (n + 1) * P)%Z).
  { destruct Hm as [-> | [-> Hr]]; [lia|].
    split; [lia|].
    destruct (Z_lt_ge_dec (q0 + 1) ((n + 1) * P)) as [Hlt|Hge]; [exact Hlt|].
    exfalso. assert (Hq : (q0 = (n + 1) * P - 1)%Z) by lia. nia. }
  symmetry. apply Z.div_unique with (r := (m - n * P)%Z); [left|]; lia.
Qed.

(** On integers below 2^53 the rounded division followed by
    [Math.floor] is the floor division. *)
Lemma Number_div_floor (a b : Z) :
  (0 <= a < 2 ^ 53)%Z -> (0 < b)%Z ->
  Math_floor (Number_div a b) = (a / b)%Z.
Proof.
  intros [Ha Hlt] Hb. unfold Number_div.
  rewrite (Z.abs_eq a Ha), (Z.abs_eq b) by lia.
  destruct (Z.eqb_spec a 0) as [->|Hne]; [now rewrite Z.div_0_l by lia|].
  rewrite (Z.sgn_pos a), (Z.sgn_pos b) by lia.
  assert (Hgrid : forall e : Z,
             ((0 <= e /\ 2 ^ e * b <= a)
              \/ exists j, e = - j /\ 0 < j /\ b <= a * 2 ^ j)%Z ->
             (e <= 52)%Z ->
             Math_floor
               (mkDyadic
                  (1 * 1 * (if (0 <=? e - 52)%Z
                            then round_half_even a (b * 2 ^ (e - 52))
                            else round_half_even (a * 2 ^ (- (e - 52))) b))
                  (e - 52))
             = (a / b)%Z).
  { intros e He Hle. unfold Math_floor. cbn [mantissa exponent].
    assert (HP : (0 < 2 ^ (52 - e))%Z) by (apply Z.pow_pos_nonneg; lia).
    assert (HbP : (b < 2 * 2 ^ (52 - e))%Z).
    { destruct He as [[Hpos He] | (j & -> & Hj & He)].
      - assert (E : (2 ^ (52 - e) * 2 ^ e = 2 ^ 52)%Z)
          by (rewrite <- Z.pow_add_r by lia; f_equal; lia).
        assert (0 < 2 ^ e)%Z by (apply Z.pow_pos_nonneg; lia).
        change (2 ^ 53)%Z with (2 * 2 ^ 52)%Z in Hlt. nia.
      - replace (52 - - j)%Z with (52 + j)%Z by lia.
        rewrite Z.pow_add_r by lia.
        assert (0 < 2 ^ j)%Z by (apply Z.pow_pos_nonneg; lia).
        change (2 ^ 53)%Z with (2 * 2 ^ 52)%Z in Hlt. nia. }
    destruct (Z.leb_spec 0 (e - 52)) as [Hk|Hk].
    - assert (e = 52)%Z by lia. subst e.
      change (2 ^ (52 - 52))%Z with 1%Z in *.
      change (2 ^ (52 - 52))%Z with 1%Z. rewrite !Z.mul_1_l, !Z.mul_1_r.
      rewrite <- (Z.mul_1_r a) at 1.
      rewrite <- (Z.div_1_r (round_half_even (a * 1) b)).
      apply floor_rounded; lia.
    - replace (- (e - 52))%Z with (52 - e)%Z by lia.
      rewrite !Z.mul_1_l. apply floor_rounded; lia. }
  destruct (Z.leb_spec b a) as [Hba|Hba].
  - assert (Hq : (0 < a / b)%Z) by (apply Z.div_str_pos; lia).
    pose proof (Z.log2_spec (a / b) Hq) as [Hlo _].
    pose proof (Z.mul_div_le a b Hb) as Hmul.
    apply Hgrid.
    + left. split; [apply Z.log2_nonneg | nia].
    + assert (Z.log2 (a / b) < 53)%Z; [|lia].
      apply Z.log2_lt_pow2; [exact Hq|].
      assert (a / b <= a)%Z by (apply Z.div_le_upper_bound; nia). lia.
  - set (c := ((b + a - 1) / a)%Z).
    assert (Hc : (b <= a * c)%Z).
    { pose proof (Z.div_mod (b + a - 1) a ltac:(lia)) as E.
      pose proof (Z.mod_pos_bound (b + a - 1) a ltac:(lia)). fold c in E. lia. }
    assert (Hc2 : (2 <= c)%Z) by (unfold c; apply Z.div_le_lower_bound; lia).
    assert (Hc1 : (1 < c)%Z) by lia.
    pose proof (Z.log2_up_spec c Hc1) as [_ Hup].
    assert (Hj : (0 < Z.log2_up c)%Z) by (apply Z.log2_up_pos; exact Hc1).
    apply Hgrid; [|lia].
    right. exists (Z.log2_up c). split; [reflexivity|]. split; [exact Hj|]. nia.
Qed.

Lemma round_half_even_nonneg (n d : Z) :
  (0 <= n)%Z -> (0 < d)%Z -> (0 <= round_half_even n d)%Z.
Proof.
  intros Hn Hd. pose proof (Z.div_pos n d Hn Hd).
  destruct (round_half_even_bounds n d Hn Hd) as [-> | [-> _]]; lia.
Qed.

(** The quotient of a negative number by a positive one is not above
    zero, however it is rounded. *)
Lemma Number_div_negative (a b : Z) :
  (a < 0)%Z -> (0 < b)%Z -> (Math_floor (Number_div a b) <= 0)%Z.
Proof.
  intros Ha Hb. unfold Number_div.
  rewrite (Z.abs_neq a), (Z.abs_eq b) by lia.
  destruct (Z.eqb_spec (- a) 0); [lia|].
  rewrite (Z.sgn_neg a), (Z.sgn_pos b) by lia.
  set (e := if (b <=? - a)%Z then _ else _).
  unfold Math_floor. cbn [mantissa exponent].
  destruct (Z.leb_spec 0 (e - 52)) as [Hk|Hk].
  - assert (0 < 2 ^ (e - 52))%Z by (apply Z.pow_pos_nonneg; lia).
    pose proof (round_half_even_nonneg (- a) (b * 2 ^ (e - 52))
                  ltac:(lia) ltac:(nia)).
    nia.
  - assert (0 < 2 ^ (- (e - 52)))%Z by (apply Z.pow_pos_nonneg; lia).
    pose proof (round_half_even_nonneg (- a * 2 ^ (- (e - 52))) b
                  ltac:(nia) Hb).
    apply Z.div_le_upper_bound; [lia | nia].
Qed.

(** For a safe integer the seconds and the minutes of formatClock are
    those of the floor divisions. *)
Lemma formatClock_exact (ms : Z) :
  is_safe_integer ms = true ->
  formatClock ms
  = String_of_nat (Z.to_nat (Z.max 0 (ms / 1000)) / 60) +:+ ":"
    +:+ padStart 2 "0" (String_of_nat (Z.to_nat (Z.max 0 (ms / 1000)) mod 60)).
Proof.
  unfold is_safe_integer. intros H. apply andb_true_iff in H as [H1 H2].
  apply Z.leb_le in H1, H2. unfold formatClock.
  assert (Et : Z.max 0 (Math_floor (Number_div ms 1000))
               = Z.max 0 (ms / 1000)).
  { destruct (Z_lt_ge_dec ms 0) as [Hneg|Hpos].
    - pose proof (Number_div_negative ms 1000 Hneg ltac:(lia)).
      assert (ms / 1000 < 0)%Z by (apply Z.div_lt_upper_bound; lia). lia.
    - rewrite Number_div_floor by lia. reflexivity. }
  rewrite Et. set (t := Z.max 0 (ms / 1000)).
  assert (Ht : (0 <= t < 2 ^ 53)%Z).
  { unfold t. split; [lia|].
    assert (ms / 1000 <= ms \/ ms < 0)%Z.
    { destruct (Z_lt_ge_dec ms 0); [now right | left].
      apply Z.div_le_upper_bound; lia. }
    assert (ms < 0 -> ms / 1000 < 0)%Z
      by (intros; apply Z.div_lt_upper_bound; lia).
    lia. }
  rewrite Number_div_floor by lia.
  rewrite Z2Nat.inj_div, Z2Nat.inj_mod by lia.
  reflexivity.
Qed.

(** Beyond the safe integers the divisions round: 5000000000000021504
    is a double, and its thousandth rounds up to a whole number of
    seconds that the exact quotient does not reach. *)
Example formatClock_rounds :
  is_double 5000000000000021504 = true
  /\ Math_floor (Number_div 5000000000000021504 1000) = 5000000000000022%Z
  /\ (5000000000000021504 / 1000 = 5000000000000021)%Z.
Proof. repeat split; vm_compute; reflexivity. Qed.

(** X3.  For every number of milliseconds that is a safe integer (an
    integer of magnitude at most 2^53 - 1), formatClock shows the whole
    seconds left, never less than zero, as minutes, a colon and exactly
    two digits of seconds below 60: a negative or sub-second value shows
    as [0:00], and minutes are not capped at 59. *)
Theorem formatClock_minutes_seconds (ms : Z) :
  is_safe_integer ms = true ->
  exists m s : nat,
    s < 60
    /\ Z.of_nat (60 * m + s) = Z.max 0 (ms / 1000)
    /\ formatClock ms
       = String_of_nat m +:+ ":"
         +:+ String (digit_char (s / 10)) (String (digit_char (s mod 10)) "")
    /\ ((ms < 1000)%Z -> formatClock ms = "0:00").
Proof.
  intros Hsafe. rewrite (formatClock_exact ms Hsafe).
  set (t := Z.to_nat (Z.max 0 (ms / 1000))).
  exists (t / 60), (t mod 60).
  assert (Hs : t mod 60 < 60) by (apply Nat.mod_upper_bound; lia).
  split; [exact Hs|]. split.
  - rewrite <- Nat.div_mod_eq. unfold t. lia.
  - split.
    + now rewrite padStart_two_digits.
    + intros Hlt.
      assert (E : t = 0).
      { unfold t.
        assert (ms / 1000 < 1)%Z by (apply Z.div_lt_upper_bound; lia). lia. }
      rewrite E. reflexivity.
Qed.

Lemma formatClock_minutes_seconds_witness :
  is_safe_integer 754321 = true
  /\ exists m s : nat,
       s < 60
       /\ Z.of_nat (60 * m + s) = Z.max 0 (754321 / 1000)
       /\ formatClock 754321
          = String_of_nat m +:+ ":"
            +:+ String (digit_char (s / 10)) (String (digit_char (s mod 10)) "")
       /\ ((754321 < 1000)%Z -> formatClock 754321 = "0:00").
Proof.
  split; [reflexivity|].
  apply (formatClock_minutes_seconds 754321). reflexivity.
Defined.

(** ** The precondition checks of handleStart *)

(** X4.  The two precondition checks of handleStart, in their order,
    for an integral time control.  When an engine is not selected,
    handleStart only sets the error text that asks for both engines;
    when both are selected and the time
    control is not positive, it only sets the error text about the time
    control; in both cases status, position, move list, clocks, result,
    handles and the host's timers and sources stay as they are.
    Otherwise it clears the error, sets the status to connecting,
    empties the move list and the result, drops all handles and leaves
    no timeout pending; the position, the clocks, the last move and the
    match id are not reset. *)
Theorem handleStart_preconditions (whiteEngineId blackEngineId : string)
    (initialMs : Z) (w : App.World) :
  let w' := App.handleStart whiteEngineId blackEngineId initialMs w in
  (whiteEngineId = "" \/ blackEngineId = "" ->
   App.errorText (App.view w')
   = Some "Select both engines to start a match."
   /\ App.setError None w' = App.setError None w)
  /\ (whiteEngineId <> "" -> blackEngineId <> "" -> (initialMs <= 0)%Z ->
      App.errorText (App.view w')
      = Some "Time control must be greater than 0 seconds."
      /\ App.setError None w' = App.setError None w)
  /\ (whiteEngineId <> "" -> blackEngineId <> "" -> (0 < initialMs)%Z ->
      timers_tracked w ->
      App.status (App.view w') = App.connecting
      /\ App.errorText (App.view w') = None
      /\ App.pgn (App.view w') = "" /\ App.result (App.view w') = None
      /\ App.refs w' = App.mkRefs None None None
      /\ App.timeouts (App.host w') = []
      /\ App.fen (App.view w') = App.fen (App.view w)
      /\ App.clocks (App.view w') = App.clocks (App.view w)
      /\ App.lastMoveUci (App.view w') = App.lastMoveUci (App.view w)
      /\ App.matchId (App.view w') = App.matchId (App.view w)).
Proof.
  intros w'. split; [|split].
  - intros H. unfold w', App.handleStart.
    destruct whiteEngineId as [|a s1]; [split; reflexivity|].
    destruct blackEngineId as [|a' s2]; [split; reflexivity|].
    destruct H as [H|H]; discriminate H.
  - intros Hw Hb Hle. unfold w', App.handleStart.
    destruct whiteEngineId as [|a s1]; [contradiction|].
    destruct blackEngineId as [|a' s2]; [contradiction|].
    cbn [truthy_string negb orb].
    destruct (Z.leb_spec initialMs 0); [|lia]. split; reflexivity.
  - intros Hw Hb Hpos Htr. unfold w', App.handleStart.
    destruct whiteEngineId as [|a s1]; [contradiction|].
    destruct blackEngineId as [|a' s2]; [contradiction|].
    cbn [truthy_string negb orb].
    destruct (Z.leb_spec initialMs 0); [lia|].
    assert (Htr' : timers_tracked
                     (App.setStatus (fun _ => App.connecting)
                        (App.setError None w))) by exact Htr.
    destruct (closeStream_effect _ Htr') as (Hto & Hrefs & Hview & _).
    cbn [App.setResult App.setPgn App.view App.refs App.host App.status
         App.errorText App.pgn App.result App.fen App.clocks
         App.lastMoveUci App.matchId].
    rewrite Hview, Hrefs, Hto. cbn. repeat split.
Qed.

Lemma handleStart_preconditions_witness :
  let w' := App.handleStart "stockfish-16" "lc0-0.30" 0 App.initial_world in
  "stockfish-16" <> "" /\ "lc0-0.30" <> "" /\ (0 <= 0)%Z
  /\ App.errorText (App.view w')
     = Some "Time control must be greater than 0 seconds."
  /\ App.setError None w' = App.setError None App.initial_world.
Proof.
  intros w'. split; [discriminate|]. split; [discriminate|]. split; [lia|].
  apply (handleStart_preconditions "stockfish-16" "lc0-0.30" 0
           App.initial_world); [discriminate | discriminate | lia].
Defined.

(** ** The move list of any text *)

Lemma split_ws_not_nil (in_sep : bool) (s : string) : split_ws in_sep s <> [].
Proof.
  revert in_sep. induction s as [|c s IH]; intros in_sep; [discriminate|].
  cbn [split_ws]. destruct (is_space c).
  - destruct in_sep; [apply IH | discriminate].
  - specialize (IH false). destruct (split_ws false s); [contradiction | discriminate].
Qed.

(** No piece of a cut at white space holds white space. *)
Lemma split_ws_no_space (s : string) :
  forall in_sep,
    Forall (fun t => string_forall (fun c => negb (is_space c)) t = true)
      (split_ws in_sep s).
Proof.
  induction s as [|c s IH]; intros in_sep; [repeat constructor|].
  cbn [split_ws]. destruct (is_space c) eqn:Ec.
  - destruct in_sep; [apply IH | constructor; [reflexivity | apply IH]].
  - specialize (IH false). pose proof (split_ws_not_nil false s) as Hne.
    destruct (split_ws false s) as [|h t]; [contradiction|].
    inversion IH as [|? ? Hh Ht]; subst.
    constructor; [|exact Ht]. cbn [string_forall]. now rewrite Ec, Hh.
Qed.

Lemma kept_tokens_entries (pgn : string) :
  Forall (fun t => is_move_entry t = true)
    (List.filter keep_token (pgn_tokens pgn)).
Proof.
  apply Forall_forall. intros t Ht.
  apply list_elem_of_In, List.filter_In in Ht as [Ht Hkeep].
  unfold pgn_tokens in Ht. apply List.filter_In in Ht as [Ht Htruthy].
  unfold is_move_entry. rewrite Htruthy, Hkeep. cbn [andb].
  pose proof (split_ws_no_space
                (strip_delimited "(" ")" false
                   (strip_delimited "{" "}" false pgn)) false) as H.
  rewrite Forall_forall in H. apply H, list_elem_of_In, Ht.
Qed.

Lemma is_move_entry_truthy (t : string) :
  is_move_entry t = true -> truthy_string t = true /\ t <> "".
Proof.
  unfold is_move_entry. intros H.
  apply andb_true_iff in H as [H _]. apply andb_true_iff in H as [H _].
  split; [exact H|]. now destruct t.
Qed.

(** Pairing tokens that are all non-empty loses nothing: the rows give
    the tokens back in order, every slot but possibly the last black one
    is filled, and the rows are numbered from [n] on. *)
Lemma pair_rows_entries (moves : list string) :
  Forall (fun t => is_move_entry t = true) moves ->
  forall n,
    flat_map row_moves (pair_rows n moves) = moves
    /\ map moveNumber (pair_rows n moves) = seq n (length (pair_rows n moves))
    /\ Forall (fun r => is_move_entry (white r) = true
                        /\ (black r = "" \/ is_move_entry (black r) = true))
         (pair_rows n moves)
    /\ (forall i r, pair_rows n moves !! i = Some r -> black r = "" ->
                    S i = length (pair_rows n moves)).
Proof.
  induction moves as [moves IH] using (induction_ltof1 _ (@length string)).
  unfold ltof in IH. intros H n.
  destruct moves as [|w [|b rest]].
  - repeat split; try constructor. intros i r Hi. discriminate.
  - inversion H as [|? ? Hw _]; subst.
    cbn [pair_rows]. repeat split.
    + repeat constructor; cbn; auto.
    + intros [|i] r Hi _; [reflexivity | discriminate].
  - inversion H as [|? ? Hw H']; subst. inversion H' as [|? ? Hb Hrest]; subst.
    destruct (IH rest ltac:(simpl; lia) Hrest (S n)) as (H1 & H2 & H3 & H4).
    destruct (is_move_entry_truthy b Hb) as [Htb Hneb].
    cbn [pair_rows]. cbn [flat_map map length seq app].
    unfold row_moves at 1. cbn [white black moveNumber].
    rewrite Htb, H1, H2. cbn [app]. repeat split.
    + constructor; [|exact H3]. cbn. auto.
    + intros [|i] r Hi Hblack.
      * cbn in Hi. injection Hi as <-. cbn in Hblack. contradiction.
      * cbn in Hi. f_equal. now apply (H4 i r).
Qed.

(** X5.  For every text whatsoever, the rows parsePgnMoves returns are
    numbered 1, 2, ... without a gap; read row after row, white before
    black, they give exactly the tokens the filter kept, in order; every
    white slot holds a move entry (non-empty, free of white space,
    neither a move number nor a result); and a black slot is empty in
    the last row only. *)
Theorem parsePgnMoves_any_text (pgn : string) :
  map moveNumber (parsePgnMoves pgn) = seq 1 (length (parsePgnMoves pgn))
  /\ flat_map row_moves (parsePgnMoves pgn)
     = List.filter keep_token (pgn_tokens pgn)
  /\ Forall (fun r => is_move_entry (white r) = true
                      /\ (black r = "" \/ is_move_entry (black r) = true))
       (parsePgnMoves pgn)
  /\ (forall i r, parsePgnMoves pgn !! i = Some r -> black r = "" ->
                  S i = length (parsePgnMoves pgn)).
Proof.
  unfold parsePgnMoves.
  destruct (pair_rows_entries _ (kept_tokens_entries pgn) 1)
    as (H1 & H2 & H3 & H4).
  repeat split; assumption.
Qed.

Lemma parsePgnMoves_any_text_witness :
  parsePgnMoves "1. e4 c5 2. Nf3" !! 1 = Some (mkRow 2 "Nf3" "")
  /\ 2 = length (parsePgnMoves "1. e4 c5 2. Nf3").
Proof.
  split; [reflexivity|].
  apply (proj2 (proj2 (proj2 (parsePgnMoves_any_text "1. e4 c5 2. Nf3")))
           1 (mkRow 2 "Nf3" "")); reflexivity.
Defined.

(** ** Annotations never reach the rows *)

(** Stripping only deletes characters. *)
Lemma contains_strip (open close c : ascii) (s : string) :
  forall inside,
    contains c (strip_delimited open close inside s) = true ->
    contains c s = true.
Proof.
  induction s as [|x s IH]; intros inside; [easy|].
  cbn [strip_delimited contains]. destruct inside.
  - intros H. apply IH in H. rewrite H. apply orb_true_r.
  - destruct (Ascii.eqb x open && contains close s).
    + intros H. apply IH in H. rewrite H. apply orb_true_r.
    + cbn [contains]. intros H. apply orb_true_iff in H as [H|H].
      * now rewrite H.
      * apply IH in H. rewrite H. apply orb_true_r.
Qed.

Lemma has_block_strip_other (open close o c : ascii) (s : string) :
  forall inside,
    has_block o c (strip_delimited open close inside s) = true ->
    has_block o c s = true.
Proof.
  induction s as [|x s IH]; intros inside; [easy|].
  cbn [strip_delimited has_block]. destruct inside.
  - intros H. apply IH in H. rewrite H. apply orb_true_r.
  - destruct (Ascii.eqb x open && contains close s).
    + intros H. apply IH in H. rewrite H. apply orb_true_r.
    + cbn [has_block]. intros H. apply orb_true_iff in H as [H|H].
      * apply andb_true_iff in H as [Hx Hc].
        apply contains_strip in Hc. now rewrite Hx, Hc.
      * apply IH in H. rewrite H. apply orb_true_r.
Qed.

(** After a pass, no opening delimiter is followed by a closing one. *)
Lemma has_block_strip (open close : ascii) (s : string) :
  forall inside,
    has_block open close (strip_delimited open close inside s) = false.
Proof.
  induction s as [|x s IH]; intros inside; [reflexivity|].
  cbn [strip_delimited]. destruct inside; [apply IH|].
  destruct (Ascii.eqb x open) eqn:Ex; cbn [andb].
  - destruct (contains close s) eqn:Ec; [apply IH|].
    cbn [has_block]. rewrite Ex, IH. cbn [andb orb].
    destruct (contains close (strip_delimited open close false s)) eqn:E;
      [|reflexivity].
    apply contains_strip in E. congruence.
  - cbn [has_block]. now rewrite Ex, IH.
Qed.

(** A piece of a cut at white space is a part of the text. *)
Lemma split_ws_parts (o c : ascii) (s : string) :
  forall in_sep,
    Forall (fun t => (contains c t = true -> contains c s = true)
                     /\ (has_block o c t = true -> has_block o c s = true))
      (split_ws in_sep s).
Proof.
  induction s as [|x s IH]; intros in_sep.
  - repeat constructor; easy.
  - cbn [split_ws]. destruct (is_space x).
    + assert (Hrest : Forall (fun t => (contains c t = true ->
                                         contains c (String x s) = true)
                                        /\ (has_block o c t = true ->
                                            has_block o c (String x s) = true))
                        (split_ws true s)).
      { eapply Forall_impl; [apply (IH true)|].
        intros t [H1 H2]. cbn [contains has_block]. split; intros H.
        - rewrite (H1 H). apply orb_true_r.
        - rewrite (H2 H). apply orb_true_r. }
      destruct in_sep; [exact Hrest|].
      constructor; [split; discriminate | exact Hrest].
    + specialize (IH false). pose proof (split_ws_not_nil false s) as Hne.
      destruct (split_ws false s) as [|h t]; [contradiction|].
      inversion IH as [|? ? [Hh1 Hh2] Ht]; subst.
      constructor.
      * cbn [contains has_block]. split; intros H.
        -- apply orb_true_iff in H as [H|H]; [now rewrite H|].
           rewrite (Hh1 H). apply orb_true_r.
        -- apply orb_true_iff in H as [H|H].
           ++ apply andb_true_iff in H as [Hx Hc]. now rewrite Hx, (Hh1 Hc).
           ++ rewrite (Hh2 H). apply orb_true_r.
      * eapply Forall_impl; [exact Ht|].
        intros u [H1 H2]. cbn [contains has_block]. split; intros H.
        -- rewrite (H1 H). apply orb_true_r.
        -- rewrite (H2 H). apply orb_true_r.
Qed.

Lemma pgn_tokens_no_block (pgn t : string) :
  In t (pgn_tokens pgn) ->
  has_block "{" "}" t = false /\ has_block "(" ")" t = false.
Proof.
  unfold pgn_tokens. intros H. apply List.filter_In in H as [H _].
  set (s1 := strip_delimited "{" "}" false pgn) in *.
  set (s2 := strip_delimited "(" ")" false s1) in *.
  split.
  - destruct (has_block "{" "}" t) eqn:E; [|reflexivity].
    pose proof (split_ws_parts "{" "}" s2 false) as Hp.
    rewrite Forall_forall in Hp.
    destruct (Hp t (proj2 (list_elem_of_In _ _) H)) as [_ Hb].
    specialize (Hb E). unfold s2 in Hb.
    apply has_block_strip_other in Hb. unfold s1 in Hb.
    now rewrite has_block_strip in Hb.
  - destruct (has_block "(" ")" t) eqn:E; [|reflexivity].
    pose proof (split_ws_parts "(" ")" s2 false) as Hp.
    rewrite Forall_forall in Hp.
    destruct (Hp t (proj2 (list_elem_of_In _ _) H)) as [_ Hb].
    specialize (Hb E). unfold s2 in Hb.
    now rewrite has_block_strip in Hb.
Qed.

Lemma pair_rows_entries_in (moves : list string) :
  forall n e, In e (row_entries (pair_rows n moves)) -> e = "" \/ In e moves.
Proof.
  induction moves as [moves IH] using (induction_ltof1 _ (@length string)).
  unfold ltof in IH. intros n e.
  destruct moves as [|w [|b rest]]; cbn [pair_rows row_entries flat_map app
                                         white black In].
  - easy.
  - intros [<-|[<-|[]]]; auto.
  - intros [<-|[<-|H]]; auto.
    apply IH in H; [|simpl; lia]. destruct H; auto.
Qed.

(** X6.  For every text whatsoever, no slot of a row holds a complete
    annotation: no entry has an opening brace with a closing brace after
    it, nor an opening parenthesis with a closing parenthesis after it.
    (An opening delimiter that is never closed is not an annotation and
    stays in the text.) *)
Theorem parsePgnMoves_no_annotation (pgn entry : string) :
  In entry (row_entries (parsePgnMoves pgn)) ->
  has_block "{" "}" entry = false /\ has_block "(" ")" entry = false.
Proof.
  unfold parsePgnMoves. intros H.
  apply pair_rows_entries_in in H as [-> | H]; [now split|].
  apply List.filter_In in H as [H _]. exact (pgn_tokens_no_block pgn entry H).
Qed.

Lemma parsePgnMoves_no_annotation_witness :
  In "{open" (row_entries (parsePgnMoves "1. e4 {a}{b c5 {open 2. Nf3"))
  /\ has_block "{" "}" "{open" = false
  /\ has_block "(" ")" "{open" = false.
Proof.
  assert (H : In "{open"
                (row_entries (parsePgnMoves "1. e4 {a}{b c5 {open 2. Nf3"))).
  { vm_compute. tauto. }
  split; [exact H|].
  exact (parsePgnMoves_no_annotation "1. e4 {a}{b c5 {open 2. Nf3" "{open" H).
Defined.

(** ** The serializer's text is a valid placement *)

Lemma string_forall_rank_loop (p q : ascii -> bool) (rank : list Square) :
  (forall c, p c = true -> q c = true) ->
  (forall n, 1 <= n <= 8 -> string_forall q (String_of_nat n) = true) ->
  forallb (cell_ok p) rank = true ->
  forall (empties : nat) (line : string),
    empties + length rank <= 8 ->
    string_forall q line = true ->
    string_forall q (rank_loop rank empties line) = true.
Proof.
  intros Hpq Hdig. induction rank as [|sq rank IH];
    intros Hok empties line Hlen Hline.
  - cbn [rank_loop length] in *.
    destruct (Nat.ltb_spec 0 empties); [|exact Hline].
    rewrite string_forall_app, Hline, Hdig by lia. reflexivity.
  - cbn [forallb length] in *.
    apply andb_true_iff in Hok as [Hsq Hrest].
    destruct (cell_ok_inv p sq Hsq) as [-> | (d & -> & Hpd)].
    + cbn [rank_loop]. apply IH; auto. lia.
    + cbn [rank_loop truthy_string]. apply IH; auto; [simpl; lia|].
      rewrite string_forall_app. cbn [string_forall].
      rewrite (Hpq d Hpd). cbn [andb]. rewrite andb_true_r.
      destruct (Nat.ltb_spec 0 empties); [|exact Hline].
      rewrite string_forall_app, Hline, Hdig by lia. reflexivity.
Qed.

Lemma digits_1_8_placement (n : nat) :
  1 <= n <= 8 ->
  string_forall (fun c => is_digit_1_8 c || is_piece_letter c)
    (String_of_nat n) = true.
Proof.
  intros [H1 H8].
  do 9 (destruct n as [|n]; [first [lia | reflexivity]|]). lia.
Qed.

Lemma piece_letter_safe (c : ascii) :
  is_piece_letter c = true -> placement_safe_char c = true.
Proof.
  intros H. destruct (is_piece_letter_cases c H) as (_ & H1 & H2 & H3).
  unfold placement_safe_char, claimed_piece_char. now rewrite H1, H2, H3.
Qed.

Lemma cells_ok_impl (p q : ascii -> bool) (b : Board) :
  (forall c, p c = true -> q c = true) ->
  cells_ok p b = true -> cells_ok q b = true.
Proof.
  intros Hpq. unfold cells_ok. rewrite !forallb_forall. intros H r Hr.
  specialize (H r Hr). rewrite forallb_forall in *. intros sq Hsq.
  specialize (H sq Hsq). destruct sq as [[|c [|d s]]|]; cbn in *; auto.
Qed.

(** X7.  The text boardToPlacement writes for an 8x8 board whose pieces
    are the twelve piece letters is always a valid placement: 8 ranks
    separated by [/], each made of piece letters and digits 1-8 and
    summing to exactly 8 squares. *)
Theorem boardToPlacement_valid (b : Board) :
  is_8x8 b = true ->
  cells_ok is_piece_letter b = true ->
  valid_placement (boardToPlacement b) = true
  /\ split_on "/" (boardToPlacement b) = map rank_line b.
Proof.
  intros H8 Hok. apply is_8x8_inv in H8 as [Hrows Hcols].
  pose proof (cells_ok_impl _ _ b piece_letter_safe Hok) as Hsafe.
  destruct (boardToPlacement_lines b Hcols Hsafe) as (Hparse & Hslash & _).
  assert (Hne : map rank_line b <> []).
  { destruct b; [discriminate Hrows | discriminate]. }
  assert (Hsplit : split_on "/" (boardToPlacement b) = map rank_line b).
  { unfold boardToPlacement. now apply split_on_join. }
  split; [|exact Hsplit].
  unfold valid_placement. rewrite Hsplit, length_map, Hrows. cbn [Nat.eqb andb].
  apply forallb_forall. intros line Hline.
  apply in_map_iff in Hline as (r & <- & Hr).
  assert (Hr8 : length r = 8).
  { rewrite Forall_forall in Hcols. apply Hcols, list_elem_of_In, Hr. }
  assert (Hrok : forallb (cell_ok is_piece_letter) r = true).
  { unfold cells_ok in Hok. rewrite forallb_forall in Hok. now apply Hok. }
  unfold valid_rank. apply andb_true_iff. split.
  - unfold rank_line.
    apply (string_forall_rank_loop is_piece_letter); auto; [|apply digits_1_8_placement|lia].
    intros c Hc. rewrite Hc. apply orb_true_r.
  - apply Nat.eqb_eq. rewrite <- parseRank_length. unfold rank_line.
    rewrite (parseRank_rank_loop is_piece_letter); auto; [|lia].
    intros c Hc. now apply is_piece_letter_cases in Hc.
Qed.

Lemma boardToPlacement_valid_witness :
  is_8x8 createStartBoard = true
  /\ cells_ok is_piece_letter createStartBoard = true
  /\ valid_placement (boardToPlacement createStartBoard) = true
  /\ split_on "/" (boardToPlacement createStartBoard)
     = map rank_line createStartBoard.
Proof.
  split; [reflexivity|]. split; [reflexivity|].
  apply (boardToPlacement_valid createStartBoard); reflexivity.
Defined.

(** ** Moves from an empty square, and where the pieces come from *)

Lemma applyUciMove_guard (b : Board) (uci : string) :
  board_8x8 b ->
  is_uci uci = true ->
  piece_at b (uci_from uci) = None \/ piece_at b (uci_from uci) = Some "" ->
  applyUciMove b uci = (b, Normal ()).
Proof.
  intros H8 Huci Hp.
  destruct (is_uci_parts uci Huci) as (Hfrom & _ & _).
  unfold applyUciMove. fold (uci_from uci) in *.
  destruct (squareToCoords_square _ Hfrom) as (fr & fc & Ef & Hfr & Hfc & ->).
  cbn [row col].
  destruct (row_at_8x8 b fr H8 Hfr) as (rank & -> & _ & Hcell).
  rewrite Hcell. unfold piece_at in Hp. rewrite Ef in Hp.
  destruct Hp as [-> | ->]; reflexivity.
Qed.

(** X8.  On an 8x8 board, a move code whose from square is empty (or
    holds the empty string) changes nothing: applyUciMove returns at its
    guard, and the board is as before. *)
Theorem applyUciMove_empty_from (b : Board) (uci : string) :
  is_8x8 b = true ->
  is_uci uci = true ->
  piece_at b (uci_from uci) = None \/ piece_at b (uci_from uci) = Some "" ->
  applyUciMove b uci = (b, Normal ()).
Proof.
  intros H8 Huci Hp. apply is_8x8_iff in H8. now apply applyUciMove_guard.
Qed.

Lemma applyUciMove_empty_from_witness :
  is_8x8 createStartBoard = true
  /\ is_uci "e4e5" = true
  /\ (piece_at createStartBoard (uci_from "e4e5") = None
      \/ piece_at createStartBoard (uci_from "e4e5") = Some "")
  /\ applyUciMove createStartBoard "e4e5" = (createStartBoard, Normal ()).
Proof.
  split; [reflexivity|]. split; [reflexivity|]. split; [left; reflexivity|].
  apply (applyUciMove_empty_from createStartBoard "e4e5");
    [reflexivity | reflexivity | left; reflexivity].
Defined.

(** The cells of a board, by row and column. *)
Lemma cells_ok_cell (p : ascii -> bool) (b : Board) :
  cells_ok p b = true <-> forall r c, cell_ok p (cell b r c) = true.
Proof.
  unfold cells_ok, cell. split.
  - intros H r c. destruct (b !! r) as [rank|] eqn:Er; [|reflexivity].
    destruct (rank !! c) as [sq|] eqn:Ec; [|reflexivity].
    rewrite forallb_forall in H.
    specialize (H rank (proj1 (list_elem_of_In _ _) (list_elem_of_lookup_2 _ _ _ Er))).
    rewrite forallb_forall in H.
    exact (H sq (proj1 (list_elem_of_In _ _) (list_elem_of_lookup_2 _ _ _ Ec))).
  - intros H. apply forallb_forall. intros rank Hrank.
    apply forallb_forall. intros sq Hsq.
    apply list_elem_of_In, list_elem_of_lookup_1 in Hrank as [r Er].
    apply list_elem_of_In, list_elem_of_lookup_1 in Hsq as [c Ec].
    specialize (H r c). now rewrite Er, Ec in H.
Qed.

Lemma cells_ok_put (p : ascii -> bool) (b : Board) (sq : string) (v : Square) :
  board_8x8 b -> is_square sq = true ->
  cells_ok p b = true -> cell_ok p v = true ->
  cells_ok p (put b sq v) = true.
Proof.
  intros Hb Hsq Hok Hv. apply cells_ok_cell. intros r c.
  unfold put.
  destruct (squareToCoords_square sq Hsq) as (r0 & c0 & -> & Hr0 & Hc0 & _).
  rewrite cell_write_board by assumption.
  destruct (decide _); [exact Hv|]. now apply cells_ok_cell.
Qed.

Lemma cells_ok_piece_at (p : ascii -> bool) (b : Board) (sq : string) :
  cells_ok p b = true -> cell_ok p (piece_at b sq) = true.
Proof.
  intros H. unfold piece_at.
  destruct (square_index sq) as [[r c]|]; [|reflexivity].
  now apply cells_ok_cell.
Qed.

(** The three ways a cell can be: empty, the empty string, a piece. *)
Lemma square_cases (sq : Square) :
  sq = None \/ sq = Some ""
  \/ exists piece, sq = Some piece /\ truthy_string piece = true.
Proof.
  destruct sq as [[|c s]|]; auto. right. right. now exists (String c s).
Qed.

(** X9.  applyUciMove makes no piece up: on an 8x8 board, whatever
    property holds of all pieces before a move holds of all pieces after
    it, provided that it holds of the promotion letter in both cases
    when the code has one.  In particular a move without promotion
    leaves on the board only codes that were on it. *)
Theorem applyUciMove_keeps_pieces (p : ascii -> bool) (b : Board)
    (uci : string) :
  is_8x8 b = true ->
  is_uci uci = true ->
  cells_ok p b = true ->
  (forall ch, uci_promotion uci = Some ch ->
              p (upper_char ch) = true /\ p (lower_char ch) = true) ->
  cells_ok p (fst (applyUciMove b uci)) = true.
Proof.
  intros H8 Huci Hok Hpromo. apply is_8x8_iff in H8.
  destruct (square_cases (piece_at b (uci_from uci)))
    as [Hp | [Hp | (piece & Hp & Ht)]].
  - now rewrite applyUciMove_guard by auto.
  - now rewrite applyUciMove_guard by auto.
  - rewrite (applyUciMove_writes b uci piece H8 Huci Hp Ht). cbn [fst].
    destruct (is_uci_parts uci Huci) as (Hfrom & Hto & _).
    fold (uci_from uci) (uci_to uci) in *.
    assert (H1 : board_8x8 (put b (uci_from uci) None)) by now apply put_8x8.
    assert (Hok1 : cells_ok p (put b (uci_from uci) None) = true)
      by now apply cells_ok_put.
    assert (Hplaced : cell_ok p (Some (placed_piece piece (uci_promotion uci)))
                      = true).
    { unfold placed_piece. destruct (uci_promotion uci) as [ch|] eqn:Ech.
      - destruct (Hpromo ch eq_refl) as [Hu Hl].
        destruct (String.eqb piece (toUpperCase piece)); cbn; assumption.
      - rewrite <- Hp. now apply cells_ok_piece_at. }
    destruct (castling_of piece (uci_from uci) (uci_to uci))
      as [[rook_from rook_to]|] eqn:Ec.
    + destruct (castling_of_squares _ _ _ _ _ Ec) as (Hrf & Hrt & _).
      apply cells_ok_put; auto; [now repeat apply put_8x8|].
      apply cells_ok_put; auto; [now apply put_8x8|].
      apply cells_ok_put; auto. now apply cells_ok_piece_at.
    + now apply cells_ok_put.
Qed.

Lemma applyUciMove_keeps_pieces_witness :
  is_8x8 createStartBoard = true
  /\ is_uci "g1f3" = true
  /\ cells_ok is_piece_letter createStartBoard = true
  /\ cells_ok is_piece_letter (fst (applyUciMove createStartBoard "g1f3"))
     = true.
Proof.
  do 3 (split; [reflexivity|]).
  apply (applyUciMove_keeps_pieces is_piece_letter createStartBoard "g1f3");
    [reflexivity | reflexivity | reflexivity | discriminate].
Defined.

(** ** Counting pieces *)

Lemma count_insert (l : list Square) (i : nat) (x old : Square) :
  l !! i = Some old ->
  length (List.filter is_occupied (<[i := x]> l)) + Nat.b2n (is_occupied old)
  = length (List.filter is_occupied l) + Nat.b2n (is_occupied x).
Proof.
  revert i. induction l as [|y l IH]; intros i H; [discriminate|].
  destruct i as [|i].
  - injection H as ->. simpl.
    destruct (is_occupied x), (is_occupied old); simpl; lia.
  - simpl in *. specialize (IH i H).
    destruct (is_occupied y); simpl; lia.
Qed.

Lemma piece_count_insert (b : Board) (r : nat) (rank rank' : list Square) :
  b !! r = Some rank ->
  piece_count (<[r := rank']> b) + length (List.filter is_occupied rank)
  = piece_count b + length (List.filter is_occupied rank').
Proof.
  unfold piece_count. revert r. induction b as [|y b IH]; intros r H;
    [discriminate|].
  destruct r as [|r].
  - injection H as ->. simpl.
    rewrite !List.filter_app, !length_app. lia.
  - simpl in *. specialize (IH r H).
    rewrite !List.filter_app, !length_app. lia.
Qed.

(** A write to a named square changes the count by what it puts less
    what was there. *)
Lemma piece_count_put (b : Board) (sq : string) (v : Square) :
  board_8x8 b -> is_square sq = true ->
  piece_count (put b sq v) + Nat.b2n (is_occupied (piece_at b sq))
  = piece_count b + Nat.b2n (is_occupied v).
Proof.
  intros Hb Hsq. unfold put, piece_at.
  destruct (squareToCoords_square sq Hsq) as (r & c & -> & Hr & Hc & _).
  destruct Hb as [Hlen Hrows]. unfold write_board, cell.
  destruct (lookup_lt_is_Some_2 b r ltac:(lia)) as [rank Er]. rewrite Er.
  assert (Hrank : length rank = 8).
  { rewrite Forall_forall in Hrows. eapply Hrows, list_elem_of_lookup_2, Er. }
  destruct (lookup_lt_is_Some_2 rank c ltac:(lia)) as [old Ec]. rewrite Ec.
  cbn [default from_option id].
  unfold write_cell. rewrite Nat2Z.id.
  destruct (Z.ltb_spec (Z.of_nat c) 0); [lia|].
  destruct (Nat.ltb_spec c (length rank)); [|lia].
  pose proof (piece_count_insert b r rank (<[c := v]> rank) Er) as H1.
  pose proof (count_insert rank c v old Ec) as H2.
  unfold id. lia.
Qed.

(** X10.  applyUciMove never adds a piece: on an 8x8 board the number of
    pieces after a move is at most the number before; and when the move
    is not a castling king move, it is the number before less one if the
    to square, another square than the from square, was occupied (a
    capture), and the same number otherwise. *)
Theorem applyUciMove_piece_count (b : Board) (uci : string) :
  is_8x8 b = true ->
  is_uci uci = true ->
  piece_count (fst (applyUciMove b uci)) <= piece_count b
  /\ (forall piece,
        piece_at b (uci_from uci) = Some piece ->
        truthy_string piece = true ->
        castling_of piece (uci_from uci) (uci_to uci) = None ->
        piece_count (fst (applyUciMove b uci))
        + Nat.b2n (negb (String.eqb (uci_to uci) (uci_from uci))
                   && is_occupied (piece_at b (uci_to uci)))
        = piece_count b).
Proof.
  intros H8 Huci. apply is_8x8_iff in H8.
  destruct (is_uci_parts uci Huci) as (Hfrom & Hto & _).
  fold (uci_from uci) (uci_to uci) in *.
  assert (Hplaced : forall piece, truthy_string piece = true ->
            is_occupied (Some (placed_piece piece (uci_promotion uci))) = true).
  { intros piece Ht. unfold placed_piece.
    destruct (uci_promotion uci); [|exact Ht].
    now destruct (String.eqb piece (toUpperCase piece)). }
  assert (H1 : board_8x8 (put b (uci_from uci) None)) by now apply put_8x8.
  split.
  - destruct (square_cases (piece_at b (uci_from uci)))
      as [Hp | [Hp | (piece & Hp & Ht)]].
    + now rewrite applyUciMove_guard by auto.
    + now rewrite applyUciMove_guard by auto.
    + rewrite (applyUciMove_writes b uci piece H8 Huci Hp Ht). cbn [fst].
      pose proof (piece_count_put b (uci_from uci) None H8 Hfrom) as E1.
      rewrite Hp in E1. cbn [is_occupied] in E1. rewrite Ht in E1.
      cbn [Nat.b2n] in E1.
      destruct (castling_of piece (uci_from uci) (uci_to uci))
        as [[rook_from rook_to]|] eqn:Ec.
      * destruct (castling_of_squares _ _ _ _ _ Ec) as (Hrf & Hrt & N1 & N2 & N3 & _).
        set (b1 := put b (uci_from uci) None) in *.
        set (b2 := put b1 rook_to (piece_at b1 rook_from)).
        assert (H2 : board_8x8 b2) by now apply put_8x8.
        set (b3 := put b2 rook_from None).
        assert (H3 : board_8x8 b3) by now apply put_8x8.
        pose proof (piece_count_put b1 rook_to (piece_at b1 rook_from) H1 Hrt) as E2.
        pose proof (piece_count_put b2 rook_from None H2 Hrf) as E3.
        pose proof (piece_count_put b3 (uci_to uci)
                      (Some (placed_piece piece (uci_promotion uci))) H3 Hto) as E4.
        rewrite (Hplaced piece Ht) in E4.
        assert (E5 : piece_at b2 rook_from = piece_at b1 rook_from).
        { unfold b2. rewrite piece_at_put by assumption.
          destruct (String.eqb_spec rook_from rook_to); [contradiction|].
          reflexivity. }
        rewrite E5 in E3. fold b2 b3 in E2, E3, E4 |- *.
        cbn [is_occupied Nat.b2n] in *.
        destruct (is_occupied (piece_at b1 rook_to)),
                 (is_occupied (piece_at b1 rook_from)),
                 (is_occupied (piece_at b3 (uci_to uci))); cbn [Nat.b2n] in *; lia.
      * pose proof (piece_count_put (put b (uci_from uci) None) (uci_to uci)
                      (Some (placed_piece piece (uci_promotion uci))) H1 Hto) as E4.
        rewrite (Hplaced piece Ht) in E4. cbn [Nat.b2n] in E4.
        destruct (is_occupied (piece_at (put b (uci_from uci) None) (uci_to uci)));
          cbn [Nat.b2n] in *; lia.
  - intros piece Hp Ht Ec.
    rewrite (applyUciMove_writes b uci piece H8 Huci Hp Ht), Ec. cbn [fst].
    pose proof (piece_count_put b (uci_from uci) None H8 Hfrom) as E1.
    rewrite Hp in E1. cbn [is_occupied] in E1. rewrite Ht in E1.
    pose proof (piece_count_put (put b (uci_from uci) None) (uci_to uci)
                  (Some (placed_piece piece (uci_promotion uci))) H1 Hto) as E4.
    rewrite (Hplaced piece Ht) in E4.
    rewrite piece_at_put in E4 by assumption.
    destruct (String.eqb (uci_to uci) (uci_from uci));
      cbn [negb andb Nat.b2n is_occupied] in *; [lia|].
    destruct (is_occupied (piece_at b (uci_to uci))); cbn [Nat.b2n] in *; lia.
Qed.

Lemma applyUciMove_piece_count_witness :
  is_8x8 createStartBoard = true
  /\ is_uci "d1d7" = true
  /\ piece_count createStartBoard = 32
  /\ piece_count (fst (applyUciMove createStartBoard "d1d7")) = 31
  /\ piece_count (fst (applyUciMove createStartBoard "d1d7"))
     <= piece_count createStartBoard.
Proof.
  do 4 (split; [reflexivity|]).
  apply (applyUciMove_piece_count createStartBoard "d1d7"); reflexivity.
Defined.

(** ** A to square off the board *)

Lemma substring_length (n m : nat) (s : string) :
  String.length (String.substring n m s) <= m.
Proof.
  revert n m. induction s as [|c s IH]; intros n m.
  - destruct n, m; cbn; lia.
  - destruct n as [|n].
    + destruct m as [|m]; cbn; [lia|]. specialize (IH 0 m). lia.
    + cbn. apply IH.
Qed.

Lemma digit_not_1_8 (d : ascii) :
  is_digit d = true -> contains d "12345678" = false ->
  digit_value d = 0 \/ digit_value d = 9.
Proof.
  unfold is_digit, digit_value, code. intros H Hc.
  apply andb_true_iff in H as [H1 H2].
  apply Nat.leb_le in H1. apply Nat.leb_le in H2.
  rewrite <- (ascii_nat_embedding d) in Hc.
  assert (Hcases : nat_of_ascii d = 48 \/ nat_of_ascii d = 57
                   \/ (49 <= nat_of_ascii d <= 56)) by lia.
  destruct Hcases as [E | [E | E]]; [lia | lia |].
  exfalso.
  assert (Hd : nat_of_ascii d = 49 \/ nat_of_ascii d = 50
               \/ nat_of_ascii d = 51 \/ nat_of_ascii d = 52
               \/ nat_of_ascii d = 53 \/ nat_of_ascii d = 54
               \/ nat_of_ascii d = 55 \/ nat_of_ascii d = 56) by lia.
  repeat (destruct Hd as [Hd|Hd]; [rewrite Hd in Hc; discriminate Hc|]).
  rewrite Hd in Hc. discriminate Hc.
Qed.

(** A rank character other than [1]-[8] gives a row number off the
    board, or none at all. *)
Lemma bad_rank_row (b : Board) (k : option ascii) :
  board_8x8 b ->
  match k with Some c => contains c "12345678" | None => false end = false ->
  row_at b (option_map (fun r => 8 - r)%Z (Number_of_char k)) = None.
Proof.
  intros [Hlen _] Hk. destruct k as [c|]; [|reflexivity].
  unfold Number_of_char. destruct (is_digit c) eqn:Hd.
  - destruct (digit_not_1_8 c Hd Hk) as [-> | ->]; cbn [option_map row_at].
    + change (8 - Z.of_nat 0)%Z with 8%Z. cbn.
      apply lookup_ge_None. rewrite Hlen. cbn. lia.
    + reflexivity.
  - destruct (is_space c); [|reflexivity].
    cbn. apply lookup_ge_None. rewrite Hlen. cbn. lia.
Qed.

Lemma good_rank_row (c : ascii) :
  contains c "12345678" = true ->
  exists r, r < 8
            /\ option_map (fun z => 8 - z)%Z (Number_of_char (Some c))
               = Some (Z.of_nat r).
Proof.
  intros H. split_contains H;
    [exists 7 | exists 6 | exists 5 | exists 4
     | exists 3 | exists 2 | exists 1 | exists 0];
    (split; [lia | reflexivity]).
Qed.

Lemma file_index_bad (f : ascii) :
  contains f "abcdefgh" = false -> file_index (Some f) = (-1)%Z.
Proof.
  destruct f as [[] [] [] [] [] [] [] []]; intros H;
    first [reflexivity | discriminate H].
Qed.

Lemma castling_rook_bad_to (piece from to : string) :
  is_square to = false -> castling_rook piece from to = None.
Proof.
  intros H. unfold castling_rook.
  repeat match goal with
         | |- context [String.eqb to ?s] =>
             destruct (String.eqb_spec to s) as [->|_];
               [discriminate H|]; rewrite ?andb_false_r
         end.
  reflexivity.
Qed.

(** X11.  A move whose to square is no square loses the moved piece.  On
    an 8x8 board, when the from square of the code is an occupied square
    and its third and fourth characters do not name a square,
    applyUciMove empties the from square and places nothing: it throws a
    TypeError, with the from square already cleared, when the rank
    character is not one of 1-8; and it completes normally when only the
    file character is off (the write goes to column -1 of the row). *)
Theorem applyUciMove_bad_to (b : Board) (uci piece : string) :
  is_8x8 b = true ->
  is_square (uci_from uci) = true ->
  is_square (uci_to uci) = false ->
  piece_at b (uci_from uci) = Some piece ->
  truthy_string piece = true ->
  applyUciMove b uci
  = (put b (uci_from uci) None,
     if rank_char_ok (uci_to uci) then Normal () else Throw TypeError).
Proof.
  intros H8 Hfrom Hto Hp Ht. apply is_8x8_iff in H8.
  unfold applyUciMove. fold (uci_from uci) (uci_to uci).
  destruct (squareToCoords_square _ Hfrom) as (fr & fc & Ef & Hfr & Hfc & ->).
  cbn [row col].
  destruct (row_at_8x8 b fr H8 Hfr) as (rank & -> & _ & Hcell).
  rewrite Hcell.
  assert (Hc : cell b fr fc = Some piece).
  { unfold piece_at in Hp. now rewrite Ef in Hp. }
  rewrite Hc, Ht. cbn [negb]. unfold id. cbn [default from_option].
  unfold id. rewrite Nat2Z.id.
  assert (E1 : write_board b fr (Z.of_nat fc) None = put b (uci_from uci) None).
  { unfold put. now rewrite Ef. }
  rewrite E1, (castling_rook_bad_to _ _ _ Hto).
  assert (Hb1 : board_8x8 (put b (uci_from uci) None)) by now apply put_8x8.
  set (b1 := put b (uci_from uci) None) in *.
  unfold squareToCoords. cbn [row col].
  unfold rank_char_ok.
  destruct (char_at 1 (uci_to uci)) as [k|] eqn:Ek.
  2:{ now rewrite (bad_rank_row b1 None Hb1). }
  destruct (contains k "12345678") eqn:Hk.
  2:{ now rewrite (bad_rank_row b1 (Some k) Hb1). }
  destruct (good_rank_row k Hk) as (r & Hr & ->).
  destruct (row_at_8x8 b1 r Hb1 Hr) as (rank1 & -> & Erank & _).
  cbn [default from_option]. unfold id. rewrite Nat2Z.id.
  assert (Hlen : String.length (uci_to uci) <= 2)
    by apply substring_length.
  assert (Hfile : file_index (char_at 0 (uci_to uci)) = (-1)%Z).
  { unfold char_at in *.
    destruct (uci_to uci) as [|f [|k' [|x rest]]]; cbn in Ek, Hlen;
      try discriminate Ek; [|lia].
    injection Ek as ->. cbn [is_square] in Hto. rewrite Hk, andb_true_r in Hto.
    cbn [String.get]. now apply file_index_bad. }
  rewrite Hfile. unfold write_board. rewrite Erank.
  unfold write_cell. cbn [Z.ltb Z.compare].
  now rewrite list_insert_id.
Qed.

Lemma applyUciMove_bad_to_witness :
  is_8x8 createStartBoard = true
  /\ is_square (uci_from "e2e9") = true
  /\ is_square (uci_to "e2e9") = false
  /\ piece_at createStartBoard (uci_from "e2e9") = Some "P"
  /\ truthy_string "P" = true
  /\ applyUciMove createStartBoard "e2e9"
     = (put createStartBoard (uci_from "e2e9") None,
        if rank_char_ok (uci_to "e2e9") then Normal () else Throw TypeError).
Proof.
  do 5 (split; [reflexivity|]).
  apply (applyUciMove_bad_to createStartBoard "e2e9" "P"); reflexivity.
Defined.

(** X12.  A from square whose rank character is off stops the move
    before anything is written.  On an 8x8 board, when the second
    character of the code is not one of 1-8 (or the code is shorter than
    two characters), the row applyUciMove reads is undefined: it throws a
    TypeError at the read of the from cell, and the board is as before.
    (When only the file character is off the read goes to the key -1 of
    the row, which the arrays of this model do not carry; nothing is
    stated for that case.) *)
Theorem applyUciMove_bad_from (b : Board) (uci : string) :
  is_8x8 b = true ->
  rank_char_ok (uci_from uci) = false ->
  applyUciMove b uci = (b, Throw TypeError).
Proof.
  intros H8 Hrank. apply is_8x8_iff in H8.
  unfold applyUciMove. cbv zeta. fold (uci_from uci) (uci_to uci).
  unfold squareToCoords at 1 2. cbn [row col].
  unfold rank_char_ok in Hrank.
  now rewrite (bad_rank_row b (char_at 1 (uci_from uci)) H8).
Qed.

Lemma applyUciMove_bad_from_witness :
  is_8x8 createStartBoard = true
  /\ rank_char_ok (uci_from "e9e4") = false
  /\ applyUciMove createStartBoard "e9e4" = (createStartBoard, Throw TypeError).
Proof.
  do 2 (split; [reflexivity|]).
  apply (applyUciMove_bad_from createStartBoard "e9e4"); reflexivity.
Defined.

(* ================================================================== *)
(** * Simulator: close, the Result on the clock, the Move events *)
(* ================================================================== *)

(** X13.  [close] is final.  Whatever an instance has done up to a call
    of [close], it emits nothing afterwards, however its intervals fire
    and however often [close] is called again: the events of the whole
    run are those emitted before the call, and the instance ends closed
    with both intervals cleared. *)
Theorem simulator_close_final (initialMs : Z) (pre post : list Tick) :
  sim_trace initialMs (pre ++ CloseCalled :: post) = sim_trace initialMs pre
  /\ sim_dead (fst (sim_run (fst (createMockStream initialMs))
                      (pre ++ CloseCalled :: post))).
Proof.
  rewrite !sim_trace_unfold, sim_run_app. cbn [fst snd].
  set (s := fst (sim_run _ pre)).
  rewrite sim_run_cons. cbn [fst snd sim_step app].
  assert (Hdead : sim_dead (close_sim s)) by now repeat split.
  destruct (sim_dead_run _ post Hdead) as [-> Hd].
  now rewrite app_nil_r.
Qed.

(** ** The Result on the host's clock *)

Lemma timed_schedule_split (clock_first : nat -> bool) (n m : nat) :
  n <= m ->
  timed_schedule clock_first m
  = timed_schedule clock_first n
    ++ timed_schedule_from clock_first (1 + n) (m - n).
Proof.
  intros H. unfold timed_schedule.
  replace m with (n + (m - n)) at 1 by lia.
  apply timed_schedule_from_app.
Qed.

(** Before the move interval has fired more often than there are moves
    left in the script, there is no Result. *)
Lemma sim_live_no_result (schedule : list Tick) :
  forall (s : Sim) (k : nat),
    sim_live s k ->
    count_ticks MoveTimerFires schedule <= 20 - k ->
    count_results (snd (sim_run s schedule)) = 0.
Proof.
  induction schedule as [|t rest IH]; intros s k Hlive Hm; [reflexivity|].
  rewrite sim_run_cons. cbn [fst snd]. rewrite count_results_app. destruct t.
  - destruct (sim_live_clock s k Hlive) as [E Hlive'].
    rewrite E in Hlive' |- *. cbn [fst snd] in *.
    change (count_results [OnClock _ _]) with 0. cbn [Nat.add].
    apply (IH _ k Hlive'). exact Hm.
  - change (count_ticks MoveTimerFires (MoveTimerFires :: rest))
      with (S (count_ticks MoveTimerFires rest)) in Hm.
    pose proof Hlive as (_ & _ & _ & _ & Hle & _).
    destruct (mockMoves !! k) as [[uci san]|] eqn:Hmv.
    + destruct (sim_live_move s k uci san Hlive Hmv)
        as (fen & pgn & E & Hlive').
      rewrite E. change (count_results [OnMove _ _ _ _ _]) with 0.
      cbn [Nat.add]. apply (IH _ (S k) Hlive'). lia.
    + apply lookup_ge_None in Hmv. cbn in Hmv. lia.
  - assert (Hdead : sim_dead (fst (sim_step s CloseCalled)))
      by (now repeat split).
    destruct (sim_dead_run _ rest Hdead) as [-> _]. reflexivity.
Qed.

(** X14.  With both intervals firing on time and nothing closing the
    instance, the Result is there after [n] periods of 200 ms exactly
    when [n] is at least 126, whichever interval the host runs first
    when both are due: it is emitted 25200 ms after the start, at the
    21st firing of the move interval, and not before. *)
Theorem simulator_result_time (clock_first : nat -> bool) (initialMs : Z)
    (n : nat) :
  count_results (sim_trace initialMs (timed_schedule clock_first n))
  = if (126 <=? n)%nat then 1 else 0.
Proof.
  destruct (Nat.leb_spec 126 n) as [H|H].
  - now apply simulator_result_on_time.
  - rewrite sim_trace_unfold, count_results_app.
    change (count_results [OnOpen; OnMatchStarted "mock" startFen]) with 0.
    apply (sim_live_no_result _ _ 0 (createMockStream_live initialMs)).
    assert (E : count_ticks MoveTimerFires
                  (timed_schedule (fun _ => true) 125) = 20)
      by (vm_compute; reflexivity).
    rewrite (timed_schedule_split (fun _ => true) n 125) in E by lia.
    unfold count_ticks in E. rewrite List.filter_app, length_app in E.
    unfold timed_schedule at 1. rewrite timed_schedule_from_moves.
    fold (timed_schedule (fun _ : nat => true) n). unfold count_ticks. lia.
Qed.

(** ** What the Move events carry *)

Lemma script_state_S (k : nat) :
  script_state (S k) = fst (sim_step (script_state k) MoveTimerFires).
Proof.
  unfold script_state.
  replace (replicate (S k) MoveTimerFires)
    with (replicate k MoveTimerFires ++ [MoveTimerFires]).
  - rewrite sim_run_app. cbn [fst]. rewrite sim_run_cons. reflexivity.
  - change [MoveTimerFires] with (replicate 1 MoveTimerFires).
    rewrite <- replicate_add. f_equal. lia.
Qed.

Lemma script_state_live (k : nat) : k <= 20 -> sim_live (script_state k) k.
Proof.
  induction k as [|k IH]; intros Hk.
  - apply (createMockStream_live 0).
  - rewrite script_state_S.
    destruct (mockMoves !! k) as [[uci san]|] eqn:Hm.
    + destruct (sim_live_move _ k uci san (IH ltac:(lia)) Hm)
        as (fen & pgn & _ & H). exact H.
    + apply lookup_ge_None in Hm. cbn in Hm. lia.
Qed.

(** The move callback reads neither clock. *)
Lemma move_callback_same (s s0 : Sim) :
  same_script s s0 ->
  snd (sim_step s MoveTimerFires) = snd (sim_step s0 MoveTimerFires)
  /\ same_script (fst (sim_step s MoveTimerFires))
       (fst (sim_step s0 MoveTimerFires)).
Proof.
  destruct s as [mi w b c side brd pgn ct mt],
           s0 as [mi0 w0 b0 c0 side0 brd0 pgn0 ct0 mt0].
  unfold same_script. cbn. intros (-> & -> & -> & -> & -> & -> & ->).
  destruct mt0; [|now repeat split].
  unfold move_callback. cbn.
  destruct c0; [now repeat split|].
  destruct (mockMoves !! mi0) as [[uci san]|]; [|now repeat split].
  destruct (applyUciMove brd0 uci) as [b' [u|e]]; now repeat split.
Qed.

Lemma clock_callback_same (s s0 : Sim) :
  same_script s s0 ->
  same_script (fst (sim_step s ClockTimerFires)) s0.
Proof.
  destruct s as [mi w b c side brd pgn ct mt],
           s0 as [mi0 w0 b0 c0 side0 brd0 pgn0 ct0 mt0].
  unfold same_script. cbn. intros (-> & -> & -> & -> & -> & -> & ->).
  destruct ct0; [|now repeat split].
  unfold clock_callback. cbn. destruct c0; now repeat split.
Qed.

Lemma script_events_ok (k : nat) (e : StreamEvent) :
  k <= 20 -> In e (script_event k) -> move_event_ok e = true.
Proof.
  intros Hk He.
  assert (Hall : forallb (fun k => forallb move_event_ok (script_event k))
                   (seq 0 21) = true) by (vm_compute; reflexivity).
  rewrite forallb_forall in Hall.
  specialize (Hall k). rewrite in_seq, forallb_forall in Hall.
  apply Hall; [lia | exact He].
Qed.

(** Whatever the schedule, an instance that agrees with the script so
    far emits only events that tell the script's story. *)
Lemma sim_script_run (schedule : list Tick) :
  forall (s : Sim) (k : nat) (e : StreamEvent),
    k <= 20 -> same_script s (script_state k) ->
    In e (snd (sim_run s schedule)) -> move_event_ok e = true.
Proof.
  induction schedule as [|t rest IH]; intros s k e Hk Hs He; [destruct He|].
  rewrite sim_run_cons in He. cbn [snd] in He.
  apply in_app_or in He as [He|He].
  - destruct t.
    + cbn [sim_step] in He. destruct (clockTimer s); [|destruct He].
      unfold clock_callback in He. destruct (closed s); [destruct He|].
      destruct He as [<-|[]]. reflexivity.
    + destruct (move_callback_same s _ Hs) as [E _]. rewrite E in He.
      now apply (script_events_ok k).
    + destruct He.
  - destruct t.
    + apply (IH _ k e Hk (clock_callback_same s _ Hs) He).
    + destruct (move_callback_same s _ Hs) as [_ Hs'].
      destruct (Nat.eq_dec k 20) as [->|Hne].
      * assert (Hd : sim_dead (fst (sim_step s MoveTimerFires))).
        { destruct (sim_live_result _ (script_state_live 20 ltac:(lia)))
            as [_ (Hc & Hct & Hmt)].
          destruct Hs' as (_ & Ec & _ & _ & _ & Ect & Emt).
          repeat split; congruence. }
        destruct (sim_dead_run _ rest Hd) as [E _].
        rewrite E in He. destruct He.
      * rewrite <- script_state_S in Hs'.
        apply (IH _ (S k) e ltac:(lia) Hs' He).
    + assert (Hd : sim_dead (fst (sim_step s CloseCalled)))
        by now repeat split.
      destruct (sim_dead_run _ rest Hd) as [E _].
      rewrite E in He. destruct He.
Qed.

(** X15.  Every Move event of an instance tells the script's story,
    however the two intervals and [close] interleave.  Its ply is one of
    1-20 and its codes are the script's for that ply; its position text
    is the placement of the board the specification describes for the
    first [ply] script moves ([script_board]: from the start board,
    each move in turn puts the piece of its first square on its second,
    with the promotion piece and the rook of a castling, and leaves the
    other squares), followed by the side to move (b after an odd ply, w
    after an even one) and the fixed fields; the renderer's parseFen
    reads exactly that board back from it; and the renderer's
    parsePgnMoves reads its move list as the first [ply] SAN texts, two
    to a row in order, the rows numbered from 1 ([paired_rows]). *)
Theorem simulator_move_events (initialMs : Z) (schedule : list Tick)
    (ply : nat) (uci san fen pgn : string) :
  In (OnMove ply uci san fen pgn) (sim_trace initialMs schedule) ->
  1 <= ply <= 20
  /\ mockMoves !! (ply - 1) = Some (uci, san)
  /\ fen = boardToPlacement (script_board ply) +:+ " " +:+ side_after ply
           +:+ " - - 0 1"
  /\ parseFen fen = script_board ply
  /\ parsePgnMoves pgn = paired_rows (script_sans ply).
Proof.
  intros He. rewrite sim_trace_unfold in He.
  apply in_app_or in He as [He|He].
  { destruct He as [He|[He|[]]]; discriminate He. }
  assert (Hs : same_script (fst (createMockStream initialMs)) (script_state 0))
    by now repeat split.
  pose proof (sim_script_run schedule _ 0 _ ltac:(lia) Hs He) as Hok.
  cbn [move_event_ok] in Hok.
  repeat (apply andb_true_iff in Hok as [Hok ?]).
  repeat match goal with
         | H : bool_decide _ = true |- _ => apply bool_decide_eq_true in H
         end.
  apply Nat.leb_le in Hok.
  repeat split; try assumption. now apply Nat.leb_le.
Qed.

Lemma simulator_move_events_witness :
  In (OnMove 2 "c7c5" "c5"
        "rnbqkbnr/pp1ppppp/8/2p5/4P3/8/PPPP1PPP/RNBQKBNR w - - 0 1"
        "1. e4 c5")
     (sim_trace 300000 (timed_schedule (fun _ => true) 12))
  /\ script_board 2
     = [[Some "r"; Some "n"; Some "b"; Some "q"; Some "k"; Some "b"; Some "n";
         Some "r"];
        [Some "p"; Some "p"; None; Some "p"; Some "p"; Some "p"; Some "p";
         Some "p"];
        [None; None; None; None; None; None; None; None];
        [None; None; Some "p"; None; None; None; None; None];
        [None; None; None; None; Some "P"; None; None; None];
        [None; None; None; None; None; None; None; None];
        [Some "P"; Some "P"; Some "P"; Some "P"; None; Some "P"; Some "P";
         Some "P"];
        [Some "R"; Some "N"; Some "B"; Some "Q"; Some "K"; Some "B"; Some "N";
         Some "R"]]
  /\ paired_rows (script_sans 2) = [mkRow 1 "e4" "c5"]
  /\ parsePgnMoves "1. e4 c5" = [mkRow 1 "e4" "c5"]
  /\ (1 <= 2 <= 20
      /\ mockMoves !! (2 - 1) = Some ("c7c5", "c5")
      /\ "rnbqkbnr/pp1ppppp/8/2p5/4P3/8/PPPP1PPP/RNBQKBNR w - - 0 1"
         = boardToPlacement (script_board 2) +:+ " " +:+ side_after 2
           +:+ " - - 0 1"
      /\ parseFen "rnbqkbnr/pp1ppppp/8/2p5/4P3/8/PPPP1PPP/RNBQKBNR w - - 0 1"
         = script_board 2
      /\ parsePgnMoves "1. e4 c5" = paired_rows (script_sans 2)).
Proof.
  assert (H : In (OnMove 2 "c7c5" "c5"
                    "rnbqkbnr/pp1ppppp/8/2p5/4P3/8/PPPP1PPP/RNBQKBNR w - - 0 1"
                    "1. e4 c5")
                 (sim_trace 300000 (timed_schedule (fun _ => true) 12))).
  { vm_compute. repeat (first [left; reflexivity | right]). }
  split; [exact H|]. split; [vm_compute; reflexivity|].
  split; [vm_compute; reflexivity|]. split; [vm_compute; reflexivity|].
  apply (simulator_move_events 300000 (timed_schedule (fun _ => true) 12)).
  exact H.
Defined.

(* ================================================================== *)
(** * Session: what holds in every reachable state *)
(* ================================================================== *)

Lemma session_ok_ext (w w' : App.World) :
  App.streamRef (App.refs w') = App.streamRef (App.refs w) ->
  App.reconnectTimerRef (App.refs w') = App.reconnectTimerRef (App.refs w) ->
  App.timeouts (App.host w') = App.timeouts (App.host w) ->
  App.sources (App.host w') = App.sources (App.host w) ->
  App.now (App.host w') = App.now (App.host w) ->
  session_ok w -> session_ok w'.
Proof.
  unfold session_ok, timers_tracked, sources_tracked, retry_ok.
  intros -> -> -> -> ->. exact id.
Qed.

Lemma closeStream_ok (w : App.World) :
  timers_tracked w -> sources_tracked w ->
  session_ok (App.closeStream w)
  /\ App.streamRef (App.refs (App.closeStream w)) = None
  /\ App.timeouts (App.host (App.closeStream w)) = [].
Proof.
  intros Ht Hs.
  destruct (closeStream_effect w Ht) as (Hto & Hrefs & _ & _ & _ & Hsrcs).
  split; [|split; [now rewrite Hrefs | exact Hto]].
  split; [now apply tracked_of_nil|]. split.
  - intros k src Hk. rewrite Hrefs. cbn [App.streamRef].
    split; [|discriminate]. intros Hopen. exfalso.
    rewrite Hsrcs in Hk.
    destruct (App.streamRef (App.refs w)) as [k0|] eqn:Hr.
    + destruct (App.sources (App.host w) !! k0) as [src0|] eqn:Hk0.
      * destruct (Nat.eq_dec k0 k) as [->|Hne].
        -- rewrite list_lookup_insert_eq in Hk
             by (now apply lookup_lt_Some in Hk0).
           injection Hk as <-. discriminate Hopen.
        -- rewrite list_lookup_insert_ne in Hk by exact Hne.
           apply (Hs k src Hk) in Hopen. congruence.
      * apply (Hs k src Hk) in Hopen. congruence.
    + apply (Hs k src Hk) in Hopen. congruence.
  - unfold retry_ok. now rewrite Hto.
Qed.

Lemma openStream_ok (id : string) (w : App.World) :
  timers_tracked w -> sources_tracked w -> session_ok (App.openStream id w).
Proof.
  intros Ht Hs.
  destruct (closeStream_ok w Ht Hs) as ((_ & Hs1 & _) & Hr1 & Hto1).
  unfold App.openStream, App.new_source.
  set (w1 := App.closeStream w) in *.
  split; [apply tracked_of_nil; exact Hto1|]. split.
  - intros k src. cbn [App.host App.refs App.sources App.streamRef].
    intros Hk.
    destruct (Nat.lt_ge_cases k (length (App.sources (App.host w1)))) as [Hlt|Hge].
    + rewrite lookup_app_l in Hk by exact Hlt.
      pose proof (Hs1 k src Hk) as Hiff. rewrite Hr1 in Hiff.
      split; [intros Ho; apply Hiff in Ho; discriminate Ho|].
      intros [= E].
      change (length (App.sources (App.host w1)) = k) in E. lia.
    + rewrite lookup_app_r in Hk by exact Hge.
      destruct (k - length (App.sources (App.host w1))) as [|d] eqn:Hd;
        [|destruct d; discriminate Hk].
      injection Hk as <-. cbn [App.es_closed].
      split; [|reflexivity]. intros _. f_equal. lia.
  - unfold retry_ok. cbn [App.host App.timeouts]. now rewrite Hto1.
Qed.

Lemma stream_handlers_ok (id : string) (e : StreamEvent) (w : App.World) :
  session_ok w -> session_ok (App.stream_handlers id e w).
Proof.
  intros H. pose proof H as (Ht & Hs & Hr).
  destruct e; cbn [App.stream_handlers];
    try (revert H; apply session_ok_ext; reflexivity).
  - apply (closeStream_ok
             (App.setStatus (fun _ => App.finished)
                (App.setResult (Some (result, reason)) w)) Ht Hs).
  - destruct (closeStream_ok
                (App.setStatus (fun _ => App.reconnecting) w) Ht Hs)
      as ((_ & Hs1 & _) & Hr1 & Hto1).
    set (w1 := App.closeStream _) in *.
    split; [|split].
    + apply (stream_handlers_tracked id OnError w Ht).
    + intros k src. unfold App.setTimeout.
      cbn [App.host App.refs App.sources App.streamRef]. apply Hs1.
    + unfold retry_ok, App.setTimeout.
      cbn [App.host App.refs App.timeouts App.streamRef App.now].
      rewrite Hto1. cbn [app App.t_due]. split; [exact Hr1 | lia].
Qed.

Lemma mock_handlers_ok (e : StreamEvent) (w : App.World) :
  session_ok w -> session_ok (App.mock_handlers e w).
Proof.
  intros H. pose proof H as (Ht & Hs & Hr).
  destruct e; cbn [App.mock_handlers];
    try (revert H; apply session_ok_ext; reflexivity).
  apply (closeStream_ok
           (App.setStatus (fun _ => App.finished)
              (App.setResult (Some (result, reason)) w)) Ht Hs).
Qed.

Lemma mock_handlers_fold_ok (out : list StreamEvent) :
  forall w, session_ok w ->
            session_ok (fold_left (fun acc e => App.mock_handlers e acc) out w).
Proof.
  induction out as [|e out IH]; intros w H; [exact H|].
  cbn [fold_left]. apply IH. now apply mock_handlers_ok.
Qed.

Lemma advance_ok (dt : Z) (w : App.World) :
  (0 <= dt)%Z -> session_ok w -> session_ok (App.advance dt w).
Proof.
  intros Hdt H. pose proof H as (Ht & Hs & Hr).
  destruct w as [v rf [nw nt tos srcs mks]].
  unfold retry_ok in Hr. cbn [App.host App.timeouts App.refs App.now] in Hr.
  unfold App.advance. cbn [App.host App.timeouts App.view App.refs App.now
    App.next_timer App.sources App.mocks].
  destruct tos as [|e [|e' tos]]; [| |destruct Hr].
  - cbn [length App.run_due]. split; [exact Ht | split; [exact Hs | exact I]].
  - cbn [length App.run_due]. unfold App.next_due.
    cbn [App.host App.timeouts App.now List.find].
    destruct (Z.leb_spec (App.t_due e) (nw + dt)) as [Hdue|Hdue].
    + apply openStream_ok; [|exact Hs].
      apply tracked_of_nil. unfold App.clearTimeout.
      cbn [App.host App.timeouts List.filter].
      now rewrite Pos.eqb_refl.
    + split; [exact Ht | split; [exact Hs|]].
      unfold retry_ok. cbn [App.host App.timeouts App.refs App.now].
      destruct Hr as [Hr Hb]. split; [exact Hr | lia].
Qed.

Lemma step_ok (w : App.World) (i : App.Input) :
  session_ok w -> session_ok (App.step w i).
Proof.
  intros H. pose proof H as (Ht & Hs & Hr). destruct i; cbn [App.step].
  - unfold App.handleStart.
    destruct (_ || _); [exact H|]. destruct (_ <=? _)%Z; [exact H|].
    apply (session_ok_ext
             (App.closeStream (App.setStatus (fun _ => App.connecting)
                                 (App.setError None w)))); try reflexivity.
    apply (closeStream_ok
             (App.setStatus (fun _ => App.connecting) (App.setError None w))
             Ht Hs).
  - unfold App.match_created.
    apply (openStream_ok id (App.setMatchId (Some id) w) Ht Hs).
  - unfold App.mock_match_created. cbn [createMockStream].
    set (w2 := fold_left _ _ _).
    assert (H2 : session_ok w2) by (apply mock_handlers_fold_ok; exact H).
    revert H2. apply session_ok_ext; reflexivity.
  - exact H.
  - unfold App.source_calls.
    destruct (App.sources (App.host w) !! k) as [src|]; [|exact H].
    destruct (App.es_closed src); [exact H|].
    now apply stream_handlers_ok.
  - unfold App.mock_ticks.
    destruct (App.mocks (App.host w) !! k) as [s|]; [|exact H].
    destruct (sim_step s t) as [s' out].
    apply mock_handlers_fold_ok. exact H.
  - destruct (Z.leb_spec 0 dt); [|exact H]. now apply advance_ok.
  - unfold App.resetMatch.
    apply (session_ok_ext (App.closeStream w)); try reflexivity.
    apply (closeStream_ok w Ht Hs).
Qed.

Lemma run_snoc (w : App.World) (inputs : list App.Input) (i : App.Input) :
  App.run w (inputs ++ [i]) = App.step (App.run w inputs) i.
Proof. unfold App.run. now rewrite fold_left_app. Qed.

Lemma run_app (w : App.World) (a b : list App.Input) :
  App.run w (a ++ b) = App.run (App.run w a) b.
Proof. unfold App.run. now rewrite fold_left_app. Qed.

Lemma run_ok (inputs : list App.Input) :
  forall w, session_ok w -> session_ok (App.run w inputs).
Proof.
  induction inputs as [|i inputs IH]; intros w H; [exact H|].
  apply IH. now apply step_ok.
Qed.

Lemma reachable_ok (inputs : list App.Input) :
  session_ok (App.run App.initial_world inputs).
Proof.
  apply run_ok. split; [constructor|]. split; [|exact I].
  intros k src Hk. destruct k; discriminate Hk.
Qed.

(** X16.  At most one connection is open.  In every state a session can
    reach from its start, whatever the user, the requests, the sources,
    the simulators and the clock do, a source the component has made is
    open exactly when it is the one [streamRef] holds: every other
    source has been closed. *)
Theorem one_open_source (inputs : list App.Input) (k : nat)
    (src : App.EventSource) :
  App.sources (App.host (App.run App.initial_world inputs)) !! k = Some src ->
  (App.es_closed src = false
   <-> App.streamRef (App.refs (App.run App.initial_world inputs)) = Some k).
Proof.
  destruct (reachable_ok inputs) as (_ & Hs & _). apply Hs.
Qed.

Lemma one_open_source_witness :
  App.sources
    (App.host (App.run App.initial_world
                 [App.Start "stockfish-16" "lc0-0.30" 300000;
                  App.MatchCreated "m1";
                  App.SourceCalls 0 OnError;
                  App.Advance 1500])) !! 1
  = Some (App.mkSource "m1" false)
  /\ (App.es_closed (App.mkSource "m1" false) = false
      <-> App.streamRef
            (App.refs (App.run App.initial_world
                         [App.Start "stockfish-16" "lc0-0.30" 300000;
                          App.MatchCreated "m1";
                          App.SourceCalls 0 OnError;
                          App.Advance 1500])) = Some 1).
Proof.
  split; [reflexivity|].
  apply (one_open_source
           [App.Start "stockfish-16" "lc0-0.30" 300000;
            App.MatchCreated "m1";
            App.SourceCalls 0 OnError;
            App.Advance 1500] 1 (App.mkSource "m1" false)).
  reflexivity.
Defined.

(** X17.  At most one retry is pending.  In every state a session can
    reach from its start, either no timeout is pending, or exactly one
    is: it is the one [reconnectTimerRef] holds, no source is current
    while it waits, and it is due later than now and at most 1500 ms
    from now. *)
Theorem one_pending_retry (inputs : list App.Input) :
  App.timeouts (App.host (App.run App.initial_world inputs)) = []
  \/ exists e,
       App.timeouts (App.host (App.run App.initial_world inputs)) = [e]
       /\ App.reconnectTimerRef (App.refs (App.run App.initial_world inputs))
          = Some (App.t_id e)
       /\ App.streamRef (App.refs (App.run App.initial_world inputs)) = None
       /\ (App.now (App.host (App.run App.initial_world inputs))
           < App.t_due e
           <= App.now (App.host (App.run App.initial_world inputs)) + 1500)%Z.
Proof.
  destruct (reachable_ok inputs) as (Ht & _ & Hr).
  unfold timers_tracked, retry_ok in *.
  destruct (App.timeouts _) as [|e [|e' tos]]; [now left | | destruct Hr].
  right. exists e. apply Forall_cons_1 in Ht as [Ht _].
  destruct Hr as [Hr Hb]. now repeat split.
Qed.

(** ** After stop, and after the Result *)

Lemma closed_all (w : App.World) :
  sources_tracked w -> App.streamRef (App.refs w) = None ->
  Forall (fun src => App.es_closed src = true) (App.sources (App.host w)).
Proof.
  intros Hs Hr. apply Forall_lookup. intros k src Hk.
  destruct (App.es_closed src) eqn:E; [reflexivity|].
  apply (Hs k src Hk) in E. congruence.
Qed.

Lemma closeStream_quiet (w : App.World) :
  session_ok w -> quiet (App.closeStream w).
Proof.
  intros (Ht & Hs & _).
  destruct (closeStream_ok w Ht Hs) as ((_ & Hs1 & _) & Hr1 & Hto1).
  split; [exact Hto1 | now apply closed_all].
Qed.

Lemma quiet_step (w : App.World) (i : App.Input) :
  quiet w -> is_passive i = true ->
  App.view (App.step w i) = App.view w /\ quiet (App.step w i).
Proof.
  intros [Hto Hcl] Hi. destruct i; try discriminate Hi; cbn [App.step].
  - unfold App.source_calls.
    destruct (App.sources (App.host w) !! k) as [src|] eqn:Hk;
      [|now split].
    rewrite (Forall_lookup_1 _ _ _ _ Hcl Hk). now split.
  - destruct (0 <=? dt)%Z; [|now split].
    rewrite (advance_no_timeout w dt Hto). now split.
Qed.

Lemma quiet_run (post : list App.Input) :
  forall w, quiet w -> forallb is_passive post = true ->
            App.view (App.run w post) = App.view w /\ quiet (App.run w post).
Proof.
  induction post as [|i post IH]; intros w Hq Hp; [now split|].
  cbn [forallb] in Hp. apply andb_true_iff in Hp as [Hi Hp].
  destruct (quiet_step w i Hq Hi) as [Hv Hq'].
  destruct (IH _ Hq' Hp) as [Hv' Hq''].
  change (App.run w (i :: post)) with (App.run (App.step w i) post).
  split; [congruence | exact Hq''].
Qed.

(** X19.  The Result ends the session.  From any state a session can
    reach, when the open source delivers a Result, the result is stored
    and the status becomes finished, with every other state variable as
    it was; no timeout is pending and every source is closed; and
    whatever the sources send and however much time passes afterwards,
    the state variables stay so. *)
Theorem result_is_final (inputs post : list App.Input) (k : nat)
    (src : App.EventSource) (r reason : string) :
  App.sources (App.host (App.run App.initial_world inputs)) !! k = Some src ->
  App.es_closed src = false ->
  forallb is_passive post = true ->
  App.view (App.run App.initial_world
              (inputs ++ App.SourceCalls k (OnResult r reason) :: post))
  = App.view (App.setStatus (fun _ => App.finished)
                (App.setResult (Some (r, reason))
                   (App.run App.initial_world inputs)))
  /\ quiet (App.run App.initial_world
              (inputs ++ App.SourceCalls k (OnResult r reason) :: post)).
Proof.
  intros Hk Hopen Hp. rewrite run_app.
  set (w := App.run App.initial_world inputs) in *.
  change (App.run w (App.SourceCalls k (OnResult r reason) :: post))
    with (App.run (App.source_calls k (OnResult r reason) w) post).
  unfold App.source_calls. rewrite Hk, Hopen. cbn [App.stream_handlers].
  set (w1 := App.setStatus _ _).
  assert (H1 : session_ok w1).
  { apply (session_ok_ext w); try reflexivity. apply reachable_ok. }
  destruct (quiet_run post _ (closeStream_quiet w1 H1) Hp) as [Hv Hq].
  split; [|exact Hq]. rewrite Hv.
  destruct H1 as (Ht & _). now destruct (closeStream_effect w1 Ht) as (_ & _ & -> & _).
Qed.

Lemma result_is_final_witness :
  App.sources
    (App.host (App.run App.initial_world
                 [App.Start "stockfish-16" "lc0-0.30" 300000;
                  App.MatchCreated "m1"])) !! 0
  = Some (App.mkSource "m1" false)
  /\ App.es_closed (App.mkSource "m1" false) = false
  /\ forallb is_passive [App.SourceCalls 0 OnError; App.Advance 5000] = true
  /\ (App.view
        (App.run App.initial_world
           ([App.Start "stockfish-16" "lc0-0.30" 300000;
             App.MatchCreated "m1"]
            ++ App.SourceCalls 0 (OnResult "0-1" "resignation")
               :: [App.SourceCalls 0 OnError; App.Advance 5000]))
      = App.view (App.setStatus (fun _ => App.finished)
                    (App.setResult (Some ("0-1", "resignation"))
                       (App.run App.initial_world
                          [App.Start "stockfish-16" "lc0-0.30" 300000;
                           App.MatchCreated "m1"])))
      /\ quiet
           (App.run App.initial_world
              ([App.Start "stockfish-16" "lc0-0.30" 300000;
                App.MatchCreated "m1"]
               ++ App.SourceCalls 0 (OnResult "0-1" "resignation")
                  :: [App.SourceCalls 0 OnError; App.Advance 5000]))).
Proof.
  do 3 (split; [reflexivity|]).
  apply (result_is_final
           [App.Start "stockfish-16" "lc0-0.30" 300000; App.MatchCreated "m1"]
           [App.SourceCalls 0 OnError; App.Advance 5000]
           0 (App.mkSource "m1" false) "0-1" "resignation"); reflexivity.
Defined.

(* ================================================================== *)
(** * Session: the simulators, and what is left after stop *)
(* ================================================================== *)

Lemma sim_dead_step (s : Sim) (t : Tick) :
  sim_dead s -> sim_step s t = (s, []) \/ sim_step s t = (close_sim s, []).
Proof.
  intros (Hc & Hct & Hmt). destruct t; cbn [sim_step]; rewrite ?Hct, ?Hmt;
    [now left | now left | now right].
Qed.

Lemma close_sim_dead (s : Sim) : sim_dead s -> close_sim s = s.
Proof.
  destruct s. unfold sim_dead, close_sim. cbn. now intros (-> & -> & ->).
Qed.

Lemma mocks_tracked_ext (w w' : App.World) :
  App.mockStreamRef (App.refs w') = App.mockStreamRef (App.refs w) ->
  App.mocks (App.host w') = App.mocks (App.host w) ->
  mocks_tracked w -> mocks_tracked w'.
Proof. unfold mocks_tracked. intros -> ->. exact id. Qed.

Lemma dead_mocks_tracked (w : App.World) :
  Forall sim_dead (App.mocks (App.host w)) -> mocks_tracked w.
Proof.
  intros H k s Hk. left. exact (Forall_lookup_1 _ _ _ _ H Hk).
Qed.

(** closeStream leaves every simulator closed. *)
Lemma closeStream_mocks_dead (w : App.World) :
  mocks_tracked w ->
  Forall sim_dead (App.mocks (App.host (App.closeStream w))).
Proof.
  intros Hm. apply Forall_lookup. intros k s.
  assert (E : App.mocks (App.host (App.closeStream w))
              = match App.mockStreamRef (App.refs w) with
                | Some k0 =>
                    match App.mocks (App.host w) !! k0 with
                    | Some s0 => <[k0 := close_sim s0]> (App.mocks (App.host w))
                    | None => App.mocks (App.host w)
                    end
                | None => App.mocks (App.host w)
                end).
  { unfold App.closeStream, App.close_mock, App.close_source, App.clearTimeout.
    destruct (App.reconnectTimerRef (App.refs w)),
             (App.streamRef (App.refs w)) as [k1|],
             (App.mockStreamRef (App.refs w)); reflexivity. }
  rewrite E. clear E.
  assert (Hother : forall k0, App.mocks (App.host w) !! k = Some s ->
                              App.mockStreamRef (App.refs w) = Some k0 ->
                              k0 <> k -> sim_dead s).
  { intros k0 Hk Hr Hne. destruct (Hm k s Hk) as [Hd|Hr']; [exact Hd|].
    congruence. }
  destruct (App.mockStreamRef (App.refs w)) as [k0|] eqn:Hr.
  - destruct (App.mocks (App.host w) !! k0) as [s0|] eqn:Hk0.
    + destruct (Nat.eq_dec k0 k) as [->|Hne].
      * rewrite list_lookup_insert_eq by (now apply lookup_lt_Some in Hk0).
        intros [= <-]. now repeat split.
      * rewrite list_lookup_insert_ne by exact Hne.
        intros Hk. now apply (Hother k0).
    + intros Hk. destruct (Hm k s Hk) as [Hd|Hr']; [exact Hd|].
      congruence.
  - intros Hk. destruct (Hm k s Hk) as [Hd|Hr']; [exact Hd | congruence].
Qed.

Lemma closeStream_mocks_tracked (w : App.World) :
  mocks_tracked w -> mocks_tracked (App.closeStream w).
Proof. intros H. now apply dead_mocks_tracked, closeStream_mocks_dead. Qed.

Lemma openStream_mocks_dead (id : string) (w : App.World) :
  mocks_tracked w ->
  Forall sim_dead (App.mocks (App.host (App.openStream id w))).
Proof. intros H. exact (closeStream_mocks_dead w H). Qed.

Lemma stream_handlers_mocks_tracked (id : string) (e : StreamEvent)
    (w : App.World) :
  mocks_tracked w -> mocks_tracked (App.stream_handlers id e w).
Proof.
  intros H. destruct e; cbn [App.stream_handlers]; try exact H.
  - apply (closeStream_mocks_tracked
             (App.setStatus (fun _ => App.finished)
                (App.setResult (Some (result, reason)) w)) H).
  - apply dead_mocks_tracked.
    exact (closeStream_mocks_dead
             (App.setStatus (fun _ => App.reconnecting) w) H).
Qed.

Lemma mock_handlers_mocks_tracked (e : StreamEvent) (w : App.World) :
  mocks_tracked w -> mocks_tracked (App.mock_handlers e w).
Proof.
  intros H. destruct e; cbn [App.mock_handlers]; try exact H.
  apply (closeStream_mocks_tracked
           (App.setStatus (fun _ => App.finished)
              (App.setResult (Some (result, reason)) w)) H).
Qed.

Lemma mock_handlers_fold_mocks_tracked (out : list StreamEvent) :
  forall w, mocks_tracked w ->
            mocks_tracked (fold_left (fun acc e => App.mock_handlers e acc) out w).
Proof.
  induction out as [|e out IH]; intros w H; [exact H|].
  cbn [fold_left]. apply IH. now apply mock_handlers_mocks_tracked.
Qed.

Lemma run_due_mocks_tracked (fuel : nat) :
  forall w, mocks_tracked w -> mocks_tracked (App.run_due fuel w).
Proof.
  induction fuel as [|fuel IH]; intros w H; [exact H|].
  cbn [App.run_due]. destruct (App.next_due (App.host w)) as [e|]; [|exact H].
  apply IH, dead_mocks_tracked.
  apply (openStream_mocks_dead (App.t_matchId e)
           (App.mkWorld (App.view w) (App.refs w)
              (App.clearTimeout (App.t_id e) (App.host w)))).
  exact H.
Qed.

(** Every step but the making of a simulator keeps the simulators
    tracked. *)
Lemma step_mocks_tracked (w : App.World) (i : App.Input) :
  (forall id ms, i <> App.MockMatchCreated id ms) ->
  mocks_tracked w -> mocks_tracked (App.step w i).
Proof.
  intros Hi H. destruct i; cbn [App.step].
  - unfold App.handleStart.
    destruct (_ || _); [exact H|]. destruct (_ <=? _)%Z; [exact H|].
    apply dead_mocks_tracked.
    exact (closeStream_mocks_dead
             (App.setStatus (fun _ => App.connecting) (App.setError None w)) H).
  - apply dead_mocks_tracked.
    exact (openStream_mocks_dead id (App.setMatchId (Some id) w) H).
  - now contradiction (Hi id initialMs).
  - exact H.
  - unfold App.source_calls.
    destruct (App.sources (App.host w) !! k) as [src|]; [|exact H].
    destruct (App.es_closed src); [exact H|].
    now apply stream_handlers_mocks_tracked.
  - unfold App.mock_ticks.
    destruct (App.mocks (App.host w) !! k) as [s|] eqn:Hk; [|exact H].
    destruct (sim_step s t) as [s' out] eqn:E.
    apply mock_handlers_fold_mocks_tracked.
    intros k' s''. cbn [App.host App.mocks App.refs].
    destruct (Nat.eq_dec k k') as [<-|Hne].
    + rewrite list_lookup_insert_eq by (now apply lookup_lt_Some in Hk).
      intros [= <-]. destruct (H k s Hk) as [Hd|Hr]; [left | now right].
      destruct (sim_dead_step s t Hd) as [E'|E']; rewrite E' in E;
        injection E as <- _; [exact Hd | now repeat split].
    + rewrite list_lookup_insert_ne by exact Hne. apply H.
  - destruct (0 <=? dt)%Z; [|exact H].
    unfold App.advance. now apply run_due_mocks_tracked.
  - apply dead_mocks_tracked. exact (closeStream_mocks_dead w H).
Qed.

(** An accepted start leaves every simulator closed, and the simulator
    made right after it is the only one that runs. *)
Lemma mock_start_tracked (w : App.World)
    (whiteEngineId blackEngineId id : string) (initialMs initialMs' : Z) :
  start_accepted whiteEngineId blackEngineId initialMs = true ->
  mocks_tracked w ->
  mocks_tracked
    (App.mock_match_created id initialMs'
       (App.handleStart whiteEngineId blackEngineId initialMs w)).
Proof.
  unfold start_accepted. intros Hacc H.
  apply andb_true_iff in Hacc as [Hacc Hms].
  apply andb_true_iff in Hacc as [Hw Hb]. apply Z.ltb_lt in Hms.
  unfold App.handleStart. rewrite Hw, Hb. cbn [negb orb].
  destruct (Z.leb_spec initialMs 0); [lia|].
  pose proof (closeStream_mocks_dead
                (App.setStatus (fun _ => App.connecting) (App.setError None w))
                H) as Hdead.
  set (w0 := App.closeStream _) in *.
  unfold App.mock_match_created. cbn [createMockStream fold_left].
  intros k s.
  cbn [App.mock_handlers App.setStatus App.setResult App.setPgn App.setFen
       App.setMatchId App.host App.refs App.view App.mocks App.mockStreamRef
       App.streamRef App.reconnectTimerRef App.now App.next_timer
       App.timeouts App.sources].
  intros Hk.
  destruct (Nat.lt_ge_cases k (length (App.mocks (App.host w0)))) as [Hlt|Hge].
  - rewrite lookup_app_l in Hk by exact Hlt.
    left. exact (Forall_lookup_1 _ _ _ _ Hdead Hk).
  - right. f_equal.
    apply lookup_lt_Some in Hk. rewrite length_app in Hk.
    cbn [length] in Hk. lia.
Qed.

Lemma run_mocks_tracked (n : nat) :
  forall (inputs : list App.Input) (w : App.World),
    length inputs <= n ->
    mock_answers_at_once inputs = true ->
    mocks_tracked w -> mocks_tracked (App.run w inputs).
Proof.
  induction n as [|n IH]; intros inputs w Hlen Hat H.
  - destruct inputs; [exact H | cbn in Hlen; lia].
  - destruct inputs as [|i rest]; [exact H|].
    cbn [length] in Hlen.
    change (App.run w (i :: rest)) with (App.run (App.step w i) rest).
    destruct i;
      try (apply IH; [lia | exact Hat
                      | apply step_mocks_tracked; [discriminate | exact H]]).
    + destruct rest as [|j rest'].
      * apply step_mocks_tracked; [discriminate | exact H].
      * cbn [length] in Hlen.
        destruct j;
          try (apply IH; [cbn [length]; lia | exact Hat
                          | apply step_mocks_tracked; [discriminate | exact H]]).
        cbn [mock_answers_at_once] in Hat.
        apply andb_true_iff in Hat as [Hat Hrest].
        apply andb_true_iff in Hat as [Hacc _].
        change (App.run (App.step w (App.Start whiteEngineId blackEngineId
                                       initialMs))
                  (App.MockMatchCreated id initialMs0 :: rest'))
          with (App.run
                  (App.mock_match_created id initialMs0
                     (App.handleStart whiteEngineId blackEngineId initialMs w))
                  rest').
        apply IH; [lia | exact Hrest|].
        now apply mock_start_tracked.
    + discriminate Hat.
Qed.

Lemma reachable_mocks_tracked (inputs : list App.Input) :
  mock_answers_at_once inputs = true ->
  mocks_tracked (App.run App.initial_world inputs).
Proof.
  intros Hat. apply (run_mocks_tracked (length inputs)); [lia | exact Hat|].
  intros k s Hk. destruct k; discriminate Hk.
Qed.

Lemma silent_step (w : App.World) (i : App.Input) :
  silent w -> is_background i = true ->
  App.view (App.step w i) = App.view w /\ silent (App.step w i).
Proof.
  intros [Hq Hd] Hi. destruct i; try discriminate Hi.
  - destruct (quiet_step w (App.SourceCalls k e) Hq eq_refl) as [Hv Hq'].
    split; [exact Hv|]. split; [exact Hq'|].
    cbn [App.step] in *. unfold App.source_calls in *.
    destruct Hq as [_ Hcl].
    destruct (App.sources (App.host w) !! k) as [src|] eqn:Hk; [|exact Hd].
    rewrite (Forall_lookup_1 _ _ _ _ Hcl Hk). exact Hd.
  - cbn [App.step]. unfold App.mock_ticks.
    destruct (App.mocks (App.host w) !! k) as [s|] eqn:Hk; [|now split].
    pose proof (Forall_lookup_1 _ _ _ _ Hd Hk) as Hs.
    assert (E : exists s', sim_step s t = (s', []) /\ sim_dead s').
    { destruct (sim_dead_step s t Hs) as [E|E]; rewrite E;
        eexists; (split; [reflexivity|]); [exact Hs | now repeat split]. }
    destruct E as (s' & -> & Hs'). cbn [fold_left App.view].
    split; [reflexivity|]. split; [exact Hq|].
    cbn [App.host App.mocks]. apply Forall_insert; assumption.
  - destruct (quiet_step w (App.Advance dt) Hq eq_refl) as [Hv Hq'].
    split; [exact Hv|]. split; [exact Hq'|].
    cbn [App.step]. destruct (0 <=? dt)%Z; [|exact Hd].
    destruct Hq as [Hto _]. rewrite (advance_no_timeout w dt Hto). exact Hd.
Qed.

Lemma silent_run (post : list App.Input) :
  forall w, silent w -> forallb is_background post = true ->
            App.view (App.run w post) = App.view w /\ silent (App.run w post).
Proof.
  induction post as [|i post IH]; intros w Hs Hp; [now split|].
  cbn [forallb] in Hp. apply andb_true_iff in Hp as [Hi Hp].
  destruct (silent_step w i Hs Hi) as [Hv Hs'].
  destruct (IH _ Hs' Hp) as [Hv' Hs''].
  change (App.run w (i :: post)) with (App.run (App.step w i) post).
  split; [congruence | exact Hs''].
Qed.

(** X18.  Stop is final for what came before.  From any state a session
    can reach (the simulated match answering its request at once, as
    createMockMatch does), after stop the state variables are those of a
    fresh session, no timeout is pending, every source made so far is
    closed and every simulator made so far is closed with its intervals
    cleared; and whatever the old sources send, however the intervals of
    the old simulators fire and however much time passes afterwards, the
    state variables stay those of a fresh session. *)
Theorem stop_is_final (inputs post : list App.Input) :
  mock_answers_at_once inputs = true ->
  forallb is_background post = true ->
  App.view (App.run App.initial_world (inputs ++ App.Stop :: post))
  = App.initial_view
  /\ silent (App.run App.initial_world (inputs ++ App.Stop :: post)).
Proof.
  intros Hat Hp. rewrite run_app.
  change (App.run ?w (App.Stop :: post))
    with (App.run (App.resetMatch w) post).
  set (w := App.run App.initial_world inputs).
  assert (Hs : silent (App.resetMatch w)).
  { split; [apply (closeStream_quiet w (reachable_ok inputs))|].
    exact (closeStream_mocks_dead w (reachable_mocks_tracked inputs Hat)). }
  destruct (silent_run post _ Hs Hp) as [Hv Hs']. now split.
Qed.

Lemma stop_is_final_witness :
  mock_answers_at_once
    [App.Start "stockfish-16" "lc0-0.30" 300000;
     App.MockMatchCreated "mock-1" 300000;
     App.MockTicks 0 ClockTimerFires;
     App.MockTicks 0 MoveTimerFires] = true
  /\ forallb is_background
       [App.MockTicks 0 ClockTimerFires;
        App.MockTicks 0 MoveTimerFires;
        App.Advance 2000;
        App.SourceCalls 0 OnError] = true
  /\ (App.view
        (App.run App.initial_world
           ([App.Start "stockfish-16" "lc0-0.30" 300000;
             App.MockMatchCreated "mock-1" 300000;
             App.MockTicks 0 ClockTimerFires;
             App.MockTicks 0 MoveTimerFires]
            ++ App.Stop
               :: [App.MockTicks 0 ClockTimerFires;
                   App.MockTicks 0 MoveTimerFires;
                   App.Advance 2000;
                   App.SourceCalls 0 OnError]))
      = App.initial_view
      /\ silent
           (App.run App.initial_world
              ([App.Start "stockfish-16" "lc0-0.30" 300000;
                App.MockMatchCreated "mock-1" 300000;
                App.MockTicks 0 ClockTimerFires;
                App.MockTicks 0 MoveTimerFires]
               ++ App.Stop
                  :: [App.MockTicks 0 ClockTimerFires;
                      App.MockTicks 0 MoveTimerFires;
                      App.Advance 2000;
                      App.SourceCalls 0 OnError]))).
Proof.
  split; [reflexivity|]. split; [reflexivity|].
  apply (stop_is_final
           [App.Start "stockfish-16" "lc0-0.30" 300000;
            App.MockMatchCreated "mock-1" 300000;
            App.MockTicks 0 ClockTimerFires;
            App.MockTicks 0 MoveTimerFires]
           [App.MockTicks 0 ClockTimerFires;
            App.MockTicks 0 MoveTimerFires;
            App.Advance 2000;
            App.SourceCalls 0 OnError]); reflexivity.
Defined.

(* ================================================================== *)
(** * Session: updates, and the reconnection loop *)
(* ================================================================== *)

Lemma move_views_app (a b : list StreamEvent) :
  move_views (a ++ b) = move_views a ++ move_views b.
Proof. apply omap_app. Qed.

(** X20.  Clock and Move events only bring news, and the last one wins.
    While a source is open, after any sequence of its Clock and Move
    events the state variables show the last Clock and the last Move
    received, in arrival order and whatever their plies (a Move with a
    lower ply than the one shown replaces it); the status, the result,
    the match id and the error text are as before, and so are the
    handles, the timeouts and the sources. *)
Theorem updates_latest_wins (w : App.World) (k : nat)
    (src : App.EventSource) (trace : list StreamEvent) :
  App.sources (App.host w) !! k = Some src ->
  App.es_closed src = false ->
  forallb is_update trace = true ->
  App.run w (map (App.SourceCalls k) trace)
  = App.mkWorld (updated_view (App.view w) trace) (App.refs w) (App.host w).
Proof.
  intros Hk Hopen. induction trace as [|e trace IH] using rev_ind; intros Hu.
  - destruct w as [[] ? ?]. reflexivity.
  - rewrite forallb_app in Hu. apply andb_true_iff in Hu as [Hu He].
    rewrite map_app. cbn [map]. rewrite run_snoc, (IH Hu). cbn [App.step].
    unfold App.source_calls. cbn [App.host]. rewrite Hk, Hopen.
    unfold updated_view.
    rewrite move_views_app, clock_values_app.
    destruct e; try discriminate He; cbn [App.stream_handlers].
    + change (move_views [OnClock white_ms black_ms]) with
        (@nil (string * string * string)).
      change (clock_values [OnClock white_ms black_ms])
        with [(white_ms, black_ms)].
      rewrite app_nil_r, last_snoc. reflexivity.
    + change (move_views [OnMove ply uci san fen pgn]) with [(uci, fen, pgn)].
      change (clock_values [OnMove ply uci san fen pgn]) with (@nil (Z * Z)).
      rewrite app_nil_r, last_snoc. reflexivity.
Qed.

Lemma updates_latest_wins_witness :
  App.sources
    (App.host (App.run App.initial_world
                 [App.Start "stockfish-16" "lc0-0.30" 300000;
                  App.MatchCreated "m1"])) !! 0
  = Some (App.mkSource "m1" false)
  /\ App.es_closed (App.mkSource "m1" false) = false
  /\ forallb is_update
       [OnMove 2 "c7c5" "c5" "8/8/8/8/8/8/8/8 w - - 0 1" "1. e4 c5";
        OnClock 1000 2000;
        OnMove 1 "e2e4" "e4" "8/8/8/8/8/8/8/8 b - - 0 1" "1. e4"] = true
  /\ App.run
       (App.run App.initial_world
          [App.Start "stockfish-16" "lc0-0.30" 300000; App.MatchCreated "m1"])
       (map (App.SourceCalls 0)
          [OnMove 2 "c7c5" "c5" "8/8/8/8/8/8/8/8 w - - 0 1" "1. e4 c5";
           OnClock 1000 2000;
           OnMove 1 "e2e4" "e4" "8/8/8/8/8/8/8/8 b - - 0 1" "1. e4"])
     = App.mkWorld
         (updated_view
            (App.view
               (App.run App.initial_world
                  [App.Start "stockfish-16" "lc0-0.30" 300000;
                   App.MatchCreated "m1"]))
            [OnMove 2 "c7c5" "c5" "8/8/8/8/8/8/8/8 w - - 0 1" "1. e4 c5";
             OnClock 1000 2000;
             OnMove 1 "e2e4" "e4" "8/8/8/8/8/8/8/8 b - - 0 1" "1. e4"])
         (App.refs
            (App.run App.initial_world
               [App.Start "stockfish-16" "lc0-0.30" 300000;
                App.MatchCreated "m1"]))
         (App.host
            (App.run App.initial_world
               [App.Start "stockfish-16" "lc0-0.30" 300000;
                App.MatchCreated "m1"])).
Proof.
  do 3 (split; [reflexivity|]).
  apply (updates_latest_wins
           (App.run App.initial_world
              [App.Start "stockfish-16" "lc0-0.30" 300000;
               App.MatchCreated "m1"])
           0 (App.mkSource "m1" false)); reflexivity.
Defined.

(** ** The reconnection loop *)

(** One failure of the current source and 1500 ms: what is left. *)
Lemma failure_cycle_effect (w : App.World) (k : nat) (id : string) :
  App.sources (App.host w) !! k = Some (App.mkSource id false) ->
  App.streamRef (App.refs w) = Some k ->
  timers_tracked w ->
  failure_cycle w
  = App.mkWorld
      (App.view (App.setStatus (fun _ => App.reconnecting) w))
      (App.mkRefs (Some (length (App.sources (App.host w)))) None None)
      (App.mkHost (App.now (App.host w) + 1500)
         (Pos.succ (App.next_timer (App.host w))) []
         (<[k := App.mkSource id true]> (App.sources (App.host w))
          ++ [App.mkSource id false])
         (App.mocks (App.host (App.closeStream w)))).
Proof.
  intros Hk Hr Ht. unfold failure_cycle, current_fails. rewrite Hr.
  rewrite (onError_effect w k id Hk Hr Ht).
  change (App.step ?x (App.Advance 1500)) with (App.advance 1500 x).
  set (v := App.view _). set (mks := App.mocks _).
  destruct (advance_one_timeout v (App.next_timer (App.host w))
              (Pos.succ (App.next_timer (App.host w)))
              (App.now (App.host w)) (App.now (App.host w) + 1500) 1500 id
              (<[k := App.mkSource id true]> (App.sources (App.host w))) mks)
    as [_ H].
  rewrite H by lia. now rewrite length_insert.
Qed.

Lemma replicate_snoc {A : Type} (n : nat) (x : A) :
  replicate n x ++ [x] = replicate (S n) x.
Proof.
  induction n as [|n IH]; [reflexivity|].
  cbn [replicate app]. now rewrite IH.
Qed.

(** X21.  The reconnection loop has no budget.  From a state whose
    current source is open, when [n] times in a row the current source
    fails and 1500 ms pass, the session has made exactly [n] new
    sources, all for the same match, after the old ones: the failed
    sources are closed, the last one made is open and current, and (for
    [n] other than zero) no timeout is pending; the status is
    reconnecting as soon as [n] is not zero (only the source's onOpen
    leaves it), and the other state variables are as they were before
    the failures. *)
Theorem reconnect_loop (w : App.World) (k : nat) (id : string) (n : nat) :
  App.sources (App.host w) !! k = Some (App.mkSource id false) ->
  App.streamRef (App.refs w) = Some k ->
  timers_tracked w ->
  let w' := Nat.iter n failure_cycle w in
  timers_tracked w'
  /\ (exists k',
        App.streamRef (App.refs w') = Some k'
        /\ App.sources (App.host w') !! k' = Some (App.mkSource id false))
  /\ length (App.sources (App.host w')) = length (App.sources (App.host w)) + n
  /\ App.now (App.host w') = (App.now (App.host w) + 1500 * Z.of_nat n)%Z
  /\ App.view w'
     = match n with
       | 0 => App.view w
       | S _ => App.view (App.setStatus (fun _ => App.reconnecting) w)
       end
  /\ App.timeouts (App.host w')
     = match n with
       | 0 => App.timeouts (App.host w)
       | S _ => []
       end
  /\ App.streamRef (App.refs w')
     = match n with
       | 0 => Some k
       | S m => Some (length (App.sources (App.host w)) + m)
       end
  /\ App.sources (App.host w')
     = match n with
       | 0 => App.sources (App.host w)
       | S m =>
           <[k := App.mkSource id true]> (App.sources (App.host w))
           ++ replicate m (App.mkSource id true) ++ [App.mkSource id false]
       end.
Proof.
  intros Hk Hr Ht. cbv zeta. induction n as [|n IH].
  - cbn [Nat.iter nat_rect]. split; [exact Ht|]. split; [now exists k|].
    split; [lia|]. split; [lia|]. repeat split. exact Hr.
  - change (Nat.iter (S n) failure_cycle w)
      with (failure_cycle (Nat.iter n failure_cycle w)).
    destruct IH as (Ht' & (k' & Hr' & Hk') & Hlen & Hnow & Hv & _ & Href & Hsrc).
    set (wn := Nat.iter n failure_cycle w) in *.
    rewrite (failure_cycle_effect wn k' id Hk' Hr' Ht').
    split; [apply tracked_of_nil; reflexivity|]. split.
    { exists (length (App.sources (App.host wn))). split; [reflexivity|].
      cbn [App.host App.sources].
      rewrite lookup_app_r by (rewrite length_insert; lia).
      rewrite length_insert, Nat.sub_diag. reflexivity. }
    cbn [App.host App.sources App.now App.view App.timeouts App.refs
         App.streamRef].
    rewrite length_app, length_insert, Hlen, Hnow. cbn [length].
    split; [lia|]. split; [lia|]. split.
    { unfold App.setStatus. cbn [App.view]. rewrite Hv.
      destruct n; reflexivity. }
    split; [reflexivity|]. split; [f_equal; lia|].
    rewrite Hr' in Href. rewrite Hsrc.
    destruct n as [|m].
    + injection Href as ->. reflexivity.
    + injection Href as ->.
      set (A := <[k := App.mkSource id true]> (App.sources (App.host w))).
      assert (HA : length A = length (App.sources (App.host w)))
        by apply length_insert.
      rewrite insert_app_r_alt by lia.
      replace (length (App.sources (App.host w)) + m - length A) with m by lia.
      rewrite insert_app_r_alt by (rewrite length_replicate; lia).
      rewrite length_replicate, Nat.sub_diag. cbn [insert list_insert].
      rewrite <- !app_assoc. f_equal.
      rewrite (app_assoc (replicate m _)), replicate_snoc. reflexivity.
Qed.

Lemma reconnect_loop_witness :
  App.sources
    (App.host (App.run App.initial_world
                 [App.Start "stockfish-16" "lc0-0.30" 300000;
                  App.MatchCreated "m1"])) !! 0
  = Some (App.mkSource "m1" false)
  /\ App.streamRef
       (App.refs (App.run App.initial_world
                    [App.Start "stockfish-16" "lc0-0.30" 300000;
                     App.MatchCreated "m1"])) = Some 0
  /\ timers_tracked
       (App.run App.initial_world
          [App.Start "stockfish-16" "lc0-0.30" 300000; App.MatchCreated "m1"])
  /\ let w := App.run App.initial_world
                [App.Start "stockfish-16" "lc0-0.30" 300000;
                 App.MatchCreated "m1"] in
     let w' := Nat.iter 3 failure_cycle w in
     timers_tracked w'
     /\ (exists k',
           App.streamRef (App.refs w') = Some k'
           /\ App.sources (App.host w') !! k' = Some (App.mkSource "m1" false))
     /\ length (App.sources (App.host w'))
        = length (App.sources (App.host w)) + 3
     /\ App.now (App.host w')
        = (App.now (App.host w) + 1500 * Z.of_nat 3)%Z
     /\ App.view w'
        = App.view (App.setStatus (fun _ => App.reconnecting) w)
     /\ App.timeouts (App.host w') = []
     /\ App.streamRef (App.refs w')
        = Some (length (App.sources (App.host w)) + 2)
     /\ App.sources (App.host w')
        = <[0 := App.mkSource "m1" true]> (App.sources (App.host w))
          ++ replicate 2 (App.mkSource "m1" true) ++ [App.mkSource "m1" false].
Proof.
  split; [reflexivity|]. split; [reflexivity|]. split; [constructor|].
  intros w.
  apply (reconnect_loop w 0 "m1" 3); [reflexivity | reflexivity | constructor].
Defined.

(* ================================================================== *)
(** * The simulated session, from start to Result *)
(* ================================================================== *)

Lemma mock_handlers_view (e : StreamEvent) (w : App.World) :
  App.view (App.mock_handlers e w) = mock_view e (App.view w).
Proof. destruct e; reflexivity. Qed.

Lemma mock_handlers_fold_view (out : list StreamEvent) :
  forall w,
    App.view (fold_left (fun acc e => App.mock_handlers e acc) out w)
    = fold_left (fun v e => mock_view e v) out (App.view w).
Proof.
  induction out as [|e out IH]; intros w; [reflexivity|].
  cbn [fold_left]. now rewrite IH, mock_handlers_view.
Qed.

(** On the state variables, the updates of the simulated session do what
    those of a stream do. *)
Lemma mock_updates (trace : list StreamEvent) (v : App.View) :
  forallb is_update trace = true ->
  fold_left (fun v e => mock_view e v) trace v = updated_view v trace.
Proof.
  induction trace as [|e trace IH] using rev_ind; intros Hu.
  - now destruct v.
  - rewrite forallb_app in Hu. apply andb_true_iff in Hu as [Hu He].
    rewrite fold_left_app, (IH Hu). cbn [fold_left].
    unfold updated_view. rewrite move_views_app, clock_values_app.
    destruct e; try discriminate He.
    + change (move_views [OnClock white_ms black_ms]) with
        (@nil (string * string * string)).
      change (clock_values [OnClock white_ms black_ms])
        with [(white_ms, black_ms)].
      rewrite app_nil_r, last_snoc. reflexivity.
    + change (move_views [OnMove ply uci san fen pgn]) with [(uci, fen, pgn)].
      change (clock_values [OnMove ply uci san fen pgn]) with (@nil (Z * Z)).
      rewrite app_nil_r, last_snoc. reflexivity.
Qed.

(** What a step of an instance can emit. *)
Lemma sim_step_shape (s : Sim) (t : Tick) :
  snd (sim_step s t) = []
  \/ (exists e, snd (sim_step s t) = [e] /\ is_update e = true)
  \/ (exists r reason,
        snd (sim_step s t) = [OnResult r reason]
        /\ sim_dead (fst (sim_step s t))).
Proof.
  destruct t; cbn [sim_step].
  - destruct (clockTimer s); [|now left].
    unfold clock_callback. destruct (closed s); [now left|].
    right; left. eexists. split; reflexivity.
  - destruct (moveTimer s); [|now left].
    unfold move_callback. destruct (closed s); [now left|].
    destruct (mockMoves !! moveIndex s) as [[uci san]|].
    + destruct (applyUciMove (board s) uci) as [b [u|e]]; [|now left].
      right; left. eexists. split; reflexivity.
    + right; right. eexists _, _. split; [reflexivity | now repeat split].
  - now left.
Qed.

(** An interval of the current instance comes due: the state variables
    take the events the instance emits, and the host keeps the instance
    as the step left it. *)
Lemma mock_ticks_step (w : App.World) (k : nat) (s : Sim) (t : Tick) :
  App.mocks (App.host w) !! k = Some s ->
  App.mockStreamRef (App.refs w) = Some k \/ sim_dead s ->
  App.view (App.mock_ticks k t w)
  = fold_left (fun v e => mock_view e v) (snd (sim_step s t)) (App.view w)
  /\ App.mocks (App.host (App.mock_ticks k t w)) !! k
     = Some (fst (sim_step s t))
  /\ (App.mockStreamRef (App.refs (App.mock_ticks k t w)) = Some k
      \/ sim_dead (fst (sim_step s t))).
Proof.
  intros Hk Hcur.
  assert (Hlt : k < length (App.mocks (App.host w)))
    by now apply lookup_lt_Some in Hk.
  unfold App.mock_ticks. rewrite Hk.
  destruct (sim_step s t) as [s' out] eqn:E. cbn [fst snd].
  rewrite mock_handlers_fold_view. cbn [App.view]. split; [reflexivity|].
  assert (Hdead : sim_dead s -> out = [] /\ sim_dead s').
  { intros Hd. destruct (sim_dead_step s t Hd) as [E'|E'];
      rewrite E' in E; injection E as <- <-; split; try reflexivity;
      [exact Hd | now repeat split]. }
  pose proof (sim_step_shape s t) as Hshape. rewrite E in Hshape.
  cbn [fst snd] in Hshape.
  destruct Hshape as [-> | [(e & -> & He) | (r & reason & -> & Hd')]].
  - cbn [fold_left App.host App.mocks App.refs].
    rewrite list_lookup_insert_eq by exact Hlt. split; [reflexivity|].
    destruct Hcur as [Hcur|Hd]; [now left | right; now apply Hdead].
  - destruct Hcur as [Hcur|Hd]; [|apply Hdead in Hd as [[=] _]].
    cbn [fold_left].
    destruct e; try discriminate He; cbn [App.mock_handlers];
      cbn [App.setClocks App.setLastMoveUci App.setPgn App.setFen
           App.host App.mocks App.refs App.view];
      rewrite list_lookup_insert_eq by exact Hlt;
      (split; [reflexivity | now left]).
  - destruct Hcur as [Hcur|Hd]; [|apply Hdead in Hd as [[=] _]].
    cbn [fold_left App.mock_handlers]. split; [|now right].
    unfold App.closeStream.
    cbn [App.setStatus App.setResult App.refs App.host App.view
         App.mockStreamRef].
    rewrite Hcur. unfold App.close_mock.
    destruct (App.reconnectTimerRef (App.refs w)),
             (App.streamRef (App.refs w));
      cbn [App.clearTimeout App.close_source App.host App.mocks];
      rewrite !list_lookup_insert_eq by (rewrite ?length_insert; exact Hlt);
      now rewrite (close_sim_dead s' Hd').
Qed.

Lemma mock_ticks_run (k : nat) (schedule : list Tick) :
  forall (w : App.World) (s : Sim),
    App.mocks (App.host w) !! k = Some s ->
    App.mockStreamRef (App.refs w) = Some k \/ sim_dead s ->
    App.view (App.run w (map (App.MockTicks k) schedule))
    = fold_left (fun v e => mock_view e v) (snd (sim_run s schedule))
        (App.view w)
    /\ App.mocks (App.host (App.run w (map (App.MockTicks k) schedule))) !! k
       = Some (fst (sim_run s schedule)).
Proof.
  induction schedule as [|t rest IH]; intros w s Hk Hcur; [now split|].
  destruct (mock_ticks_step w k s t Hk Hcur) as (Hv & Hk' & Hcur').
  cbn [map]. change (App.run w (App.MockTicks k t :: ?l))
    with (App.run (App.mock_ticks k t w) l).
  destruct (IH _ _ Hk' Hcur') as [Hv' Hk''].
  rewrite sim_run_cons. cbn [fst snd].
  rewrite Hv', Hk'', Hv, fold_left_app. now split.
Qed.

(** The last Move of a trace, by its codes. *)
Lemma last_move_event (trace : list StreamEvent) (ply : nat)
    (uci san : string) :
  last (move_codes trace) = Some (ply, uci, san) ->
  exists fen pgn,
    last (move_views trace) = Some (uci, fen, pgn)
    /\ In (OnMove ply uci san fen pgn) trace.
Proof.
  induction trace as [|e trace IH] using rev_ind; [discriminate|].
  rewrite move_codes_app, move_views_app. intros H.
  assert (Hrest : last (move_codes trace) = Some (ply, uci, san) ->
                  move_views [e] = [] ->
                  exists fen pgn,
                    last (move_views trace ++ move_views [e])
                    = Some (uci, fen, pgn)
                    /\ In (OnMove ply uci san fen pgn) (trace ++ [e])).
  { intros H' ->. destruct (IH H') as (fen & pgn & Hl & Hin).
    exists fen, pgn. rewrite app_nil_r.
    split; [exact Hl | apply in_or_app; now left]. }
  destruct e;
    try (change (move_codes [_]) with (@nil (nat * string * string)) in H;
         rewrite app_nil_r in H; now apply Hrest).
  change (move_codes [OnMove ply0 uci0 san0 fen pgn])
    with [(ply0, uci0, san0)] in H.
  rewrite last_snoc in H. injection H as -> -> ->.
  exists fen, pgn.
  change (move_views [OnMove ply uci san fen pgn]) with [(uci, fen, pgn)].
  rewrite last_snoc. split; [reflexivity|].
  apply in_or_app. right. now left.
Qed.

(** Every event of a run is an update or a Result. *)
Lemma sim_run_events (schedule : list Tick) :
  forall (s : Sim) (e : StreamEvent),
    In e (snd (sim_run s schedule)) ->
    is_update e = true \/ is_result_event e = true.
Proof.
  induction schedule as [|t rest IH]; intros s e He; [destruct He|].
  rewrite sim_run_cons in He. cbn [snd] in He.
  apply in_app_or in He as [He|He]; [|now apply IH in He].
  destruct (sim_step_shape s t) as [E | [(e' & E & Hu) | (r & reason & E & _)]];
    rewrite E in He.
  - destruct He.
  - destruct He as [<-|[]]. now left.
  - destruct He as [<-|[]]. now right.
Qed.

Lemma no_result_updates (trace : list StreamEvent) :
  (forall e, In e trace -> is_update e = true \/ is_result_event e = true) ->
  count_results trace = 0 ->
  forallb is_update trace = true.
Proof.
  induction trace as [|e trace IH]; intros Hall Hc; [reflexivity|].
  cbn [forallb]. unfold count_results in *. cbn [List.filter] in Hc.
  destruct (Hall e (or_introl eq_refl)) as [Hu|Hr].
  - rewrite Hu. cbn [andb]. apply IH.
    + intros x Hx. apply Hall. now right.
    + destruct (is_result_event e); [discriminate Hc | exact Hc].
  - rewrite Hr in Hc. discriminate Hc.
Qed.

(** A running instance emits one Clock for every firing of the clock
    interval that comes before the firing of the move interval that
    finds the script exhausted. *)
Lemma clock_count_run (schedule : list Tick) :
  forall (s : Sim) (k : nat),
    sim_live s k ->
    count_ticks CloseCalled schedule = 0 ->
    length (clock_values (snd (sim_run s schedule)))
    = clock_ticks_before (20 - k) schedule.
Proof.
  induction schedule as [|t rest IH]; intros s k Hlive Hnc; [reflexivity|].
  rewrite sim_run_cons. cbn [snd]. rewrite clock_values_app, length_app.
  destruct t.
  - destruct (sim_live_clock s k Hlive) as [E Hlive']. rewrite E in *.
    cbn [fst snd] in *. cbn [clock_ticks_before].
    rewrite (IH _ k Hlive' Hnc). reflexivity.
  - pose proof Hlive as (_ & _ & _ & _ & Hle & _).
    destruct (mockMoves !! k) as [[uci san]|] eqn:Hm.
    + destruct (sim_live_move s k uci san Hlive Hm)
        as (fen & pgn & E & Hlive').
      rewrite E, (IH _ (S k) Hlive' Hnc).
      apply lookup_lt_Some in Hm. cbn [length mockMoves] in Hm.
      replace (20 - k) with (S (20 - S k)) by lia. reflexivity.
    + assert (E20 : k = 20).
      { apply lookup_ge_None in Hm. cbn [length mockMoves] in Hm. lia. }
      subst k. destruct (sim_live_result s Hlive) as [E Hdead].
      rewrite E. destruct (sim_dead_run _ rest Hdead) as [-> _].
      reflexivity.
  - discriminate Hnc.
Qed.

(** The accepted start of a simulated match: what is there when the
    instance has been made. *)
Lemma mock_start (whiteEngineId blackEngineId id : string) (initialMs : Z) :
  truthy_string whiteEngineId = true ->
  truthy_string blackEngineId = true ->
  (0 < initialMs)%Z ->
  App.run App.initial_world
    [App.Start whiteEngineId blackEngineId initialMs;
     App.MockMatchCreated id initialMs]
  = App.mkWorld
      (App.mkView (Some id) startFen "" None None App.running None None)
      (App.mkRefs None None (Some 0))
      (App.mkHost 0 1 [] [] [fst (createMockStream initialMs)]).
Proof.
  intros Hw Hb Hms. unfold App.run. cbn [fold_left App.step].
  unfold App.handleStart. rewrite Hw, Hb. cbn [negb orb].
  destruct (Z.leb_spec initialMs 0) as [Hle|_]; [lia|]. reflexivity.
Qed.

(** The state variables after the events of a whole simulated match. *)
Lemma mock_final_view (initialMs : Z) (schedule : list Tick) (v : App.View) :
  is_safe_integer initialMs = true ->
  count_ticks CloseCalled schedule = 0 ->
  21 <= count_ticks MoveTimerFires schedule ->
  exists fen pgn,
    fold_left (fun v e => mock_view e v)
      (snd (sim_run (fst (createMockStream initialMs)) schedule)) v
    = App.mkView (App.matchId v) fen pgn
        (match clock_ticks_before 20 schedule with
         | 0 => App.clocks v
         | S j => Some (clock_after initialMs (S j), clock_after initialMs (S j))
         end)
        (Some ("1-0", "checkmate")) App.finished (App.errorText v)
        (Some "b8c6")
    /\ parseFen fen = script_board 20
    /\ parsePgnMoves pgn = paired_rows (script_sans 20).
Proof.
  intros Hsafe Hnc Hmv21.
  set (s0 := fst (createMockStream initialMs)).
  destruct (sim_live_run schedule s0 0 (createMockStream_live initialMs))
    as (H1 & H2 & _).
  assert (Hone : count_results (snd (sim_run s0 schedule)) = 1)
    by (apply H2; [exact Hnc | lia]).
  destruct H1 as [H1 | (pre & Hpre & Hc & Hcodes)]; [lia|].
  assert (Hup : forallb is_update pre = true).
  { apply no_result_updates; [|exact Hc]. intros e He.
    apply (sim_run_events schedule s0). rewrite Hpre.
    apply in_or_app. now left. }
  assert (Hlast : last (move_codes pre) = Some (20, "b8c6", "Nc6"))
    by (rewrite Hcodes; reflexivity).
  destruct (last_move_event pre 20 "b8c6" "Nc6" Hlast)
    as (fen & pgn & Hmv & Hin).
  assert (Hok : move_event_ok (OnMove 20 "b8c6" "Nc6" fen pgn) = true).
  { apply (sim_script_run schedule s0 0); [lia | |].
    - now repeat split.
    - rewrite Hpre. apply in_or_app. now left. }
  cbn [move_event_ok] in Hok.
  repeat (apply andb_true_iff in Hok as [Hok ?]).
  repeat match goal with
         | H : bool_decide _ = true |- _ => apply bool_decide_eq_true in H
         end.
  assert (Hclk : last (clock_values pre)
                 = match clock_ticks_before 20 schedule with
                   | 0 => None
                   | S j => Some (clock_after initialMs (S j),
                                  clock_after initialMs (S j))
                   end).
  { pose proof (clock_count_run schedule s0 0
                  (createMockStream_live initialMs) Hnc) as Hlen.
    change (20 - 0) with 20 in Hlen.
    rewrite Hpre, clock_values_app in Hlen.
    change (clock_values [OnResult "1-0" "checkmate"]) with (@nil (Z * Z))
      in Hlen.
    rewrite app_nil_r in Hlen.
    rewrite last_lookup, Hlen.
    destruct (clock_ticks_before 20 schedule) as [|j].
    - destruct (clock_values pre); [reflexivity | discriminate Hlen].
    - cbn [pred].
      destruct (clock_values pre !! j) as [[cw cb]|] eqn:E.
      + assert (E' : clock_values (snd (sim_run s0 schedule)) !! j
                     = Some (cw, cb)).
        { rewrite Hpre, clock_values_app. now apply lookup_app_l_Some. }
        destruct (safe_integer_exact initialMs Hsafe) as [_ Hle].
        apply clock_values_run in E'; [|exact Hle|exact Hle].
        now destruct E' as [-> ->].
      + apply lookup_ge_None in E. lia. }
  exists fen, pgn. split; [|split; assumption].
  rewrite Hpre, fold_left_app, (mock_updates pre _ Hup).
  cbn [fold_left]. unfold updated_view. rewrite Hmv, Hclk.
  destruct (clock_ticks_before 20 schedule); reflexivity.
Qed.

(** X22.  A simulated match runs to its end.  When start is accepted
    (both engines chosen, a time control that is a positive safe
    integer), the simulated match is created, and the two intervals of
    its instance then fire in any order, the move interval at least 21
    times, with nothing else happening, the session ends finished with
    the result 1-0 by checkmate: the board the renderer draws from the
    position shown is the start board with the twenty script moves
    made one after the other (each moving the piece of its first square
    to its second, with the rook of a castling), the move list it draws
    is the twenty SAN texts paired two to a row, the last move shown is
    b8c6, no error is shown, and the instance is closed with both
    intervals cleared.  The clocks show the time control less one tick
    of 200 ms (clamped at 0) for every firing of the clock interval
    that came before the 21st firing of the move interval, and nothing
    when there was none: when the two intervals are due together the
    order in which they fire decides the value shown at the end. *)
Theorem mock_session_finishes (whiteEngineId blackEngineId id : string)
    (initialMs : Z) (schedule : list Tick) :
  truthy_string whiteEngineId = true ->
  truthy_string blackEngineId = true ->
  (0 < initialMs)%Z ->
  is_safe_integer initialMs = true ->
  count_ticks CloseCalled schedule = 0 ->
  21 <= count_ticks MoveTimerFires schedule ->
  let w := App.run App.initial_world
             ([App.Start whiteEngineId blackEngineId initialMs;
               App.MockMatchCreated id initialMs]
              ++ map (App.MockTicks 0) schedule) in
  App.status (App.view w) = App.finished
  /\ App.result (App.view w) = Some ("1-0", "checkmate")
  /\ App.matchId (App.view w) = Some id
  /\ App.errorText (App.view w) = None
  /\ App.lastMoveUci (App.view w) = Some "b8c6"
  /\ parseFen (App.fen (App.view w)) = script_board 20
  /\ parsePgnMoves (App.pgn (App.view w)) = paired_rows (script_sans 20)
  /\ App.clocks (App.view w)
     = match clock_ticks_before 20 schedule with
       | 0 => None
       | S j => Some (clock_after initialMs (S j), clock_after initialMs (S j))
       end
  /\ exists s, App.mocks (App.host w) !! 0 = Some s /\ sim_dead s.
Proof.
  intros Hw Hb Hms Hsafe Hnc Hmv21. cbv zeta.
  rewrite run_app, (mock_start _ _ id initialMs Hw Hb Hms).
  set (s0 := fst (createMockStream initialMs)).
  set (w1 := App.mkWorld _ _ _).
  destruct (mock_ticks_run 0 schedule w1 s0 eq_refl (or_introl eq_refl))
    as [Hv Hm].
  destruct (mock_final_view initialMs schedule (App.view w1) Hsafe Hnc Hmv21)
    as (fen & pgn & Hfin & Hfen & Hpgn).
  fold s0 in Hfin. rewrite Hfin in Hv. rewrite Hv, Hm.
  cbn [App.status App.result App.matchId App.errorText App.lastMoveUci
       App.fen App.pgn App.clocks App.view w1].
  repeat (split; [first [reflexivity | assumption]|]).
  exists (fst (sim_run s0 schedule)). split; [reflexivity|].
  destruct (sim_live_run schedule s0 0 (createMockStream_live initialMs))
    as (_ & H2 & H3).
  apply H3, H2; [exact Hnc | lia].
Qed.

Lemma mock_session_finishes_witness :
  truthy_string "stockfish-16" = true
  /\ truthy_string "lc0-0.30" = true
  /\ (0 < 300000)%Z
  /\ is_safe_integer 300000 = true
  /\ count_ticks CloseCalled (timed_schedule (fun _ => false) 130) = 0
  /\ 21 <= count_ticks MoveTimerFires (timed_schedule (fun _ => false) 130)
  /\ clock_ticks_before 20 (timed_schedule (fun _ => false) 130) = 125
  /\ clock_ticks_before 20 (timed_schedule (fun _ => true) 130) = 126
  /\ clock_after 300000 125 = 275000%Z
  /\ script_board 20
     = [[Some "r"; None; Some "b"; None; None; Some "r"; Some "k"; None];
        [None; Some "p"; Some "q"; None; Some "b"; Some "p"; Some "p";
         Some "p"];
        [Some "p"; None; Some "n"; Some "p"; Some "p"; Some "n"; None; None];
        [None; None; None; None; None; None; None; None];
        [Some "P"; None; None; Some "N"; Some "P"; Some "P"; None; None];
        [None; None; Some "N"; None; Some "B"; None; None; None];
        [None; Some "P"; Some "P"; None; Some "B"; None; Some "P"; Some "P"];
        [Some "R"; None; None; Some "Q"; None; Some "R"; Some "K"; None]]
  /\ paired_rows (script_sans 20)
     = [mkRow 1 "e4" "c5"; mkRow 2 "Nf3" "d6"; mkRow 3 "d4" "cxd4";
        mkRow 4 "Nxd4" "Nf6"; mkRow 5 "Nc3" "a6"; mkRow 6 "Be2" "e6";
        mkRow 7 "O-O" "Be7"; mkRow 8 "f4" "O-O"; mkRow 9 "Be3" "Qc7";
        mkRow 10 "a4" "Nc6"]
  /\ App.view
       (App.run App.initial_world
          ([App.Start "stockfish-16" "lc0-0.30" 300000;
            App.MockMatchCreated "mock-1" 300000]
           ++ map (App.MockTicks 0) (timed_schedule (fun _ => false) 130)))
     = App.mkView (Some "mock-1")
         "r1b2rk1/1pq1bppp/p1nppn2/8/P2NPP2/2N1B3/1PP1B1PP/R2Q1RK1 w - - 0 1"
         "1. e4 c5 2. Nf3 d6 3. d4 cxd4 4. Nxd4 Nf6 5. Nc3 a6 6. Be2 e6 7. O-O Be7 8. f4 O-O 9. Be3 Qc7 10. a4 Nc6"
         (Some (275000, 275000)%Z) (Some ("1-0", "checkmate")) App.finished
         None (Some "b8c6")
  /\ let w := App.run App.initial_world
                ([App.Start "stockfish-16" "lc0-0.30" 300000;
                  App.MockMatchCreated "mock-1" 300000]
                 ++ map (App.MockTicks 0)
                      (timed_schedule (fun _ => false) 130)) in
     App.status (App.view w) = App.finished
     /\ App.result (App.view w) = Some ("1-0", "checkmate")
     /\ App.matchId (App.view w) = Some "mock-1"
     /\ App.errorText (App.view w) = None
     /\ App.lastMoveUci (App.view w) = Some "b8c6"
     /\ parseFen (App.fen (App.view w)) = script_board 20
     /\ parsePgnMoves (App.pgn (App.view w)) = paired_rows (script_sans 20)
     /\ App.clocks (App.view w)
        = match clock_ticks_before 20 (timed_schedule (fun _ => false) 130) with
          | 0 => None
          | S j => Some (clock_after 300000 (S j), clock_after 300000 (S j))
          end
     /\ exists s, App.mocks (App.host w) !! 0 = Some s /\ sim_dead s.
Proof.
  split; [reflexivity|]. split; [reflexivity|]. split; [lia|].
  split; [reflexivity|]. split; [reflexivity|].
  split; [vm_compute; lia|]. split; [reflexivity|]. split; [reflexivity|].
  split; [reflexivity|]. split; [vm_compute; reflexivity|].
  split; [vm_compute; reflexivity|]. split; [vm_compute; reflexivity|].
  apply (mock_session_finishes "stockfish-16" "lc0-0.30" "mock-1" 300000
           (timed_schedule (fun _ => false) 130));
    [reflexivity | reflexivity | lia | reflexivity | reflexivity
    | vm_compute; lia].
Defined.

(* ================================================================== *)
(** * Stream client: close, and callbacks that do not disturb one another *)
(* ================================================================== *)

Section StreamClientRuns.

Context {Json : Type} (JSON_parse : string -> option Json).

Lemma client_closed_run (h : Sse.StreamHandlers)
    (inputs : list Sse.ClientInput) :
  forall c : Sse.Client Json,
    Sse.source_closed c = true ->
    Sse.client_run JSON_parse h c inputs = c.
Proof.
  induction inputs as [|i inputs IH]; intros c Hc; [reflexivity|].
  cbn [Sse.client_run fold_left].
  assert (E : Sse.client_step JSON_parse h c i = c).
  { destruct i as [sig|]; cbn [Sse.client_step]; [now rewrite Hc|].
    destruct c. cbn in Hc. now rewrite Hc. }
  rewrite E. now apply IH.
Qed.

(** X23.  [close] on the handle is final.  Whatever the client has done
    before [close] is called, nothing the source signals afterwards
    reaches a callback, and no exception is reported: the calls made and
    the exceptions reported are those from before the call, and the
    source stays closed, however often [close] is called again. *)
Theorem handle_close_final (h : Sse.StreamHandlers)
    (before after : list Sse.ClientInput) :
  Sse.client_run JSON_parse h Sse.createMatchStream
    (before ++ Sse.HandleClose :: after)
  = Sse.mkClient true
      (Sse.calls (Sse.client_run JSON_parse h Sse.createMatchStream before))
      (Sse.reported (Sse.client_run JSON_parse h Sse.createMatchStream before)).
Proof.
  unfold Sse.client_run. rewrite fold_left_app. cbn [fold_left Sse.client_step].
  now apply client_closed_run.
Qed.

Lemma kind_eqb_eq (k k' : Sse.EventKind) : kind_eqb k k' = true <-> k = k'.
Proof. destruct k, k'; cbn; split; congruence. Qed.

(** What a signal makes the client call on the callback of kind [k]
    depends on the presence of that callback only. *)
Lemma dispatch_of_kind (h h' : Sse.StreamHandlers) (k : Sse.EventKind)
    (sig : Sse.SourceSignal) :
  Sse.has_handler h k = Sse.has_handler h' k ->
  List.filter (call_of_kind k)
    (match Sse.dispatch JSON_parse h sig with
     | Normal cs => cs
     | Throw _ => []
     end)
  = List.filter (call_of_kind k)
      (match Sse.dispatch JSON_parse h' sig with
       | Normal cs => cs
       | Throw _ => []
       end).
Proof.
  intros Hk. destruct sig as [|ev|]; cbn [Sse.dispatch].
  - now destruct (Sse.has_onOpen h), (Sse.has_onOpen h').
  - destruct (Sse.kind_of_name (Sse.event_name ev)) as [k'|]; [|reflexivity].
    unfold Sse.listener.
    destruct (kind_eqb k k') eqn:E.
    + apply kind_eqb_eq in E as <-. now rewrite Hk.
    + destruct (Sse.has_handler h k'), (Sse.has_handler h' k');
        destruct (Sse.parseEvent JSON_parse ev);
        cbn [List.filter call_of_kind]; now rewrite ?E.
  - now destruct (Sse.has_onError h), (Sse.has_onError h').
Qed.

Lemma client_step_of_kind (h h' : Sse.StreamHandlers) (k : Sse.EventKind)
    (c c' : Sse.Client Json) (i : Sse.ClientInput) :
  Sse.has_handler h k = Sse.has_handler h' k ->
  Sse.source_closed c = Sse.source_closed c' ->
  List.filter (call_of_kind k) (Sse.calls c)
  = List.filter (call_of_kind k) (Sse.calls c') ->
  Sse.source_closed (Sse.client_step JSON_parse h c i)
  = Sse.source_closed (Sse.client_step JSON_parse h' c' i)
  /\ List.filter (call_of_kind k)
       (Sse.calls (Sse.client_step JSON_parse h c i))
     = List.filter (call_of_kind k)
         (Sse.calls (Sse.client_step JSON_parse h' c' i)).
Proof.
  intros Hk Hc Hcalls. destruct i as [sig|]; cbn [Sse.client_step];
    [|split; [reflexivity | exact Hcalls]].
  rewrite <- Hc.
  destruct (Sse.source_closed c) eqn:E; [split; [congruence | exact Hcalls]|].
  pose proof (dispatch_of_kind h h' k sig Hk) as Hd.
  destruct (Sse.dispatch JSON_parse h sig) as [cs|e],
           (Sse.dispatch JSON_parse h' sig) as [cs'|e'];
    cbn [Sse.source_closed Sse.calls]; (split; [reflexivity|]);
    cbn [List.filter] in Hd.
  - now rewrite !List.filter_app, Hcalls, Hd.
  - now rewrite List.filter_app, Hcalls, Hd, app_nil_r.
  - now rewrite List.filter_app, <- Hd, app_nil_r.
  - exact Hcalls.
Qed.

(** X24.  The callbacks do not disturb one another.  The calls the
    client makes on the callback of one kind of message, and their
    arguments and order, depend on whether that callback was passed and
    on nothing else about the callbacks: two clients whose callbacks
    differ (others passed or not) make the same calls of that kind on
    the same signals, malformed messages of other kinds included. *)
Theorem callbacks_independent (h h' : Sse.StreamHandlers) (k : Sse.EventKind)
    (inputs : list Sse.ClientInput) :
  Sse.has_handler h k = Sse.has_handler h' k ->
  List.filter (call_of_kind k)
    (Sse.calls (Sse.client_run JSON_parse h Sse.createMatchStream inputs))
  = List.filter (call_of_kind k)
      (Sse.calls (Sse.client_run JSON_parse h' Sse.createMatchStream inputs)).
Proof.
  intros Hk. unfold Sse.client_run.
  assert (H : forall c c' : Sse.Client Json,
             Sse.source_closed c = Sse.source_closed c' ->
             List.filter (call_of_kind k) (Sse.calls c)
             = List.filter (call_of_kind k) (Sse.calls c') ->
             List.filter (call_of_kind k)
               (Sse.calls (fold_left (Sse.client_step JSON_parse h) inputs c))
             = List.filter (call_of_kind k)
                 (Sse.calls (fold_left (Sse.client_step JSON_parse h') inputs c'))).
  { induction inputs as [|i inputs IH]; intros c c' Hc Hcalls; [exact Hcalls|].
    cbn [fold_left].
    destruct (client_step_of_kind h h' k c c' i Hk Hc Hcalls) as [Hc' Hcalls'].
    now apply IH. }
  now apply H.
Qed.

End StreamClientRuns.

Lemma callbacks_independent_witness :
  Sse.has_handler (Sse.mkHandlers true true true true true true) Sse.clock
  = Sse.has_handler (Sse.mkHandlers false false true false false false) Sse.clock
  /\ List.filter (call_of_kind Sse.clock)
       (Sse.calls
          (Sse.client_run example_parse
             (Sse.mkHandlers true true true true true true)
             Sse.createMatchStream
             [Sse.FromSource Sse.SigOpen;
              Sse.FromSource (Sse.SigMessage (Sse.mkMessage "move" "{oops"));
              Sse.FromSource (Sse.SigMessage (Sse.mkMessage "clock" "42"))]))
     = List.filter (call_of_kind Sse.clock)
         (Sse.calls
            (Sse.client_run example_parse
               (Sse.mkHandlers false false true false false false)
               Sse.createMatchStream
               [Sse.FromSource Sse.SigOpen;
                Sse.FromSource (Sse.SigMessage (Sse.mkMessage "move" "{oops"));
                Sse.FromSource (Sse.SigMessage (Sse.mkMessage "clock" "42"))])).
Proof.
  split; [reflexivity|].
  apply (callbacks_independent example_parse
           (Sse.mkHandlers true true true true true true)
           (Sse.mkHandlers false false true false false false) Sse.clock).
  reflexivity.
Defined.

(* ================================================================== *)
(** * Colours of the board *)
(* ================================================================== *)

Lemma mod2_odd (n : nat) : (n mod 2 =? 1)%nat = Nat.odd n.
Proof.
  rewrite <- Nat.bit0_mod, Nat.bit0_odd. now destruct (Nat.odd n).
Qed.

(** X25.  The board is coloured as a chessboard.  The cell the renderer
    draws at row [rankIndex] and column [fileIndex] is dark exactly when
    the number of its file (a is 1) and the number of its rank (the top
    row is rank 8) have an even sum: a1 is dark, h1 is light, and cells
    that share a side differ in colour. *)
Theorem isDark_chessboard (rankIndex fileIndex : nat) :
  rankIndex < 8 ->
  isDark rankIndex fileIndex
  = Nat.even ((fileIndex + 1) + (8 - rankIndex))
  /\ isDark rankIndex (S fileIndex) = negb (isDark rankIndex fileIndex)
  /\ isDark (S rankIndex) fileIndex = negb (isDark rankIndex fileIndex).
Proof.
  intros Hr. unfold isDark. rewrite !mod2_odd.
  rewrite <- !Nat.negb_even.
  replace (rankIndex + S fileIndex) with (S (rankIndex + fileIndex)) by lia.
  replace (S rankIndex + fileIndex) with (S (rankIndex + fileIndex)) by lia.
  rewrite Nat.even_succ, <- Nat.negb_even.
  split; [|now split].
  rewrite !Nat.even_add, Nat.even_sub by lia.
  change (Nat.even 1) with false. change (Nat.even 8) with true.
  now destruct (Nat.even rankIndex), (Nat.even fileIndex).
Qed.

Lemma isDark_chessboard_witness :
  7 < 8
  /\ (isDark 7 0 = Nat.even ((0 + 1) + (8 - 7))
      /\ isDark 7 (S 0) = negb (isDark 7 0)
      /\ isDark (S 7) 0 = negb (isDark 7 0)).
Proof.
  split; [lia|]. apply (isDark_chessboard 7 0). lia.
Defined.

(* ================================================================== *)
(** * Session: a new match, and an answer that comes after stop *)
(* ================================================================== *)

Lemma closeStream_sources_length (w : App.World) :
  length (App.sources (App.host (App.closeStream w)))
  = length (App.sources (App.host w)).
Proof.
  unfold App.closeStream, App.close_mock, App.close_source, App.clearTimeout.
  destruct (App.reconnectTimerRef (App.refs w)),
           (App.streamRef (App.refs w)) as [k|],
           (App.mockStreamRef (App.refs w));
    cbn [App.host App.sources];
    try destruct (App.sources (App.host w) !! k);
    now rewrite ?length_insert.
Qed.

(** openStream leaves the new source current and open, and the state
    variables as they were. *)
Lemma openStream_current (id : string) (w : App.World) :
  App.streamRef (App.refs (App.openStream id w))
  = Some (length (App.sources (App.host w)))
  /\ App.sources (App.host (App.openStream id w))
       !! length (App.sources (App.host w))
     = Some (App.mkSource id false)
  /\ App.view (App.openStream id w) = App.view w.
Proof.
  pose proof (closeStream_sources_length w) as Hlen.
  unfold App.openStream, App.new_source.
  cbn [App.refs App.host App.view App.streamRef App.sources].
  rewrite Hlen. split; [reflexivity|]. split; [|reflexivity].
  rewrite lookup_app_r by lia. now rewrite Hlen, Nat.sub_diag.
Qed.

Lemma source_calls_current (w : App.World) (k : nat) (id : string)
    (e : StreamEvent) :
  App.sources (App.host w) !! k = Some (App.mkSource id false) ->
  App.source_calls k e w = App.stream_handlers id e w.
Proof. intros H. unfold App.source_calls. now rewrite H. Qed.

(** X26.  A new match over the old one.  From any state, when start is
    accepted, the match is created and its source opens and delivers
    MatchStarted, the session is running on the new match with its start
    position (the default one when the event brings none), an empty move
    list, no result and no error, and the new source is the current one;
    the source's onOpen alone leaves the status connecting; and the
    clocks and the last move are still those of the state before: start
    and MatchStarted reset neither. *)
Theorem new_match_sequence (w : App.World)
    (whiteEngineId blackEngineId id match_id start_fen : string)
    (initialMs : Z) :
  truthy_string whiteEngineId = true ->
  truthy_string blackEngineId = true ->
  (0 < initialMs)%Z ->
  let k := length (App.sources (App.host w)) in
  let opened := App.run w [App.Start whiteEngineId blackEngineId initialMs;
                           App.MatchCreated id;
                           App.SourceCalls k OnOpen] in
  let w' := App.step opened
              (App.SourceCalls k (OnMatchStarted match_id start_fen)) in
  App.status (App.view opened) = App.connecting
  /\ App.view w'
     = App.mkView (Some id) (App.start_fen_or_default start_fen) ""
         (App.clocks (App.view w)) None App.running None
         (App.lastMoveUci (App.view w))
  /\ App.streamRef (App.refs w') = Some k
  /\ App.sources (App.host w') !! k = Some (App.mkSource id false).
Proof.
  intros Hw Hb Hms k opened w'. unfold w', opened, App.run.
  cbn [fold_left App.step]. clear w' opened.
  set (w0 := App.handleStart whiteEngineId blackEngineId initialMs w).
  assert (E0 : w0 = App.setResult None
                      (App.setPgn ""
                         (App.closeStream
                            (App.setStatus (fun _ => App.connecting)
                               (App.setError None w))))).
  { unfold w0, App.handleStart. rewrite Hw, Hb. cbn [negb orb].
    destruct (Z.leb_spec initialMs 0); [lia | reflexivity]. }
  assert (Hlen : length (App.sources (App.host w0)) = k).
  { rewrite E0.
    apply (closeStream_sources_length
             (App.setStatus (fun _ => App.connecting) (App.setError None w))). }
  unfold App.match_created.
  destruct (openStream_current id (App.setMatchId (Some id) w0))
    as (Hr & Hs & Hv).
  change (App.host (App.setMatchId (Some id) w0)) with (App.host w0) in Hr, Hs.
  rewrite Hlen in Hr, Hs.
  set (w1 := App.openStream id _) in *.
  rewrite (source_calls_current w1 k id OnOpen Hs).
  cbn [App.stream_handlers].
  set (w2 := App.setStatus _ w1).
  assert (Hs2 : App.sources (App.host w2) !! k = Some (App.mkSource id false))
    by exact Hs.
  rewrite (source_calls_current w2 k id _ Hs2). cbn [App.stream_handlers].
  assert (Hv2 : App.view w2
                = App.mkView (Some id) (App.fen (App.view w)) ""
                    (App.clocks (App.view w)) None App.connecting None
                    (App.lastMoveUci (App.view w))).
  { unfold w2, App.setStatus. cbn [App.view]. rewrite Hv, E0. reflexivity. }
  split; [now rewrite Hv2|]. split; [|split; [exact Hr | exact Hs]].
  unfold App.setResult, App.setPgn, App.setFen, App.setStatus.
  cbn [App.view]. rewrite Hv2. reflexivity.
Qed.

Lemma new_match_sequence_witness :
  truthy_string "stockfish-16" = true
  /\ truthy_string "lc0-0.30" = true
  /\ (0 < 300000)%Z
  /\ let w := App.run App.initial_world
                [App.Start "stockfish-16" "lc0-0.30" 300000;
                 App.MatchCreated "m1";
                 App.SourceCalls 0 (OnClock 1000 2000);
                 App.SourceCalls 0 (OnMove 1 "e2e4" "e4"
                                      "8/8/8/8/8/8/8/8 b - - 0 1" "1. e4");
                 App.SourceCalls 0 (OnResult "1-0" "checkmate")] in
     let k := length (App.sources (App.host w)) in
     let opened := App.run w [App.Start "stockfish-16" "lc0-0.30" 300000;
                              App.MatchCreated "m2";
                              App.SourceCalls k OnOpen] in
     let w' := App.step opened (App.SourceCalls k (OnMatchStarted "m2" "")) in
     App.status (App.view opened) = App.connecting
     /\ App.view w'
        = App.mkView (Some "m2") (App.start_fen_or_default "") ""
            (App.clocks (App.view w)) None App.running None
            (App.lastMoveUci (App.view w))
     /\ App.streamRef (App.refs w') = Some k
     /\ App.sources (App.host w') !! k = Some (App.mkSource "m2" false).
Proof.
  split; [reflexivity|]. split; [reflexivity|]. split; [lia|].
  intros w.
  apply (new_match_sequence w "stockfish-16" "lc0-0.30" "m2" "m2" "" 300000);
    [reflexivity | reflexivity | lia].
Defined.

(** X27.  Stop does not cancel a request in flight.  From any state,
    when the answer to a match request arrives after stop, the component
    stores the match id and opens a stream for it all the same: the
    status is idle with a source open and current, and the MatchStarted
    of that source sets the session running on the match the user
    stopped. *)
Theorem answer_after_stop (w : App.World) (id match_id start_fen : string) :
  let k := length (App.sources (App.host w)) in
  let w' := App.run w [App.Stop; App.MatchCreated id] in
  App.status (App.view w') = App.idle
  /\ App.matchId (App.view w') = Some id
  /\ App.streamRef (App.refs w') = Some k
  /\ App.sources (App.host w') !! k = Some (App.mkSource id false)
  /\ App.status
       (App.view (App.step w'
                    (App.SourceCalls k (OnMatchStarted match_id start_fen))))
     = App.running.
Proof.
  intros k w'. unfold w', App.run. cbn [fold_left App.step]. clear w'.
  set (w0 := App.resetMatch w).
  assert (Hlen : length (App.sources (App.host w0)) = k)
    by apply (closeStream_sources_length w).
  unfold App.match_created.
  destruct (openStream_current id (App.setMatchId (Some id) w0))
    as (Hr & Hs & Hv).
  change (App.host (App.setMatchId (Some id) w0)) with (App.host w0) in Hr, Hs.
  rewrite Hlen in Hr, Hs.
  set (w1 := App.openStream id _) in *.
  rewrite (source_calls_current w1 k id _ Hs). rewrite Hv.
  repeat split; assumption || reflexivity.
Qed.

(** ** Closing twice *)

Lemma closeStream_no_handles (v : App.View) (h : App.Host) :
  App.closeStream (App.mkWorld v (App.mkRefs None None None) h)
  = App.mkWorld v (App.mkRefs None None None) h.
Proof. reflexivity. Qed.

Lemma resetMatch_effect (w : App.World) :
  App.resetMatch w
  = App.mkWorld App.initial_view (App.mkRefs None None None)
      (App.host (App.closeStream w)).
Proof. reflexivity. Qed.

(** X28.  Closing twice is closing once.  For every state, closeStream
    applied a second time changes nothing, and so does stop: the handles
    are already forgotten, so no timeout, source or simulator is touched
    again, and the state variables are already the defaults. *)
Theorem stop_idempotent (w : App.World) :
  App.closeStream (App.closeStream w) = App.closeStream w
  /\ App.resetMatch (App.resetMatch w) = App.resetMatch w.
Proof.
  split.
  - unfold App.closeStream at 2. apply closeStream_no_handles.
  - rewrite (resetMatch_effect w), resetMatch_effect.
    now rewrite closeStream_no_handles.
Qed.
